(** * cryoMFN: hierarchical pose search and SO(3) reparameterisation

    A shallow embedding of [lib-python/models.py] (classes [BNBOpt],
    [SO3reparameterize] and [VAE]) together with the part of torch and
    numpy those classes rely on: tensors are a shape and a row-major
    buffer of binary32 numbers, Python exceptions are an error result,
    and the render model is a stateful module whose calls are logged. *)

From Stdlib Require Import List ZArith Lia Bool Arith PeanoNat.
From Stdlib Require Import SpecFloat.
Import ListNotations.

Set Implicit Arguments.

(** ** binary32 scalars

    [torch.float32] values, as IEEE-754 binary32 numbers in the Standard
    Library's executable specification (precision 24, exponent bound 128). *)
Module F32.

Definition prec : Z := 24.
Definition emax : Z := 128.

Definition t : Type := spec_float.

Definition add : t -> t -> t := SFadd prec emax.
Definition sub : t -> t -> t := SFsub prec emax.
Definition mul : t -> t -> t := SFmul prec emax.

Definition zero : t := S754_zero false.
Definition one : t := S754_finite false 8388608 (-23).
Definition nan : t := S754_nan.
Definition inf : t := S754_infinity false.

Definition of_Z (z : Z) : t := binary_normalize prec emax z 0 false.

Definition is_nan (x : t) : bool :=
  match x with S754_nan => true | _ => false end.

Definition is_zero (x : t) : bool :=
  match x with S754_zero _ => true | _ => false end.

Definition is_finite (x : t) : bool :=
  match x with S754_zero _ | S754_finite _ _ _ => true | _ => false end.

(** A well-formed binary32 datum: finite, with a canonical mantissa. *)
Definition valid (x : t) : bool := is_finite x && valid_binary prec emax x.

Definition eqb : t -> t -> bool := SFeqb.
Definition ltb : t -> t -> bool := SFltb.
Definition leb : t -> t -> bool := SFleb.

(** [x.pow(2)]. *)
Definition pow2 (x : t) : t := mul x x.

(** [torch.sum] over a buffer, accumulated from the left. *)
Definition sum (l : list t) : t := fold_left add l zero.

End F32.

(** ** Lists as row-major buffers *)

Section Buffers.
Context {A : Type}.

(** [k] consecutive blocks of [n] elements. *)
Fixpoint chunks (n k : nat) (l : list A) : list (list A) :=
  match k with
  | O => []
  | S k' => firstn n l :: chunks n k' (skipn n l)
  end.

(** The element at position [j], as a list of at most one element. *)
Definition pick (j : nat) (l : list A) : list A := firstn 1 (skipn j l).

Fixpoint zip_with {B C : Type} (f : A -> B -> C) (l1 : list A) (l2 : list B) : list C :=
  match l1, l2 with
  | a :: l1', b :: l2' => f a b :: zip_with f l1' l2'
  | _, _ => []
  end.

End Buffers.

(** Columns of a list of rows that each have [ncols] entries. *)
Definition columns {A : Type} (ncols : nat) (rows : list (list A)) : list (list A) :=
  map (fun j => flat_map (pick j) rows) (seq 0 ncols).

(** ** Exceptions *)

(** The failures the embedded code can raise, named after the operation
    that raises them. *)
Inductive exn : Type :=
| AssertionError   (* [assert] *)
| DimError         (* a dimension index outside the tensor's rank *)
| ViewError        (* [Tensor.view] *)
| BroadcastError   (* elementwise operation on incompatible shapes *)
| MatmulError      (* [@] *)
| ReduceError      (* reduction over an empty dimension *)
| ConcatError      (* [np.concatenate] *)
| StackError       (* [np.stack] *)
| IndexError       (* numpy indexing *)
| UnpackError      (* tuple unpacking of an array *)
| ConvertError.    (* a rotation conversion applied to a wrong shape *)

Inductive result (A : Type) : Type :=
| Ok (a : A)
| Raise (e : exn).
Arguments Ok {A} a.
Arguments Raise {A} e.

Definition rbind {A B : Type} (r : result A) (f : A -> result B) : result B :=
  match r with
  | Ok a => f a
  | Raise e => Raise e
  end.

(** Evaluate [f] on each element in order, stopping at the first failure. *)
Fixpoint rmap {A B : Type} (f : A -> result B) (l : list A) : result (list B) :=
  match l with
  | [] => Ok []
  | a :: l' =>
      rbind (f a) (fun b => rbind (rmap f l') (fun bs => Ok (b :: bs)))
  end.

(** ** Arrays: [torch.Tensor] and [numpy.ndarray] *)

Record ndarray (A : Type) : Type := mk_nd { shape : list nat; data : list A }.
Arguments mk_nd {A} shape data.

Definition tensor : Type := ndarray F32.t.

Definition numel (s : list nat) : nat := fold_right Nat.mul 1 s.

(** The buffer holds exactly the elements the shape announces. *)
Definition wf {A : Type} (a : ndarray A) : Prop := length (data a) = numel (shape a).

Definition nd_map {A B : Type} (f : A -> B) (a : ndarray A) : ndarray B :=
  mk_nd (shape a) (map f (data a)).

Fixpoint shape_eqb (s1 s2 : list nat) : bool :=
  match s1, s2 with
  | [], [] => true
  | d1 :: s1', d2 :: s2' => (d1 =? d2) && shape_eqb s1' s2'
  | _, _ => false
  end.

(** *** Broadcasting *)

(** Shapes are aligned on their last dimension; two sizes are compatible
    when they are equal or one of them is 1.  The argument lists are the
    reversed shapes. *)
Fixpoint broadcast_rev (s1 s2 : list nat) : option (list nat) :=
  match s1, s2 with
  | [], s => Some s
  | s, [] => Some s
  | d1 :: s1', d2 :: s2' =>
      match broadcast_rev s1' s2' with
      | None => None
      | Some s =>
          if d1 =? d2 then Some (d1 :: s)
          else if d1 =? 1 then Some (d2 :: s)
          else if d2 =? 1 then Some (d1 :: s)
          else None
      end
  end.

Definition broadcast_shapes (s1 s2 : list nat) : option (list nat) :=
  option_map (@rev nat) (broadcast_rev (rev s1) (rev s2)).

(** A shape completed on the left with dimensions of size 1 up to rank [r]. *)
Definition pad (r : nat) (s : list nat) : list nat := repeat 1 (r - length s) ++ s.

(** The buffer of an array of shape [s] after expansion to shape [t]
    (same rank): a dimension of size 1 is repeated. *)
Fixpoint expand {A : Type} (s t : list nat) (d : list A) : list A :=
  match s, t with
  | ds :: s', dt :: t' =>
      if ds =? dt then flat_map (expand s' t') (chunks (numel s') ds d)
      else concat (repeat (expand s' t' d) dt)
  | _, _ => d
  end.

(** An elementwise binary operation with broadcasting. *)
Definition broadcast2 {A B C : Type} (f : A -> B -> C)
    (a : ndarray A) (b : ndarray B) : result (ndarray C) :=
  match broadcast_shapes (shape a) (shape b) with
  | Some s =>
      let r := length s in
      Ok (mk_nd s (zip_with f (expand (pad r (shape a)) s (data a))
                              (expand (pad r (shape b)) s (data b))))
  | None => Raise BroadcastError
  end.

(** *** torch operations *)

(** [t.size(0)] *)
Definition size0 {A : Type} (t : ndarray A) : result nat :=
  match shape t with
  | d :: _ => Ok d
  | [] => Raise DimError
  end.

(** [t.unsqueeze(d)] *)
Definition unsqueeze {A : Type} (d : nat) (t : ndarray A) : result (ndarray A) :=
  if d <=? length (shape t)
  then Ok (mk_nd (firstn d (shape t) ++ 1 :: skipn d (shape t)) (data t))
  else Raise DimError.

(** [t.transpose(0,1)], in the logical (row-major) order of the result. *)
Definition transpose01 {A : Type} (t : ndarray A) : result (ndarray A) :=
  match shape t with
  | a :: b :: rest =>
      let r := numel rest in
      let blocks := map (chunks r b) (chunks (b * r) a (data t)) in
      Ok (mk_nd (b :: a :: rest)
                (flat_map (fun j => flat_map (fun row => concat (pick j row)) blocks)
                          (seq 0 b)))
  | _ => Raise DimError
  end.

(** [t.view(-1, d1, ..., dn)]: the leading dimension is inferred. *)
Definition view_infer {A : Type} (dims : list nat) (t : ndarray A) : result (ndarray A) :=
  let n := numel (shape t) in
  let m := numel dims in
  if (0 <? m) && (n mod m =? 0)
  then Ok (mk_nd (n / m :: dims) (data t))
  else Raise ViewError.

(** [a - b] *)
Definition tsub (a b : tensor) : result tensor := broadcast2 F32.sub a b.

(** [a * b] *)
Definition tmul (a b : tensor) : result tensor := broadcast2 F32.mul a b.

(** [t.pow(2)] *)
Definition tpow2 (t : tensor) : tensor := nd_map F32.pow2 t.

(** [torch.sum(t, (-1,-2))] *)
Definition sum_last2 (t : tensor) : result tensor :=
  let r := length (shape t) in
  if 2 <=? r then
    let lead := firstn (r - 2) (shape t) in
    let blk := numel (skipn (r - 2) (shape t)) in
    Ok (mk_nd lead (map F32.sum (chunks blk (numel lead) (data t))))
  else Raise DimError.

(** The comparison of torch's arg-min reduction: [a] at index [idx_a]
    is kept against [b] at index [idx_b].  A NaN is smaller than any number,
    and equal values are ordered by index. *)
Definition LessOrNan (a b : F32.t) (idx_a idx_b : nat) : bool :=
  if F32.is_nan a then
    (if F32.is_nan b then idx_a <? idx_b else true)
  else
    (if F32.eqb a b then idx_a <? idx_b else F32.ltb a b).

Fixpoint argmin_from (acc : F32.t * nat) (idx : nat) (l : list F32.t) : nat :=
  match l with
  | [] => snd acc
  | v :: l' =>
      argmin_from (if LessOrNan (fst acc) v (snd acc) idx then acc else (v, idx))
                  (S idx) l'
  end.

(** The arg-min of a non-empty buffer. *)
Definition argmin (l : list F32.t) : nat :=
  match l with
  | [] => 0
  | v :: l' => argmin_from (v, 0) 1 l'
  end.

(** [torch.argmin(t, 1)] *)
Definition argmin_dim1 (t : tensor) : result (ndarray nat) :=
  match shape t with
  | b :: q :: rest =>
      if q =? 0 then Raise ReduceError
      else
        let r := numel rest in
        Ok (mk_nd (b :: rest)
                  (flat_map (fun blk => map argmin (columns r (chunks r q blk)))
                            (chunks (q * r) b (data t))))
  | _ => Raise DimError
  end.

Definition dot (u v : list F32.t) : F32.t := F32.sum (zip_with F32.mul u v).

(** The product of an [n]x[m] by an [m]x[k] matrix, on row-major buffers. *)
Definition mm (n m k : nat) (a b : list F32.t) : list F32.t :=
  flat_map (fun row => map (dot row) (columns k (chunks k m b))) (chunks m n a).

(** [a @ b] ([torch.matmul]): the last two dimensions are multiplied, the
    leading ones are broadcast; a vector operand is promoted to a matrix
    and the added dimension removed afterwards. *)
Definition matmul (a b : tensor) : result tensor :=
  let ra := length (shape a) in
  let rb := length (shape b) in
  if (ra =? 0) || (rb =? 0) then Raise MatmulError
  else
    let sa := if ra =? 1 then 1 :: shape a else shape a in
    let sb := if rb =? 1 then shape b ++ [1] else shape b in
    let ba := firstn (length sa - 2) sa in
    let bb := firstn (length sb - 2) sb in
    match skipn (length sa - 2) sa, skipn (length sb - 2) sb with
    | [n; m], [m'; k] =>
        if m =? m' then
          match broadcast_shapes ba bb with
          | Some bs =>
              let r := length bs in
              let da := expand (pad r ba ++ [n; m]) (bs ++ [n; m]) (data a) in
              let db := expand (pad r bb ++ [m; k]) (bs ++ [m; k]) (data b) in
              let out := concat (zip_with (mm n m k)
                                          (chunks (n * m) (numel bs) da)
                                          (chunks (m * k) (numel bs) db)) in
              Ok (mk_nd (bs ++ (if ra =? 1 then [] else [n])
                            ++ (if rb =? 1 then [] else [k])) out)
          | None => Raise MatmulError
          end
        else Raise MatmulError
    | _, _ => Raise MatmulError
    end.

(** *** numpy operations *)

(** [np.concatenate(l)] along the first axis *)
Definition np_concatenate {A : Type} (l : list (ndarray A)) : result (ndarray A) :=
  match l with
  | [] => Raise ConcatError
  | a :: _ =>
      match shape a with
      | [] => Raise ConcatError
      | _ :: rest =>
          if forallb (fun b => match shape b with
                               | _ :: r => shape_eqb r rest
                               | [] => false
                               end) l
          then Ok (mk_nd (list_sum (map (fun b => hd 0 (shape b)) l) :: rest)
                         (flat_map (@data A) l))
          else Raise ConcatError
      end
  end.

(** [np.stack(l)] along a new first axis *)
Definition np_stack {A : Type} (l : list (ndarray A)) : result (ndarray A) :=
  match l with
  | [] => Raise StackError
  | a :: _ =>
      if forallb (fun b => shape_eqb (shape b) (shape a)) l
      then Ok (mk_nd (length l :: shape a) (flat_map (@data A) l))
      else Raise StackError
  end.

(** [np.arange(n)] *)
Definition np_arange (n : nat) : ndarray nat := mk_nd [n] (seq 0 n).

(** [a[i]] for an integer [i] *)
Definition nd_get {A : Type} (a : ndarray A) (i : nat) : result (ndarray A) :=
  match shape a with
  | d :: rest =>
      if i <? d
      then Ok (mk_nd rest (nth i (chunks (numel rest) d (data a)) []))
      else Raise IndexError
  | [] => Raise IndexError
  end.

(** [a[idx]] for an integer array [idx] *)
Definition np_take {A : Type} (a : ndarray A) (idx : ndarray nat) : result (ndarray A) :=
  match shape a with
  | d :: rest =>
      if forallb (fun i => i <? d) (data idx)
      then Ok (mk_nd (shape idx ++ rest)
                     (flat_map (fun i => nth i (chunks (numel rest) d (data a)) [])
                               (data idx)))
      else Raise IndexError
  | [] => Raise IndexError
  end.

(** [a[i, j]] for two integer arrays, which are broadcast together *)
Definition np_index2 {A : Type} (a : ndarray A) (i j : ndarray nat) : result (ndarray A) :=
  match shape a with
  | d0 :: d1 :: rest =>
      match broadcast_shapes (shape i) (shape j) with
      | Some bs =>
          let r := length bs in
          let ii := expand (pad r (shape i)) bs (data i) in
          let jj := expand (pad r (shape j)) bs (data j) in
          if forallb (fun x => x <? d0) ii && forallb (fun y => y <? d1) jj
          then Ok (mk_nd (bs ++ rest)
                         (concat (zip_with
                                    (fun x y => nth (x * d1 + y)
                                                    (chunks (numel rest) (d0 * d1) (data a)) [])
                                    ii jj)))
          else Raise IndexError
      | None => Raise IndexError
      end
  | _ => Raise IndexError
  end.

(** The buffer of [a.T] (all axes reversed) for an array of shape [s]. *)
Fixpoint T_data {A : Type} (s : list nat) (d : list A) : list A :=
  match s with
  | [] => d
  | n :: rest =>
      concat (columns (numel rest) (map (T_data rest) (chunks (numel rest) n d)))
  end.

(** [a.T] *)
Definition nd_T {A : Type} (a : ndarray A) : ndarray A :=
  mk_nd (rev (shape a)) (T_data (shape a) (data a)).

(** [x, y = a]: iteration over the first axis must yield two items. *)
Definition unpack2 {A : Type} (a : ndarray A) : result (ndarray A * ndarray A) :=
  match shape a with
  | d :: _ =>
      if d =? 2
      then rbind (nd_get a 0) (fun x => rbind (nd_get a 1) (fun y => Ok (x, y)))
      else Raise UnpackError
  | [] => Raise UnpackError
  end.

(** ** binary64 scalars and [np.linspace] *)
Module F64.

Definition prec : Z := 53.
Definition emax : Z := 1024.

Definition t : Type := spec_float.

Definition add : t -> t -> t := SFadd prec emax.
Definition sub : t -> t -> t := SFsub prec emax.
Definition mul : t -> t -> t := SFmul prec emax.
Definition div : t -> t -> t := SFdiv prec emax.

Definition of_Z (z : Z) : t := binary_normalize prec emax z 0 false.

(** [.astype(np.float32)]: rounding to the nearest binary32 number. *)
Definition to_f32 (x : t) : F32.t :=
  match x with
  | S754_finite s m e => binary_round F32.prec F32.emax s m e
  | _ => x
  end.

End F64.

(** [np.linspace(start, stop, num, endpoint=False)] *)
Definition linspace (start stop : Z) (num : nat) : list F64.t :=
  let step := F64.div (F64.sub (F64.of_Z stop) (F64.of_Z start))
                      (F64.of_Z (Z.of_nat num)) in
  map (fun i => F64.add (F64.mul (F64.of_Z (Z.of_nat i)) step) (F64.of_Z start))
      (seq 0 num).

(** The coordinate lattice of [VAE.__init__] and [BNBOpt.__init__]: the
    [ny*nx] points [(x, y, 0)] of the centred plane, [y] varying slowest. *)
Definition make_lattice (ny nx : nat) : tensor :=
  let xs := linspace (-1) 1 nx in
  let ys := linspace (-1) 1 ny in
  mk_nd [ny * nx; 3]
        (map F64.to_f32
             (flat_map (fun y => flat_map (fun x => [x; y; F64.of_Z 0]) xs) ys)).

(** ** The torch runtime and the render model *)

(** An [nn.Module]: its mode flag and its parameters and buffers. *)
Record module (P : Type) : Type := mk_module { training : bool; weights : P }.
Arguments mk_module {P} training weights.

(** One call of the render model: the mode the module was in, whether
    gradients were being tracked, and the coordinates it was queried at. *)
Record call : Type := mk_call { call_training : bool; call_grad : bool; call_input : tensor }.

(** The mutable state the code runs in: the render model, the autograd
    switch, the random generator and the log of render calls (oldest first). *)
Record world (P G : Type) : Type := mk_world {
  model : module P;
  grad_enabled : bool;
  rng : G;
  calls : list call
}.
Arguments mk_world {P G} model grad_enabled rng calls.

Section Models.

(** The parameters of the render model and its forward pass. *)
Variable P : Type.
Variable forward : module P -> tensor -> tensor * module P.

(** The random generator: [randn g n] draws [n] standard-normal variates. *)
Variable G : Type.
Variable randn : G -> nat -> list F32.t * G.

(** The modules [lie_tools] and [so3_grid] are not part of the sources.
    Their functions are taken as parameters, each acting on one element of a
    batch: the conversion of a quaternion (4 numbers) to a rotation matrix
    (9 numbers, row-major), the exponential map of a tangent vector
    (3 numbers), the base grid of quaternions, the cell of a base-grid index
    and the neighbours of a cell at a refinement level. *)
Variable quat_to_rot : list F32.t -> list F32.t.
Variable expmap_row : list F32.t -> list F32.t.
Variable base_SO3_grid : tensor.
Variable base_indr : nat -> Z * Z.
Variable get_neighbor : tensor -> ndarray Z -> ndarray Z -> nat -> tensor * ndarray Z.

Definition W : Type := world P G.

(** Computations that read and write the runtime and may raise. *)
Definition M (A : Type) : Type := W -> result A * W.

Definition ret {A : Type} (a : A) : M A := fun w => (Ok a, w).

Definition bind {A B : Type} (m : M A) (f : A -> M B) : M B :=
  fun w =>
    match m w with
    | (Ok a, w') => f a w'
    | (Raise e, w') => (Raise e, w')
    end.

Definition lift {A : Type} (r : result A) : M A := fun w => (r, w).

Notation "x <- m ;; k" := (bind m (fun x => k))
  (at level 61, m at next level, right associativity).
Notation "' pat <- m ;; k" := (bind m (fun x => match x with pat => k end))
  (at level 61, pat pattern, m at next level, right associativity).

(** [self.model(x)] *)
Definition call_model (x : tensor) : M tensor :=
  fun w =>
    let (y, m') := forward (model w) x in
    (Ok y, mk_world m' (grad_enabled w) (rng w)
                    (calls w ++ [mk_call (training (model w)) (grad_enabled w) x])).

(** [assert not self.model.training] *)
Definition assert_not_training : M unit :=
  fun w => if training (model w) then (Raise AssertionError, w) else (Ok tt, w).

(** [with torch.no_grad(): body]: gradient tracking is switched off for
    the body and restored on exit, also when the body raises. *)
Definition no_grad {A : Type} (body : M A) : M A :=
  fun w =>
    let (r, w') := body (mk_world (model w) false (rng w) (calls w)) in
    (r, mk_world (model w') (grad_enabled w) (rng w') (calls w')).

(** [torch.randn_like(t)] *)
Definition randn_like (t : tensor) : M tensor :=
  fun w =>
    let (l, g') := randn (rng w) (numel (shape t)) in
    (Ok (mk_nd (shape t) l), mk_world (model w) (grad_enabled w) g' (calls w)).

(** [lie_tools.quaternions_to_SO3]: [... x 4] to [... x 3 x 3]. *)
Definition quaternions_to_SO3 (q : tensor) : result tensor :=
  match rev (shape q) with
  | 4 :: lead =>
      Ok (mk_nd (rev lead ++ [3; 3])
                (flat_map quat_to_rot (chunks 4 (numel lead) (data q))))
  | _ => Raise ConvertError
  end.

(** [lie_tools.expmap]: [... x 3] to [... x 3 x 3]. *)
Definition expmap (v : tensor) : result tensor :=
  match rev (shape v) with
  | 3 :: lead =>
      Ok (mk_nd (rev lead ++ [3; 3])
                (flat_map expmap_row (chunks 3 (numel lead) (data v))))
  | _ => Raise ConvertError
  end.

(** [so3_grid.get_base_indr], applied to an array of base-grid indices. *)
Definition get_base_indr (ind : ndarray nat) : ndarray Z * ndarray Z :=
  (nd_map (fun i => fst (base_indr i)) ind, nd_map (fun i => snd (base_indr i)) ind).

(** *** class [BNBOpt] *)

Record BNBOpt : Type := mk_BNBOpt {
  ny : nat;
  nx : nat;
  lattice : tensor;
  base_quat : tensor;
  base_rot : tensor
}.

(** [BNBOpt.__init__] *)
Definition BNBOpt_init (ny nx : nat) : result BNBOpt :=
  rbind (quaternions_to_SO3 base_SO3_grid) (fun rot =>
  Ok (mk_BNBOpt ny nx (make_lattice ny nx) base_SO3_grid rot)).

(** [BNBOpt.eval_base_grid] *)
Definition eval_base_grid (self : BNBOpt) (images : tensor) : M (ndarray nat) :=
  x <- lift (matmul (lattice self) (base_rot self)) ;;
  y_hat <- call_model x ;;
  y_hat <- lift (view_infer [ny self; nx self] y_hat) ;;
  y_hat <- lift (unsqueeze 0 y_hat) ;;
  images <- lift (rbind (unsqueeze 0 images) transpose01) ;;
  d <- lift (tsub images y_hat) ;;
  err <- lift (sum_last2 (tpow2 d)) ;;
  mini <- lift (argmin_dim1 err) ;;
  ret mini.

(** [BNBOpt.eval_incremental_grid] *)
Definition eval_incremental_grid (self : BNBOpt) (images : tensor)
    (quat_for_image : list tensor) : M (ndarray nat) :=
  rot <- lift (rbind (np_concatenate quat_for_image) quaternions_to_SO3) ;;
  x <- lift (matmul (lattice self) rot) ;;
  y_hat <- call_model x ;;
  y_hat <- lift (view_infer [8; ny self; nx self] y_hat) ;;
  images <- lift (unsqueeze 1 images) ;;
  d <- lift (tsub images y_hat) ;;
  err <- lift (sum_last2 (tpow2 d)) ;;
  mini <- lift (argmin_dim1 err) ;;
  ret mini.

(** The variables the refinement loop of [opt_theta] updates. *)
Record search_state : Type := mk_state {
  min_quat : tensor;
  s2i : ndarray Z;
  s1i : ndarray Z
}.

(** One iteration of the loop of [opt_theta], at level [iter_]. *)
Definition refine_step (self : BNBOpt) (images : tensor) (B : nat)
    (st : search_state) (iter_ : nat) : M search_state :=
  neighbors <- lift (rmap (fun i =>
                       rbind (nd_get (min_quat st) i) (fun q =>
                       rbind (nd_get (s2i st) i) (fun a =>
                       rbind (nd_get (s1i st) i) (fun b =>
                       Ok (get_neighbor q a b iter_)))))
                     (seq 0 B)) ;;
  let quat := map fst neighbors in
  let ind := map snd neighbors in
  min_i <- eval_incremental_grid self images quat ;;
  min_ind <- lift (rbind (np_stack ind) (fun a => np_index2 a (np_arange B) min_i)) ;;
  '(s2i', s1i') <- lift (unpack2 (nd_T min_ind)) ;;
  min_quat' <- lift (rbind (np_stack quat) (fun a => np_index2 a (np_arange B) min_i)) ;;
  ret (mk_state min_quat' s2i' s1i').

Fixpoint refine_loop (self : BNBOpt) (images : tensor) (B : nat)
    (st : search_state) (levels : list nat) : M search_state :=
  match levels with
  | [] => ret st
  | iter_ :: rest =>
      st' <- refine_step self images B st iter_ ;;
      refine_loop self images B st' rest
  end.

(** [BNBOpt.opt_theta] *)
Definition opt_theta (self : BNBOpt) (images : tensor) (niter : nat) : M tensor :=
  B <- lift (size0 images) ;;
  _ <- assert_not_training ;;
  st <- no_grad (
    min_i <- eval_base_grid self images ;;
    min_quat <- lift (np_take (base_quat self) min_i) ;;
    let (s2i, s1i) := get_base_indr min_i in
    refine_loop self images B (mk_state min_quat s2i s1i) (seq 1 niter)) ;;
  lift (quaternions_to_SO3 (min_quat st)).

(** *** class [SO3reparameterize] *)

(** [SO3reparameterize.sampleSO3] *)
Definition sampleSO3 (z_mu z_std : tensor) : M (tensor * tensor) :=
  eps <- randn_like z_std ;;
  w_eps <- lift (tmul eps z_std) ;;
  rot_eps <- lift (expmap w_eps) ;;
  rot_sampled <- lift (matmul z_mu rot_eps) ;;
  ret (rot_sampled, w_eps).

(** *** class [VAE] *)

(** The encoder followed by [SO3reparameterize.forward]:
    [self.latent_encoder(self.encoder(img))]. *)
Variable latent_encoder : tensor -> tensor * tensor.

Record VAE : Type := mk_VAE {
  vae_ny : nat;
  vae_nx : nat;
  vae_lattice : tensor
}.

(** The lattice part of [VAE.__init__]. *)
Definition VAE_init (nx ny : nat) : VAE := mk_VAE ny nx (make_lattice ny nx).

(** [VAE.forward]; the decoder is the render model. *)
Definition VAE_forward (self : VAE) (img : tensor) : M (tensor * tensor * tensor * tensor) :=
  let (z_mu, z_std) := latent_encoder img in
  '(rot, w_eps) <- sampleSO3 z_mu z_std ;;
  x <- lift (matmul (vae_lattice self) rot) ;;
  y_hat <- call_model x ;;
  y_hat <- lift (view_infer [vae_ny self; vae_nx self] y_hat) ;;
  ret (y_hat, z_mu, z_std, w_eps).

End Models.

(** ** Notions used to state the properties *)

(** torch's order on scores: a NaN is below every number. *)
Definition tle (a b : F32.t) : bool := F32.is_nan a || F32.leb a b.

(** Index [i] holds a score that is minimal in [l] for torch's order, and
    no earlier index holds a score as small. *)
Definition first_min (l : list F32.t) (i : nat) : Prop :=
  exists x, nth_error l i = Some x
    /\ (forall j y, nth_error l j = Some y -> tle x y = true)
    /\ (forall j y, j < i -> nth_error l j = Some y -> tle y x = false).

(** The size two compatible dimensions broadcast to. *)
Definition bdim (d1 d2 : nat) : nat :=
  if d1 =? d2 then d1 else if d1 =? 1 then d2 else d1.

(** Two sizes are compatible: equal, or one of them is 1. *)
Definition bcompat (d1 d2 : nat) : bool := (d1 =? d2) || (d1 =? 1) || (d2 =? 1).

(** The [a] rows of an array seen along a first dimension broadcast to [R]. *)
Definition bcast {A : Type} (a R : nat) (rows : list A) : list A :=
  if a =? R then rows else concat (repeat rows R).

(** The squared error of an image against one rendered candidate: the
    sum of the squared pixel-wise differences. *)
Definition sq_err (img rend : list F32.t) : F32.t :=
  F32.sum (map F32.pow2 (zip_with F32.sub img rend)).

(** The arg-min of the errors of an image against a list of candidates. *)
Definition select (img : list F32.t) (rends : list (list F32.t)) : nat :=
  argmin (map (sq_err img) rends).

(** The element-wise differences of an image with each of its candidates. *)
Definition sub_rows (img : list F32.t) (rends : list (list F32.t)) : list F32.t :=
  flat_map (fun r => zip_with F32.sub img r) rends.

(** ** The search, as the specification words it *)

Definition scalar {A : Type} (x : A) : ndarray A := mk_nd [] [x].

(** The state the search keeps for one image: its best quaternion and
    the grid cell [(s2, s1)] of that quaternion. *)
Record image_state : Type := mk_image_state {
  best_quat : list F32.t;
  best_s2 : Z;
  best_s1 : Z
}.

(** The candidate quaternions of a list of arrays of [k] candidates. *)
Definition candidates_of (k : nat) (quats : list tensor) : list (list F32.t) :=
  flat_map (fun q => chunks 4 k (data q)) quats.

(** The arrays [opt_theta] keeps for a list of image states. *)
Definition state_arrays (sts : list image_state) : search_state :=
  mk_state (mk_nd [length sts; 4] (flat_map best_quat sts))
           (mk_nd [length sts] (map best_s2 sts))
           (mk_nd [length sts] (map best_s1 sts)).

(** The best quaternion of an image has four components. *)
Definition quat4 (st : image_state) : Prop := length (best_quat st) = 4.

Section SearchSpec.

Variables (P G : Type).
Variable forward : module P -> tensor -> tensor * module P.
Variable quat_to_rot : list F32.t -> list F32.t.
Variable base_indr : nat -> Z * Z.
Variable get_neighbor : tensor -> ndarray Z -> ndarray Z -> nat -> tensor * ndarray Z.

(** The runtime after one render query at coordinates [x]. *)
Definition after_call (w : W P G) (x : tensor) : W P G :=
  mk_world (snd (forward (model w) x)) (grad_enabled w) (rng w)
           (calls w ++ [mk_call (training (model w)) (grad_enabled w) x]).

(** The lattice transformed by each rotation of a batch (a rotation is the
    9 numbers of its matrix): the coordinates of one render query. *)
Definition coordinates (self : BNBOpt) (rots : list (list F32.t)) : tensor :=
  let n := ny self * nx self in
  mk_nd [length rots; n; 3] (flat_map (mm n 3 3 (data (lattice self))) rots).

(** One batched query of the render model: an image per rotation. *)
Definition render_batch (self : BNBOpt) (m : module P) (rots : list (list F32.t))
    : list (list F32.t) :=
  chunks (ny self * nx self) (length rots)
         (data (fst (forward m (coordinates self rots)))).

(** The rotations and quaternions of the base grid. *)
Definition base_rots (self : BNBOpt) : list (list F32.t) :=
  chunks 9 (hd 0 (shape (base_quat self))) (data (base_rot self)).

Definition base_quats (self : BNBOpt) : list (list F32.t) :=
  chunks 4 (hd 0 (shape (base_quat self))) (data (base_quat self)).

(** Base stage: every base rotation is rendered in one query and every
    image takes the base candidate of least error. *)
Definition base_stage (self : BNBOpt) (m : module P) (imgs : list (list F32.t))
    : list image_state :=
  let renders := render_batch self m (base_rots self) in
  map (fun img =>
         let i := select img renders in
         mk_image_state (nth i (base_quats self) [])
                        (fst (base_indr i)) (snd (base_indr i)))
      imgs.

(** The neighbours of the current best cell of an image at a level. *)
Definition neighbors_of (level : nat) (st : image_state) : tensor * ndarray Z :=
  get_neighbor (mk_nd [4] (best_quat st)) (scalar (best_s2 st)) (scalar (best_s1 st)) level.

(** The [j]-th candidate of a neighbour set, as an image state. *)
Definition candidate (nb : tensor * ndarray Z) (j : nat) : image_state :=
  let cell := nth j (chunks 2 8 (data (snd nb))) [] in
  mk_image_state (nth j (chunks 4 8 (data (fst nb))) [])
                 (nth 0 cell 0%Z) (nth 1 cell 0%Z).

(** Refinement stage at a level: the 8 neighbours of every image are
    rendered in one query, and every image moves to the one of its own 8
    candidates that has the least error. *)
Definition refine_stage (self : BNBOpt) (m : module P) (imgs : list (list F32.t))
    (sts : list image_state) (level : nat) : list image_state :=
  let nbrs := map (neighbors_of level) sts in
  let cands := flat_map (fun nb => chunks 4 8 (data (fst nb))) nbrs in
  let renders := render_batch self m (map quat_to_rot cands) in
  zip_with (fun img_rends nb => candidate nb (select (fst img_rends) (snd img_rends)))
           (combine imgs (chunks 8 (length imgs) renders)) nbrs.

(** The search: the base stage, then the levels [1..niter] in order, then
    the rotation matrix of each image's final quaternion. *)
Definition search_spec (self : BNBOpt) (m : module P) (imgs : list (list F32.t))
    (niter : nat) : list (list F32.t) :=
  map (fun st => quat_to_rot (best_quat st))
      (fold_left (refine_stage self m imgs) (seq 1 niter) (base_stage self m imgs)).

Variable self : BNBOpt.

(** The part of [opt_theta] that runs under [torch.no_grad()]. *)
Definition search_body (images : tensor) (B niter : nat) : M P G search_state :=
  bind (eval_base_grid forward self images) (fun min_i =>
  bind (lift (np_take (base_quat self) min_i)) (fun min_quat =>
    let (s2i, s1i) := get_base_indr base_indr min_i in
    refine_loop forward quat_to_rot get_neighbor self images B
                (mk_state min_quat s2i s1i) (seq 1 niter))).

(** The base stage, up to the initial state of the loop. *)
Definition base_part (images : tensor) : M P G search_state :=
  bind (eval_base_grid forward self images) (fun min_i =>
  bind (lift (np_take (base_quat self) min_i)) (fun min_quat =>
    let (s2i, s1i) := get_base_indr base_indr min_i in
    ret (mk_state min_quat s2i s1i))).

(** What the search assumes of its collaborators: a non-empty base grid of
    quaternions, conversions that yield 3x3 matrices, neighbour sets of
    exactly 8 candidates with their cells, and a render model that returns
    one intensity per queried coordinate and, in inference mode, does not
    write its own state. *)
Record search_env (base_SO3_grid : tensor) (Q ny nx : nat) : Prop := mk_search_env {
  env_grid_shape : shape base_SO3_grid = [Q; 4];
  env_grid_data : length (data base_SO3_grid) = Q * 4;
  env_grid_nonempty : 1 <= Q;
  env_ny : 1 <= ny;
  env_nx : 1 <= nx;
  env_rot : forall q, length q = 4 -> length (quat_to_rot q) = 9;
  env_neighbor : forall q a b level, length q = 4 ->
    let nb := get_neighbor (mk_nd [4] q) (scalar a) (scalar b) level in
    shape (fst nb) = [8; 4] /\ length (data (fst nb)) = 32
    /\ shape (snd nb) = [8; 2] /\ length (data (snd nb)) = 16;
  env_render : forall m lead d, length d = numel lead * 3 ->
    let y := fst (forward m (mk_nd (lead ++ [3]) d)) in
    numel (shape y) = numel lead /\ length (data y) = numel lead;
  env_inference : forall m x, training m = false -> snd (forward m x) = m
}.

End SearchSpec.

(** What a refinement step assumes of its collaborators other than the
    neighbour enumeration: the fields of [search_env] but [env_neighbor]. *)
Record stage_env (P : Type) (forward : module P -> tensor -> tensor * module P)
    (quat_to_rot : list F32.t -> list F32.t)
    (base_SO3_grid : tensor) (Q ny nx : nat) : Prop := mk_stage_env {
  stage_grid_shape : shape base_SO3_grid = [Q; 4];
  stage_grid_data : length (data base_SO3_grid) = Q * 4;
  stage_grid_nonempty : 1 <= Q;
  stage_ny : 1 <= ny;
  stage_nx : 1 <= nx;
  stage_rot : forall q, length q = 4 -> length (quat_to_rot q) = 9;
  stage_render : forall m lead d, length d = numel lead * 3 ->
    let y := fst (forward m (mk_nd (lead ++ [3]) d)) in
    numel (shape y) = numel lead /\ length (data y) = numel lead;
  stage_inference : forall m x, training m = false -> snd (forward m x) = m
}.

(** The neighbour enumeration returns [k] candidates per image, with
    their cells. *)
Definition neighbor_sets
    (get_neighbor : tensor -> ndarray Z -> ndarray Z -> nat -> tensor * ndarray Z)
    (k : nat) : Prop :=
  forall q a b level, length q = 4 ->
    let nb := get_neighbor (mk_nd [4] q) (scalar a) (scalar b) level in
    shape (fst nb) = [k; 4] /\ length (data (fst nb)) = k * 4
    /\ shape (snd nb) = [k; 2] /\ length (data (snd nb)) = k * 2.

(** A render model that maps each coordinate to an intensity on its own,
    as a network of layers acting on the last dimension does. *)
Definition pointwise {P : Type} (f : P -> list F32.t -> F32.t) (m : module P) (x : tensor)
    : tensor * module P :=
  let lead := removelast (shape x) in
  (mk_nd (lead ++ [1]) (map (f (weights m)) (chunks 3 (numel lead) (data x))), m).

(** [torch.cat((a, b))] along the first dimension. *)
Definition tcat {A : Type} (a b : ndarray A) : ndarray A :=
  mk_nd (hd 0 (shape a) + hd 0 (shape b) :: tl (shape a)) (data a ++ data b).

(** ** A small instance

    A 2x2 lattice, a base grid of four quaternions, a render model that
    is an affine function of the coordinate, and neighbour sets of eight
    candidates: enough to run the search by computation. *)
Module Example.

Definition floats (l : list Z) : list F32.t := map F32.of_Z l.

(** The render model [x + 2 y + 4 z]. *)
Definition decoder (_ : unit) (v : list F32.t) : F32.t :=
  match v with
  | [x; y; z] => F32.add (F32.add x (F32.mul (F32.of_Z 2) y)) (F32.mul (F32.of_Z 4) z)
  | _ => F32.nan
  end.

Definition forward : module unit -> tensor -> tensor * module unit := pointwise decoder.

(** The render model [z / z], which is NaN on the plane [z = 0]. *)
Definition nan_decoder (_ : unit) (v : list F32.t) : F32.t :=
  match v with
  | [x; y; z] => SFdiv F32.prec F32.emax z z
  | _ => F32.nan
  end.

Definition nan_forward : module unit -> tensor -> tensor * module unit :=
  pointwise nan_decoder.

(** The usual matrix of a quaternion [(r, i, j, k)], without normalisation. *)
Definition quat_to_rot (q : list F32.t) : list F32.t :=
  let r := nth 0 q F32.zero in
  let i := nth 1 q F32.zero in
  let j := nth 2 q F32.zero in
  let k := nth 3 q F32.zero in
  let two := F32.of_Z 2 in
  let m := F32.mul in
  let a := F32.add in
  let s := F32.sub in
  [ s F32.one (m two (a (m j j) (m k k))); m two (s (m i j) (m k r)); m two (a (m i k) (m j r));
    m two (a (m i j) (m k r)); s F32.one (m two (a (m i i) (m k k))); m two (s (m j k) (m i r));
    m two (s (m i k) (m j r)); m two (a (m j k) (m i r)); s F32.one (m two (a (m i i) (m j j))) ].

(** A first-order exponential map: the identity plus the cross-product
    matrix of the tangent vector. *)
Definition expmap_row (w : list F32.t) : list F32.t :=
  let x := nth 0 w F32.zero in
  let y := nth 1 w F32.zero in
  let z := nth 2 w F32.zero in
  if F32.is_zero x && F32.is_zero y && F32.is_zero z
  then [F32.one; F32.zero; F32.zero; F32.zero; F32.one; F32.zero; F32.zero; F32.zero; F32.one]
  else [F32.one; SFopp z; y; z; F32.one; SFopp x; SFopp y; x; F32.one].

Definition base_SO3_grid : tensor :=
  mk_nd [4; 4] (floats [1; 0; 0; 0;  0; 1; 0; 0;  0; 0; 1; 0;  0; 0; 0; 1]%Z).

(** Two quaternions: the first tilts the plane, the second is the identity. *)
Definition tilted_grid : tensor :=
  mk_nd [2; 4] (floats [1; 1; 0; 0;  1; 0; 0; 0]%Z).

Definition base_indr (i : nat) : Z * Z := (Z.of_nat (i / 2), Z.of_nat (i mod 2)).

(** Eight neighbours: the quaternion with one component moved by one,
    in the cells [(2 s2 + j / 4, 2 s1 + j mod 4)]. *)
Definition get_neighbor (q : tensor) (a b : ndarray Z) (level : nat) : tensor * ndarray Z :=
  (mk_nd [8; 4]
         (flat_map (fun j =>
                      map (fun i => F32.add (nth i (data q) F32.zero)
                                            (F32.of_Z (if i =? j mod 4 then 1 else 0)))
                          (seq 0 4))
                   (seq 0 8)),
   mk_nd [8; 2]
         (flat_map (fun j => [(2 * hd 0 (data a) + Z.of_nat (j / 4))%Z;
                              (2 * hd 0 (data b) + Z.of_nat (j mod 4))%Z])
                   (seq 0 8))).

(** Neighbour sets of [k] candidates instead of eight. *)
Definition get_neighbor_k (k : nat) (q : tensor) (a b : ndarray Z) (level : nat)
    : tensor * ndarray Z :=
  (mk_nd [k; 4]
         (flat_map (fun j =>
                      map (fun i => F32.add (nth i (data q) F32.zero)
                                            (F32.of_Z (if i =? j mod 4 then 1 else 0)))
                          (seq 0 4))
                   (seq 0 k)),
   mk_nd [k; 2]
         (flat_map (fun j => [(2 * hd 0 (data a) + Z.of_nat (j / 4))%Z;
                              (2 * hd 0 (data b) + Z.of_nat (j mod 4))%Z])
                   (seq 0 k))).

(** A generator that cycles through -1, 0, 1. *)
Definition randn (g : nat) (n : nat) : list F32.t * nat :=
  (map (fun i => F32.of_Z (Z.of_nat ((g + i) mod 3) - 1)) (seq 0 n), g + n).

(** The runtime before the search: inference mode, gradients enabled. *)
Definition w0 : world unit nat := mk_world (mk_module false tt) true 0 [].

(** The same runtime with the render model left in training mode. *)
Definition w_training : world unit nat := mk_world (mk_module true tt) true 0 [].

Definition self : BNBOpt :=
  mk_BNBOpt 2 2 (make_lattice 2 2) base_SO3_grid
            (mk_nd [4; 3; 3] (flat_map quat_to_rot (chunks 4 4 (data base_SO3_grid)))).

(** Two 2x2 images. *)
Definition images : tensor := mk_nd [2; 2; 2] (floats [1; 2; 3; 4;  0; 1; 0; 1]%Z).

Definition image1 : tensor := mk_nd [1; 2; 2] (floats [1; 2; 3; 4]%Z).
Definition image2 : tensor := mk_nd [1; 2; 2] (floats [0; 1; 0; 1]%Z).

Definition no_images : tensor := mk_nd [0; 2; 2] [].

(** One 3x3 image, which does not fit the 2x2 lattice. *)
Definition wide_image : tensor := mk_nd [1; 3; 3] (floats [1; 2; 3; 4; 5; 6; 7; 8; 9]%Z).

(** The candidate arrays of a refinement stage for the two images. *)
Definition candidates : list tensor :=
  [fst (get_neighbor (mk_nd [4] (floats [1; 0; 0; 0]%Z)) (scalar 0%Z) (scalar 0%Z) 1);
   fst (get_neighbor (mk_nd [4] (floats [0; 1; 0; 0]%Z)) (scalar 0%Z) (scalar 1%Z) 1)].

(** Sixteen candidates per image instead of eight. *)
Definition candidates16 : list tensor :=
  [fst (get_neighbor_k 16 (mk_nd [4] (floats [1; 0; 0; 0]%Z)) (scalar 0%Z) (scalar 0%Z) 1);
   fst (get_neighbor_k 16 (mk_nd [4] (floats [0; 1; 0; 0]%Z)) (scalar 0%Z) (scalar 1%Z) 1)].

(** The states of the two images after the base stage. *)
Definition base_states : list image_state :=
  [mk_image_state (floats [0; 0; 0; 1]%Z) 1 1;
   mk_image_state (floats [0; 1; 0; 0]%Z) 0 1].

(** A 1x1 lattice with the two-quaternion grid. *)
Definition tilted_self : BNBOpt :=
  mk_BNBOpt 1 1 (make_lattice 1 1) tilted_grid
            (mk_nd [2; 3; 3] (flat_map quat_to_rot (chunks 4 2 (data tilted_grid)))).

(** A mean "rotation" batch of one matrix and a zero standard deviation. *)
Definition z_mu : tensor := mk_nd [1; 3; 3] (floats [1; 2; 3; 4; 5; 6; 7; 8; 9]%Z).
Definition z_std0 : tensor := mk_nd [1; 3] (floats [0; 0; 0]%Z).

(** One 1x1 image of intensity 1. *)
Definition unit_image : tensor := mk_nd [1; 1; 1] [F32.one].

End Example.

(** ** Selection policies *)

(** The errors of an image against a list of rendered candidates. *)
Definition scores (img : list F32.t) (rends : list (list F32.t)) : list F32.t :=
  map (sq_err img) rends.

(** If some candidate has a NaN error, the selected one is the first
    candidate whose error is NaN. *)
Definition selects_first_nan (errs : list F32.t) (i : nat) : Prop :=
  (exists j, nth_error errs j = Some F32.nan) ->
  nth_error errs i = Some F32.nan
  /\ forall j, j < i -> nth_error errs j <> Some F32.nan.

(** A candidate of infinite error is selected only if every candidate has
    an infinite error. *)
Definition inf_only_if_all (errs : list F32.t) (i : nat) : Prop :=
  nth_error errs i = Some F32.inf ->
  forall j y, nth_error errs j = Some y -> y = F32.inf.

(** The image a coordinate-wise render model produces for one rotation. *)
Definition render_one {P : Type} (f : P -> list F32.t -> F32.t) (self : BNBOpt)
    (m : module P) (rot : list F32.t) : list F32.t :=
  let n := ny self * nx self in
  map (f (weights m)) (chunks 3 n (mm n 3 3 (data (lattice self)) rot)).

(** The 3x3 identity matrix, row-major. *)
Definition identity3 : list F32.t :=
  [F32.one; F32.zero; F32.zero; F32.zero; F32.one; F32.zero; F32.zero; F32.zero; F32.one].

(** Two binary32 numbers are equal as numbers ([==]). *)
Definition same_value (a b : F32.t) : Prop := F32.eqb a b = true.

(** ** Rotating the lattice *)

(** The points of the lattice, three coordinates each. *)
Definition lattice_points (ny nx : nat) : list (list F32.t) :=
  chunks 3 (ny * nx) (data (make_lattice ny nx)).

(** The transpose of a 3x3 matrix, row-major. *)
Definition transpose3 (R : list F32.t) : list F32.t := concat (columns 3 (chunks 3 3 R)).

(** The product [R v] of a 3x3 matrix and a column vector. *)
Definition matvec (R v : list F32.t) : list F32.t :=
  map (fun row => dot row v) (chunks 3 3 R).

(** The lattice with every point [v] replaced by [R^T v], for each
    rotation [R] of a batch. *)
Definition rotated_lattice (ny nx N : nat) (rot : list F32.t) : tensor :=
  mk_nd [N; ny * nx; 3]
        (flat_map (fun R => flat_map (matvec (transpose3 R)) (lattice_points ny nx))
                  (chunks 9 N rot)).

(** The coordinates of the render queries logged in a runtime. *)
Definition queries {P G : Type} (w : world P G) : list tensor := map call_input (calls w).

(** ** Inference mode *)

(** The render calls [cs] were all made in inference mode, without
    gradient tracking. *)
Definition inference_calls (cs : list call) : Prop :=
  Forall (fun c => call_training c = false /\ call_grad c = false) cs.

(** A computation that, started in inference mode with gradients off,
    leaves the render model, the autograd switch and the generator as they
    were, and only adds inference-mode render calls to the log. *)
Definition inference_frame {P G A : Type} (c : M P G A) : Prop :=
  forall w, training (model w) = false -> grad_enabled w = false ->
    model (snd (c w)) = model w
    /\ grad_enabled (snd (c w)) = false
    /\ rng (snd (c w)) = rng w
    /\ exists cs, calls (snd (c w)) = calls w ++ cs /\ inference_calls cs.

(** ** Networks of layers

    The decoder and the encoders of [models.py] are [nn.Sequential]
    stacks of [nn.Linear], [ResidLinear] and activation layers. *)

(** [a + b] *)
Definition tadd (a b : tensor) : result tensor := broadcast2 F32.add a b.

(** An [nn.Linear]: a weight of [out_features] rows of [in_features]
    numbers (row-major) and a bias of [out_features] numbers. *)
Record Linear : Type := mk_Linear {
  in_features : nat;
  out_features : nat;
  weight : list F32.t;
  bias : list F32.t
}.

(** The parameters have the sizes the layer announces. *)
Definition Linear_ok (nin nout : nat) (l : Linear) : Prop :=
  in_features l = nin /\ out_features l = nout
  /\ length (weight l) = nout * nin /\ length (bias l) = nout.

(** One row of [x @ weight.T + bias]. *)
Definition linear_row (l : Linear) (row : list F32.t) : list F32.t :=
  zip_with (fun w b => F32.add (dot row w) b)
           (chunks (in_features l) (out_features l) (weight l)) (bias l).

(** [nn.Linear.forward]: the layer acts on the last dimension, which must
    have [in_features] entries. *)
Definition Linear_forward (l : Linear) (x : tensor) : result tensor :=
  match rev (shape x) with
  | d :: lead =>
      if d =? in_features l
      then Ok (mk_nd (rev lead ++ [out_features l])
                     (flat_map (linear_row l) (chunks d (numel lead) (data x))))
      else Raise MatmulError
  | [] => Raise MatmulError
  end.

(** [ResidLinear.forward]: [self.linear(x) + x] *)
Definition ResidLinear_forward (l : Linear) (x : tensor) : result tensor :=
  rbind (Linear_forward l x) (fun z => tadd z x).

Inductive layer : Type :=
| Linear_layer (l : Linear)
| ResidLinear_layer (l : Linear)
| Activation_layer.

(** An encoder: [self.in_dim] and [self.main]. *)
Record Encoder : Type := mk_Encoder { in_dim : nat; main : list layer }.

Section Networks.

(** The activation class the constructors are given is instantiated once
    per layer; it acts element by element ([nn.ReLU] in [VAE.__init__]). *)
Variable activation : F32.t -> F32.t.

(** The constructor [nn.Linear(nin, nout)] draws the initial parameters
    from the random generator, which it advances. *)
Variable G : Type.
Variable nn_Linear : nat -> nat -> G -> Linear * G.

Definition layer_forward (ly : layer) (x : tensor) : result tensor :=
  match ly with
  | Linear_layer l => Linear_forward l x
  | ResidLinear_layer l => ResidLinear_forward l x
  | Activation_layer => Ok (nd_map activation x)
  end.

(** [nn.Sequential.forward] *)
Fixpoint Sequential_forward (layers : list layer) (x : tensor) : result tensor :=
  match layers with
  | [] => Ok x
  | ly :: rest => rbind (layer_forward ly x) (Sequential_forward rest)
  end.

(** [for n in range(k): layers.append(mk(hidden_dim, hidden_dim));
    layers.append(activation())] *)
Fixpoint hidden_layers (mk : Linear -> layer) (hidden_dim k : nat) (g : G)
    : list layer * G :=
  match k with
  | O => ([], g)
  | S k' =>
      let (l, g1) := nn_Linear hidden_dim hidden_dim g in
      let (rest, g2) := hidden_layers mk hidden_dim k' g1 in
      (mk l :: Activation_layer :: rest, g2)
  end.

(** [ResidLinearDecoder.__init__]; [range(nlayers)] is empty for a
    negative [nlayers]. *)
Definition ResidLinearDecoder_init (nlayers : Z) (hidden_dim : nat) (g : G)
    : list layer * G :=
  let (first, g0) := nn_Linear 3 hidden_dim g in
  let (hidden, g1) := hidden_layers ResidLinear_layer hidden_dim (Z.to_nat nlayers) g0 in
  let (last, g2) := nn_Linear hidden_dim 1 g1 in
  ([Linear_layer first; Activation_layer] ++ hidden ++ [Linear_layer last], g2).

(** [ResidLinearDecoder.forward] *)
Definition ResidLinearDecoder_forward (main : list layer) (x : tensor) : result tensor :=
  Sequential_forward main x.

(** [ResidLinearEncoder.__init__] *)
Definition ResidLinearEncoder_init (in_dim : nat) (nlayers : Z) (hidden_dim out_dim : nat)
    (g : G) : Encoder * G :=
  let (first, g0) := nn_Linear in_dim hidden_dim g in
  let (hidden, g1) :=
    hidden_layers ResidLinear_layer hidden_dim (Z.to_nat (nlayers - 1)) g0 in
  let (last, g2) := nn_Linear hidden_dim out_dim g1 in
  (mk_Encoder in_dim ([Linear_layer first; Activation_layer] ++ hidden
                      ++ [ResidLinear_layer last; Activation_layer]), g2).

(** [ResidLinearEncoder.forward]: [self.main(img.view(-1, self.in_dim))] *)
Definition ResidLinearEncoder_forward (self : Encoder) (img : tensor) : result tensor :=
  rbind (view_infer [in_dim self] img) (Sequential_forward (main self)).

(** [MLPEncoder.__init__] *)
Definition MLPEncoder_init (in_dim : nat) (nlayers : Z) (hidden_dim out_dim : nat)
    (g : G) : Encoder * G :=
  let (first, g0) := nn_Linear in_dim hidden_dim g in
  let (hidden, g1) := hidden_layers Linear_layer hidden_dim (Z.to_nat (nlayers - 1)) g0 in
  let (last, g2) := nn_Linear hidden_dim out_dim g1 in
  (mk_Encoder in_dim ([Linear_layer first; Activation_layer] ++ hidden
                      ++ [Linear_layer last; Activation_layer]), g2).

(** [MLPEncoder.forward]: [self.main(img.view(-1, self.in_dim))] *)
Definition MLPEncoder_forward (self : Encoder) (img : tensor) : result tensor :=
  rbind (view_infer [in_dim self] img) (Sequential_forward (main self)).

(** The intensity the decoder gives one coordinate on its own. *)
Definition decoder_value (main : list layer) (v : list F32.t) : F32.t :=
  match ResidLinearDecoder_forward main (mk_nd [3] v) with
  | Ok y => hd F32.nan (data y)
  | Raise _ => F32.nan
  end.

(** The constructor [nn.Linear] returns parameters of the sizes asked for. *)
Definition nn_Linear_sizes : Prop :=
  forall nin nout g, Linear_ok nin nout (fst (nn_Linear nin nout g)).

(** What a layer does to one row of its input. *)
Definition layer_row (ly : layer) (row : list F32.t) : list F32.t :=
  match ly with
  | Linear_layer l => linear_row l row
  | ResidLinear_layer l => zip_with F32.add (linear_row l row) row
  | Activation_layer => map activation row
  end.

(** What a stack of layers does to one row. *)
Definition net_row (layers : list layer) (row : list F32.t) : list F32.t :=
  fold_left (fun r ly => layer_row ly r) layers row.

(** A stack whose layers fit one another: it takes rows of [din] entries
    to rows of [dout] entries. *)
Inductive fits : nat -> list layer -> nat -> Prop :=
| fits_nil d : fits d [] d
| fits_linear d d' l rest e :
    Linear_ok d d' l -> fits d' rest e -> fits d (Linear_layer l :: rest) e
| fits_resid d l rest e :
    Linear_ok d d l -> fits d rest e -> fits d (ResidLinear_layer l :: rest) e
| fits_activation d rest e :
    fits d rest e -> fits d (Activation_layer :: rest) e.

End Networks.

(** A small instance: a rectifier as activation, and a constructor that
    fills the parameters with -1, 0, 1 in turn from a counter. *)
Module Nets.

Definition relu (x : F32.t) : F32.t := if F32.ltb x F32.zero then F32.zero else x.

Definition nn_Linear (nin nout : nat) (g : nat) : Linear * nat :=
  (mk_Linear nin nout
             (map (fun i => F32.of_Z (Z.of_nat ((g + i) mod 3) - 1)) (seq 0 (nout * nin)))
             (map (fun i => F32.of_Z (Z.of_nat ((g + i) mod 2))) (seq 0 nout)),
   g + nout * nin + nout).

(** Two vectors put side by side, over a row of zeros. *)
Definition s2s2_rot (u v : list F64.t) : list F64.t :=
  u ++ v ++ [F64.of_Z 0; F64.of_Z 0; F64.of_Z 0].

(** The first-order approximation [1 + x] of the exponential. *)
Definition exp32 (x : F32.t) : F32.t := F32.add F32.one x.

(** Three coordinates, as a [1 x 3 x 3] batch. *)
Definition coords : tensor := mk_nd [1; 3; 3] (Example.floats [1; 0; 0; 0; 1; 0; 1; 1; 0]%Z).

End Nets.

(** ** The latent encoder: [SO3reparameterize.forward] *)

(** [z[:, a:b]], or [z[:, a:]] when [b] is [None]: a slice of the second
    dimension. *)
Definition slice_cols {A : Type} (a : nat) (b : option nat) (z : ndarray A)
    : result (ndarray A) :=
  match shape z with
  | d0 :: d1 :: rest =>
      let r := numel rest in
      let hi := match b with Some n => Nat.min n d1 | None => d1 end in
      Ok (mk_nd (d0 :: (hi - a) :: rest)
                (flat_map (fun blk => skipn (a * r) (firstn (hi * r) blk))
                          (chunks (d1 * r) d0 (data z))))
  | _ => Raise IndexError
  end.

(** [t.double()]: every binary32 number is a binary64 number. *)
Definition to_double (t : tensor) : ndarray F64.t := t.

(** The binary32 number [0.5]. *)
Definition half : F32.t := S754_finite false 8388608 (-24).

Record SO3reparameterize : Type := mk_SO3reparameterize {
  s2s2map : Linear;
  so3var : Linear
}.

Section LatentEncoder.

Variable G : Type.
Variable nn_Linear : nat -> nat -> G -> Linear * G.

(** [lie_tools.s2s2_to_SO3] of two arguments, on one element of a batch:
    two vectors of 3 binary64 numbers to the 9 numbers of a matrix.  The
    module is not part of the sources. *)
Variable s2s2_rot : list F64.t -> list F64.t -> list F64.t.

(** [torch.exp] on one binary32 number. *)
Variable exp32 : F32.t -> F32.t.

(** [lie_tools.s2s2_to_SO3(v1, v2)]: two [... x 3] to [... x 3 x 3]. *)
Definition s2s2_to_SO3_pair (v1 v2 : ndarray F64.t) : result (ndarray F64.t) :=
  match rev (shape v1), rev (shape v2) with
  | 3 :: lead1, 3 :: lead2 =>
      if shape_eqb lead1 lead2
      then Ok (mk_nd (rev lead1 ++ [3; 3])
                     (concat (zip_with s2s2_rot (chunks 3 (numel lead1) (data v1))
                                                (chunks 3 (numel lead1) (data v2)))))
      else Raise ConvertError
  | _, _ => Raise ConvertError
  end.

(** [SO3reparameterize.__init__] *)
Definition SO3reparameterize_init (input_dims : nat) (g : G) : SO3reparameterize * G :=
  let (m, g1) := nn_Linear input_dims 6 g in
  let (v, g2) := nn_Linear input_dims 3 g1 in
  (mk_SO3reparameterize m v, g2).

(** [SO3reparameterize.forward] *)
Definition SO3reparameterize_forward (self : SO3reparameterize) (x : tensor)
    : result (tensor * tensor) :=
  rbind (Linear_forward (s2s2map self) x) (fun z =>
  let z := to_double z in
  rbind (Linear_forward (so3var self) x) (fun logvar =>
  rbind (slice_cols 0 (Some 3) z) (fun v1 =>
  rbind (slice_cols 3 None z) (fun v2 =>
  rbind (s2s2_to_SO3_pair v1 v2) (fun r =>
  let z_mu := nd_map F64.to_f32 r in
  let z_std := nd_map (fun v => exp32 (F32.mul half v)) logvar in
  Ok (z_mu, z_std)))))).

End LatentEncoder.

(** ** The error of a candidate *)

(** A binary32 number of positive sign, or NaN. *)
Definition unsigned32 (x : F32.t) : bool :=
  match x with
  | S754_nan => true
  | S754_zero s | S754_infinity s | S754_finite s _ _ => negb s
  end.

(** An error that is zero, or NaN. *)
Definition zero_or_nan (e : F32.t) : Prop :=
  F32.is_nan e = true \/ F32.eqb e F32.zero = true.

(** ** Pose storage: [lib-python/pose.py]

    [PoseTracker] keeps the rotations and translations of the particles,
    reads them from pickle files and writes them back. *)

From Stdlib Require String.
Import String.StringSyntax.
Delimit Scope string_scope with string.

(** *** numpy arrays and pickled objects *)

Inductive dtype : Type := float32 | float64.

(** A floating-point numpy array: its dtype and its entries. *)
Record nparray : Type := mk_np { np_dtype : dtype; np_array : ndarray spec_float }.

(** What a pose pickle holds: an array, or a tuple of arrays. *)
Inductive pyobj : Type :=
| PyArray (a : nparray)
| PyTuple (items : list nparray).

(** [torch.tensor(a).float()] *)
Definition to_float32 (a : nparray) : tensor :=
  match np_dtype a with
  | float32 => np_array a
  | float64 => nd_map F64.to_f32 (np_array a)
  end.

(** [t.cpu().numpy()] of a float32 tensor *)
Definition to_numpy (t : tensor) : nparray := mk_np float32 t.

(** [tscale * a] for a Python float [tscale]: the product is computed in
    the dtype of the array. *)
Definition np_scale (tscale : F64.t) (a : nparray) : nparray :=
  match np_dtype a with
  | float32 => mk_np float32 (nd_map (F32.mul (F64.to_f32 tscale)) (np_array a))
  | float64 => mk_np float64 (nd_map (F64.mul tscale) (np_array a))
  end.

(** An index into a dimension of size [d]; a negative index counts from
    the end. *)
Definition wrap_index (d : nat) (i : Z) : option nat :=
  if (0 <=? i)%Z && (i <? Z.of_nat d)%Z then Some (Z.to_nat i)
  else if (- Z.of_nat d <=? i)%Z && (i <? 0)%Z then Some (Z.to_nat (i + Z.of_nat d))
  else None.

Fixpoint wrap_indices (d : nat) (l : list Z) : option (list nat) :=
  match l with
  | [] => Some []
  | i :: l' =>
      match wrap_index d i, wrap_indices d l' with
      | Some n, Some ns => Some (n :: ns)
      | _, _ => None
      end
  end.

(** [a[ind]] for an integer index array or tensor [ind]. *)
Definition take_rows {A : Type} (a : ndarray A) (ind : ndarray Z) : result (ndarray A) :=
  match shape a with
  | d :: rest =>
      match wrap_indices d (data ind) with
      | Some ns =>
          Ok (mk_nd (shape ind ++ rest)
                    (flat_map (fun i => nth i (chunks (numel rest) d (data a)) []) ns))
      | None => Raise IndexError
      end
  | [] => Raise IndexError
  end.

(** [dst.copy_(src)]: [src] is broadcast to the shape of [dst]. *)
Definition copy_ (dst src : tensor) : result tensor :=
  match broadcast_shapes (shape src) (shape dst) with
  | Some s =>
      if shape_eqb s (shape dst)
      then Ok (mk_nd s (expand (pad (length s) (shape src)) s (data src)))
      else Raise BroadcastError
  | None => Raise BroadcastError
  end.

(** [nn.Embedding.forward]: the rows of the weight at the indices, which
    may not be negative. *)
Definition Embedding_forward (weight : tensor) (ind : ndarray Z) : result tensor :=
  match shape weight with
  | [n; d] =>
      if forallb (fun i => (0 <=? i)%Z && (i <? Z.of_nat n)%Z) (data ind)
      then Ok (mk_nd (shape ind ++ [d])
                     (flat_map (fun i => nth (Z.to_nat i) (chunks d n (data weight)) [])
                               (data ind)))
      else Raise IndexError
  | _ => Raise IndexError
  end.

(** *** Exceptions and effects of the storage layer *)

(** The exceptions of [pose.py]: those of the array operations, and the
    Python exceptions of its own control flow. *)
Inductive error : Type :=
| Op (e : exn)
| RuntimeError
| TypeError
| AttributeError.

Inductive outcome (A : Type) : Type :=
| Return (a : A)
| Throw (e : error).
Arguments Return {A} a.
Arguments Throw {A} e.

Definition of_result {A : Type} (r : result A) : outcome A :=
  match r with
  | Ok a => Return a
  | Raise e => Throw (Op e)
  end.

Definition obind {A B : Type} (o : outcome A) (f : A -> outcome B) : outcome B :=
  match o with
  | Return a => f a
  | Throw e => Throw e
  end.

(** [len(o)] *)
Definition py_len (o : pyobj) : outcome nat :=
  match o with
  | PyArray a =>
      match shape (np_array a) with
      | d :: _ => Return d
      | [] => Throw TypeError
      end
  | PyTuple items => Return (length items)
  end.

(** [o[ind]] for an index array [ind] *)
Definition py_getitem (o : pyobj) (ind : ndarray Z) : outcome pyobj :=
  match o with
  | PyArray a =>
      obind (of_result (take_rows (np_array a) ind))
            (fun b => Return (PyArray (mk_np (np_dtype a) b)))
  | PyTuple _ => Throw TypeError
  end.

(** [assert o.shape == s]; the array is returned. *)
Definition assert_shape (o : pyobj) (s : list nat) : outcome nparray :=
  match o with
  | PyArray a =>
      if shape_eqb (shape (np_array a)) s then Return a else Throw (Op AssertionError)
  | PyTuple _ => Throw AttributeError
  end.

(** [tscale * o] *)
Definition py_scale (tscale : F64.t) (o : pyobj) : outcome pyobj :=
  match o with
  | PyArray a => Return (PyArray (np_scale tscale a))
  | PyTuple _ => Throw TypeError
  end.

(** The state the storage layer runs in: the random generator (the
    constructor of an embedding draws its initial weights), the files, and
    the messages printed so far. *)
Record io_state (G FS : Type) : Type := mk_io {
  io_rng : G;
  io_files : FS;
  io_log : list String.string
}.
Arguments mk_io {G FS} io_rng io_files io_log.

(** *** class [PoseTracker] *)

Record PoseTracker : Type := mk_PoseTracker {
  rots : tensor;
  trans : option tensor;
  use_trans : bool;
  emb_type : option String.string;
  rots_emb : option tensor;
  trans_emb : option tensor
}.

Section Pose.

Variable G : Type.
Variable randn : G -> nat -> list F32.t * G.

(** The files.  [utils.load_pkl] and [utils.log] are not part of the
    sources: the first is taken as a parameter, as is the effect of
    [pickle.dump(obj, open(path, 'wb'))]; the second is taken to print its
    message. *)
Variable FS : Type.
Variable load_pkl : String.string -> FS -> outcome pyobj.
Variable pickle_dump : pyobj -> String.string -> FS -> outcome FS.

(** The conversions of [lie_tools], which is not part of the sources, each
    acting on one element of a batch: a rotation matrix (9 numbers) to its
    6 numbers on S2xS2 and back, and to a quaternion and back. *)
Variable rot_to_s2s2 : list F32.t -> list F32.t.
Variable s2s2_to_rot : list F32.t -> list F32.t.
Variable rot_to_quat : list F32.t -> list F32.t.
Variable quat_to_rot : list F32.t -> list F32.t.

Definition IO (A : Type) : Type := io_state G FS -> outcome A * io_state G FS.

Definition io_ret {A : Type} (a : A) : IO A := fun s => (Return a, s).

Definition io_bind {A B : Type} (m : IO A) (f : A -> IO B) : IO B :=
  fun s =>
    match m s with
    | (Return a, s') => f a s'
    | (Throw e, s') => (Throw e, s')
    end.

Definition io_lift {A : Type} (o : outcome A) : IO A := fun s => (o, s).

Notation "x <- m ;; k" := (io_bind m (fun x => k))
  (at level 61, m at next level, right associativity).

(** [assert b] *)
Definition io_assert (b : bool) : IO unit :=
  io_lift (if b then Return tt else Throw (Op AssertionError)).

(** [log(msg)] *)
Definition log (msg : String.string) : IO unit :=
  fun s => (Return tt, mk_io (io_rng s) (io_files s) (io_log s ++ [msg])).

(** [utils.load_pkl(path)] *)
Definition read_pkl (path : String.string) : IO pyobj :=
  fun s => (load_pkl path (io_files s), s).

(** [pickle.dump(obj, open(path, 'wb'))] *)
Definition write_pkl (obj : pyobj) (path : String.string) : IO unit :=
  fun s =>
    match pickle_dump obj path (io_files s) with
    | Return fs => (Return tt, mk_io (io_rng s) fs (io_log s))
    | Throw e => (Throw e, s)
    end.

(** [nn.Embedding(n, d, sparse=True)]: the weight is drawn from the
    standard normal distribution. *)
Definition Embedding (n d : nat) : IO tensor :=
  fun s =>
    let (l, g') := randn (io_rng s) (n * d) in
    (Return (mk_nd [n; d] l), mk_io g' (io_files s) (io_log s)).

(** [lie_tools.SO3_to_s2s2]: [... x 3 x 3] to [... x 6]. *)
Definition SO3_to_s2s2 (r : tensor) : result tensor :=
  match rev (shape r) with
  | 3 :: 3 :: lead =>
      Ok (mk_nd (rev lead ++ [6]) (flat_map rot_to_s2s2 (chunks 9 (numel lead) (data r))))
  | _ => Raise ConvertError
  end.

(** [lie_tools.SO3_to_quaternions]: [... x 3 x 3] to [... x 4]. *)
Definition SO3_to_quaternions (r : tensor) : result tensor :=
  match rev (shape r) with
  | 3 :: 3 :: lead =>
      Ok (mk_nd (rev lead ++ [4]) (flat_map rot_to_quat (chunks 9 (numel lead) (data r))))
  | _ => Raise ConvertError
  end.

(** [lie_tools.s2s2_to_SO3] of one argument: [... x 6] to [... x 3 x 3]. *)
Definition s2s2_to_SO3 (v : tensor) : result tensor :=
  match rev (shape v) with
  | 6 :: lead =>
      Ok (mk_nd (rev lead ++ [3; 3]) (flat_map s2s2_to_rot (chunks 6 (numel lead) (data v))))
  | _ => Raise ConvertError
  end.

(** An embedding of [n] rows of [d] numbers holding [src]:
    [emb = nn.Embedding(n, d, sparse=True); emb.weight.data.copy_(src)]. *)
Definition Embedding_of (n d : nat) (src : result tensor) : IO tensor :=
  w <- Embedding n d ;;
  io_lift (of_result (rbind src (copy_ w))).

(** [PoseTracker.__init__] *)
Definition PoseTracker_init (rots_np : nparray) (trans_np : option nparray)
    (emb_type : option String.string) : IO PoseTracker :=
  let rots := to_float32 rots_np in
  let trans := option_map to_float32 trans_np in
  let use_trans := match trans_np with Some _ => true | None => false end in
  match emb_type with
  | None => io_ret (mk_PoseTracker rots trans use_trans None None None)
  | Some e =>
      trans_emb <- match trans with
                   | Some t =>
                       n <- io_lift (of_result (size0 t)) ;;
                       w <- Embedding_of n 2 (Ok t) ;;
                       io_ret (Some w)
                   | None => io_ret None
                   end ;;
      rots_emb <- (if String.eqb e "s2s2"%string then
                     n <- io_lift (of_result (size0 rots)) ;;
                     Embedding_of n 6 (SO3_to_s2s2 rots)
                   else if String.eqb e "quat"%string then
                     n <- io_lift (of_result (size0 rots)) ;;
                     Embedding_of n 4 (SO3_to_quaternions rots)
                   else io_lift (Throw RuntimeError)) ;;
      io_ret (mk_PoseTracker rots trans use_trans (Some e) (Some rots_emb) trans_emb)
  end.

(** [if ind is not None: if len(a) > Nimg: a = a[ind]] *)
Definition filter_poses (a : pyobj) (Nimg : nat) (ind : option (ndarray Z)) : outcome pyobj :=
  match ind with
  | Some i => obind (py_len a) (fun n => if Nimg <? n then py_getitem a i else Return a)
  | None => Return a
  end.

(** [PoseTracker.load] *)
Definition PoseTracker_load (infile : list String.string) (Nimg : nat)
    (emb_type : option String.string) (tscale : F64.t) (ind : option (ndarray Z))
    : IO PoseTracker :=
  _ <- io_assert ((length infile =? 1) || (length infile =? 2)) ;;
  poses <- match infile with
           | [f0; f1] =>
               p0 <- read_pkl f0 ;;
               p1 <- read_pkl f1 ;;
               io_ret [p0; p1]
           | f0 :: _ =>
               p <- read_pkl f0 ;;
               io_ret (match p with
                       | PyTuple items => map PyArray items
                       | PyArray _ => [p]
                       end)
           | [] => io_lift (Throw (Op AssertionError))
           end ;;
  rots <- io_lift (match poses with
                   | p :: _ => Return p
                   | [] => Throw (Op IndexError)
                   end) ;;
  rots <- io_lift (filter_poses rots Nimg ind) ;;
  rots <- io_lift (assert_shape rots [Nimg; 3; 3]) ;;
  trans <- match poses with
           | [_; p1] =>
               t <- io_lift (py_scale tscale p1) ;;
               t <- io_lift (filter_poses t Nimg ind) ;;
               t <- io_lift (assert_shape t [Nimg; 2]) ;;
               io_ret (Some t)
           | _ =>
               _ <- log "WARNING: No translations provided"%string ;;
               io_ret None
           end ;;
  PoseTracker_init rots trans emb_type.

(** An attribute that must hold a value: using [None] raises [e]. *)
Definition need {A : Type} (e : error) (a : option A) : outcome A :=
  match a with
  | Some x => Return x
  | None => Throw e
  end.

(** [PoseTracker.save] *)
Definition PoseTracker_save (self : PoseTracker) (out_pkl : String.string) : IO unit :=
  r <- io_lift (match emb_type self with
                | Some e =>
                    if String.eqb e "quat"%string then
                      obind (need AttributeError (rots_emb self)) (fun w =>
                      of_result (quaternions_to_SO3 quat_to_rot w))
                    else if String.eqb e "s2s2"%string then
                      obind (need AttributeError (rots_emb self)) (fun w =>
                      of_result (s2s2_to_SO3 w))
                    else Return (rots self)
                | None => Return (rots self)
                end) ;;
  poses <- io_lift (if use_trans self then
                      obind (match emb_type self with
                             | None => need AttributeError (trans self)
                             | Some _ => need AttributeError (trans_emb self)
                             end) (fun t => Return [to_numpy r; to_numpy t])
                    else Return [to_numpy r]) ;;
  write_pkl (PyTuple poses) out_pkl.

(** [PoseTracker.get_pose] *)
Definition PoseTracker_get_pose (self : PoseTracker) (ind : ndarray Z)
    : outcome (tensor * option tensor) :=
  match emb_type self with
  | None =>
      obind (of_result (take_rows (rots self) ind)) (fun rot =>
      obind (if use_trans self then
               obind (need TypeError (trans self)) (fun t =>
               obind (of_result (take_rows t ind)) (fun tran => Return (Some tran)))
             else Return None) (fun tran =>
      Return (rot, tran)))
  | Some e =>
      obind (if String.eqb e "s2s2"%string then
               obind (need AttributeError (rots_emb self)) (fun w =>
               of_result (rbind (Embedding_forward w ind) s2s2_to_SO3))
             else if String.eqb e "quat"%string then
               obind (need AttributeError (rots_emb self)) (fun w =>
               of_result (rbind (Embedding_forward w ind) (quaternions_to_SO3 quat_to_rot)))
             else Throw RuntimeError) (fun rot =>
      obind (if use_trans self then
               obind (need TypeError (trans_emb self)) (fun w =>
               obind (of_result (Embedding_forward w ind)) (fun tran => Return (Some tran)))
             else Return None) (fun tran =>
      Return (rot, tran)))
  end.

End Pose.

(** A binary32 datum in canonical form (any zero, infinity or NaN, or a
    finite number with a normalised mantissa). *)
Definition canonical32 (x : F32.t) : Prop := valid_binary F32.prec F32.emax x = true.

(** The entries of a tuple of poses: the rotations, then the translations
    if there are any. *)
Definition pose_items (rot : tensor) (tran : option tensor) : list nparray :=
  to_numpy rot :: match tran with Some t => [to_numpy t] | None => [] end.

(** The shapes a tracker of [N] poses keeps: [N] rotation matrices, [N]
    translations if any, and for the embedding types [N] rows of 6
    ([s2s2]) or 4 ([quat]) numbers, with [N] rows of 2 for the
    translations. *)
Definition tracker_shapes (N : nat) (self : PoseTracker) : Prop :=
  shape (rots self) = [N; 3; 3]
  /\ match trans self with
     | Some t => use_trans self = true /\ shape t = [N; 2]
     | None => use_trans self = false
     end
  /\ match emb_type self with
     | None => rots_emb self = None /\ trans_emb self = None
     | Some e =>
         (exists w, rots_emb self = Some w
            /\ ((e = "s2s2"%string /\ shape w = [N; 6])
                \/ (e = "quat"%string /\ shape w = [N; 4])))
         /\ match trans self with
            | Some _ => exists w, trans_emb self = Some w /\ shape w = [N; 2]
            | None => trans_emb self = None
            end
     end.

(** A computation of the storage layer whose outcome depends on the files
    only, not on the state of the random generator nor on what was printed
    before, and which leaves the files as they are. *)
Definition generator_free {G FS A : Type} (m : IO G FS A) : Prop :=
  forall s1 s2, io_files s1 = io_files s2 ->
    fst (m s1) = fst (m s2) /\ io_files (snd (m s1)) = io_files s1.

(** The tensors a tracker holds. *)
Definition tensors_of (self : PoseTracker) : list tensor :=
  let some (o : option tensor) := match o with Some t => [t] | None => [] end in
  rots self :: some (trans self) ++ some (rots_emb self) ++ some (trans_emb self).

(** The indices [0, ..., N-1], as an index tensor. *)
Definition all_indices (N : nat) : ndarray Z := mk_nd [N] (map Z.of_nat (seq 0 N)).

(** A small instance: files as an association list, two poses stored in
    binary64. *)
Module Poses.

Definition FS : Type := list (String.string * pyobj).

Fixpoint lookup (path : String.string) (fs : FS) : option pyobj :=
  match fs with
  | [] => None
  | (p, o) :: fs' => if String.eqb p path then Some o else lookup path fs'
  end.

(** Reading a file that does not exist fails. *)
Definition load_pkl (path : String.string) (fs : FS) : outcome pyobj :=
  match lookup path fs with
  | Some o => Return o
  | None => Throw (Op IndexError)
  end.

Definition pickle_dump (obj : pyobj) (path : String.string) (fs : FS) : outcome FS :=
  Return ((path, obj) :: fs).

(** The first two rows and columns of a rotation matrix, and back with a
    last row of zeros. *)
Definition rot_to_s2s2 (r : list F32.t) : list F32.t := firstn 6 r.
Definition s2s2_to_rot (v : list F32.t) : list F32.t := v ++ [F32.zero; F32.zero; F32.zero].

(** The diagonal of a rotation matrix after a one. *)
Definition rot_to_quat (r : list F32.t) : list F32.t :=
  [F32.one; nth 0 r F32.zero; nth 4 r F32.zero; nth 8 r F32.zero].

Definition floats64 (l : list Z) : list F64.t := map F64.of_Z l.

(** Two rotations (the identity and a quarter turn) and two translations. *)
Definition rots_np : nparray :=
  mk_np float64 (mk_nd [2; 3; 3]
    (floats64 [1; 0; 0;  0; 1; 0;  0; 0; 1;   0; -1; 0;  1; 0; 0;  0; 0; 1]%Z)).

Definition trans_np : nparray :=
  mk_np float64 (mk_nd [2; 2] (floats64 [3; 4;  -5; 6]%Z)).

Definition s0 : io_state nat FS := mk_io 0 [] [].

(** The two poses stored in one file, as a tuple. *)
Definition stored : io_state nat FS :=
  mk_io 0 [("poses.pkl"%string, PyTuple [rots_np; trans_np])] [].

(** The two poses stored in two files. *)
Definition stored2 : io_state nat FS :=
  mk_io 0 [("rot.pkl"%string, PyArray rots_np); ("trans.pkl"%string, PyArray trans_np)] [].

(** The same poses under both layouts. *)
Definition layouts : io_state nat FS :=
  mk_io 0 [("poses.pkl"%string, PyTuple [rots_np; trans_np]);
           ("rot.pkl"%string, PyArray rots_np); ("trans.pkl"%string, PyArray trans_np)] [].

End Poses.
(** * Properties *)

(** ** Buffers *)

Section BufferFacts.
Context {A : Type}.
Implicit Types (l d : list A) (ls : list (list A)).

Lemma chunks_length n k l : length (chunks n k l) = k.
Proof. revert l; induction k; intros; simpl; auto. Qed.

Lemma chunks_concat n ls rest :
  Forall (fun c => length c = n) ls ->
  chunks n (length ls) (concat ls ++ rest) = ls.
Proof.
  induction 1 as [|c ls Hc _ IH]; simpl; auto.
  rewrite <- app_assoc, firstn_app, skipn_app, Hc, Nat.sub_diag.
  rewrite firstn_all2, skipn_all2 by lia. simpl.
  rewrite app_nil_r, IH. reflexivity.
Qed.

Lemma chunks_concat' n k ls :
  Forall (fun c => length c = n) ls -> k = length ls ->
  chunks n k (concat ls) = ls.
Proof.
  intros H ->. rewrite <- (app_nil_r (concat ls)). now apply chunks_concat.
Qed.

Lemma concat_chunks n k l : length l = k * n -> concat (chunks n k l) = l.
Proof.
  revert l; induction k; intros l H; simpl in *.
  - destruct l; simpl in *; auto; discriminate.
  - rewrite IHk, firstn_skipn; auto. rewrite length_skipn. lia.
Qed.

Lemma chunks_Forall n k l :
  length l = k * n -> Forall (fun c => length c = n) (chunks n k l).
Proof.
  revert l; induction k; intros l H; simpl in *; constructor.
  - rewrite length_firstn. lia.
  - apply IHk. rewrite length_skipn. lia.
Qed.

Lemma concat_length_uniform n ls :
  Forall (fun c => length c = n) ls -> length (concat ls) = length ls * n.
Proof. induction 1; simpl; auto. rewrite length_app. lia. Qed.

Lemma chunks_app n k1 k2 l1 l2 :
  length l1 = k1 * n ->
  chunks n (k1 + k2) (l1 ++ l2) = chunks n k1 l1 ++ chunks n k2 l2.
Proof.
  revert l1; induction k1; intros l1 H; simpl in *.
  - destruct l1; simpl in *; auto; discriminate.
  - rewrite firstn_app, skipn_app.
    replace (n - length l1) with 0 by lia. simpl.
    rewrite app_nil_r, IHk1; auto. rewrite length_skipn. lia.
Qed.

Lemma chunks_one k l : length l = k -> chunks 1 k l = map (fun x => [x]) l.
Proof.
  revert l; induction k; intros [|x l] H; simpl in *; try discriminate; auto.
  f_equal. apply IHk. lia.
Qed.

Lemma chunks_single n l : length l = n -> chunks n 1 l = [l].
Proof. intros <-. simpl. now rewrite firstn_all. Qed.

Lemma chunks_nil n k : chunks n k (@nil A) = repeat [] k.
Proof.
  induction k; simpl; auto. rewrite firstn_nil, skipn_nil. now f_equal.
Qed.

Lemma pick_nth j l x : nth_error l j = Some x -> pick j l = [x].
Proof.
  unfold pick. revert l; induction j; intros [|y l] H; simpl in *; try discriminate.
  - now inversion H.
  - now apply IHj.
Qed.

Lemma pick_default j l (dflt : A) : j < length l -> pick j l = [nth j l dflt].
Proof.
  intros H. apply pick_nth. now apply nth_error_nth'.
Qed.

Lemma flat_map_pick_seq l : flat_map (fun j => pick j l) (seq 0 (length l)) = l.
Proof.
  induction l as [|x l IH]; simpl; auto.
  unfold pick at 1. simpl. f_equal.
  rewrite <- seq_shift, flat_map_concat_map, map_map, <- flat_map_concat_map. exact IH.
Qed.

Lemma columns_one (rows : list (list A)) :
  Forall (fun r => length r = 1) rows -> columns 1 rows = [concat rows].
Proof.
  intros H. unfold columns. simpl. f_equal.
  induction H as [|r rows Hr _ IH]; simpl; auto.
  rewrite IH. f_equal. destruct r as [|x [|y r]]; simpl in *; try discriminate.
  reflexivity.
Qed.

Lemma zip_with_length {B C : Type} (f : A -> B -> C) l (l2 : list B) :
  length (zip_with f l l2) = Nat.min (length l) (length l2).
Proof.
  revert l2; induction l; intros [|b l2]; simpl; auto.
Qed.

Lemma zip_with_app {B C : Type} (f : A -> B -> C) l1 l1' (l2 l2' : list B) :
  length l1 = length l2 ->
  zip_with f (l1 ++ l1') (l2 ++ l2') = zip_with f l1 l2 ++ zip_with f l1' l2'.
Proof.
  revert l2; induction l1; intros [|b l2] H; simpl in *; try discriminate; auto.
  f_equal. apply IHl1. lia.
Qed.

Lemma zip_with_repeat_l {B C : Type} (f : A -> B -> C) (a : A) (l2 : list B) :
  zip_with f (repeat a (length l2)) l2 = map (f a) l2.
Proof. induction l2; simpl; auto. now f_equal. Qed.

Lemma zip_with_same {C : Type} (f : A -> A -> C) l :
  zip_with f l l = map (fun x => f x x) l.
Proof. induction l; simpl; auto. now f_equal. Qed.

Lemma map_zip_with {B C D : Type} (g : C -> D) (f : A -> B -> C) l (l2 : list B) :
  map g (zip_with f l l2) = zip_with (fun a b => g (f a b)) l l2.
Proof. revert l2; induction l; intros [|b l2]; simpl; auto. now f_equal. Qed.

Lemma zip_with_map_l {A' B C : Type} (g : A' -> A) (f : A -> B -> C) (l : list A') (l2 : list B) :
  zip_with f (map g l) l2 = zip_with (fun a b => f (g a) b) l l2.
Proof. revert l2; induction l; intros [|b l2]; simpl; auto. now f_equal. Qed.

Lemma zip_with_map_r {B B' C : Type} (g : B' -> B) (f : A -> B -> C) l (l2 : list B') :
  zip_with f l (map g l2) = zip_with (fun a b => f a (g b)) l l2.
Proof. revert l2; induction l; intros [|b l2]; simpl; auto. now f_equal. Qed.

Lemma zip_with_ext {B C : Type} (f g : A -> B -> C) l (l2 : list B) :
  (forall a b, In a l -> In b l2 -> f a b = g a b) ->
  zip_with f l l2 = zip_with g l l2.
Proof.
  revert l2; induction l; intros [|b l2] H; simpl; auto.
  f_equal; [apply H; now left | apply IHl; intros; apply H; now right].
Qed.

Lemma concat_zip_with_uniform {B C : Type} (f : A -> B -> C) n ls (ls2 : list (list B)) :
  Forall (fun c => length c = n) ls -> Forall (fun c => length c = n) ls2 ->
  zip_with f (concat ls) (concat ls2) = concat (zip_with (zip_with f) ls ls2).
Proof.
  intros H; revert ls2; induction H as [|c ls Hc _ IH]; intros ls2 H2; simpl.
  - reflexivity.
  - destruct H2 as [|c2 ls2 Hc2 H2]; simpl.
    + destruct (c ++ concat ls); reflexivity.
    + rewrite zip_with_app by congruence. now rewrite IH.
Qed.

End BufferFacts.

Lemma numel_app s t : numel (s ++ t) = numel s * numel t.
Proof. induction s; simpl; [lia|]. rewrite IHs. lia. Qed.

Lemma shape_eqb_refl s : shape_eqb s s = true.
Proof. induction s; simpl; auto. now rewrite Nat.eqb_refl. Qed.

Lemma shape_eqb_eq s t : shape_eqb s t = true <-> s = t.
Proof.
  revert t; induction s; intros [|d t]; simpl; split; intros H;
    try discriminate; auto.
  - apply andb_prop in H as [H1 H2]. apply Nat.eqb_eq in H1.
    apply IHs in H2. congruence.
  - inversion H; subst. now rewrite Nat.eqb_refl, shape_eqb_refl.
Qed.

(** ** binary32 comparisons *)


Ltac float_cases :=
  unfold F32.leb, F32.ltb, F32.eqb, SFleb, SFltb, SFeqb, SFcompare;
  repeat match goal with
         | x : F32.t |- _ => destruct x as [[|]|[|]| |[|] ? ?]
         | x : spec_float |- _ => destruct x as [[|]|[|]| |[|] ? ?]
         end;
  simpl; try reflexivity; try discriminate; auto.

Ltac compare_cases :=
  repeat match goal with
         | |- context [Z.compare ?a ?b] =>
             let H := fresh in destruct (Z.compare_spec a b) as [H|H|H]; try subst
         | H : context [Z.compare ?a ?b] |- _ =>
             let H' := fresh in destruct (Z.compare_spec a b) as [H'|H'|H']; try subst
         | |- context [Pos.compare_cont Eq ?a ?b] =>
             change (Pos.compare_cont Eq a b) with (Pos.compare a b)
         | H : context [Pos.compare_cont Eq ?a ?b] |- _ =>
             change (Pos.compare_cont Eq a b) with (Pos.compare a b) in H
         | |- context [Pos.compare ?a ?b] =>
             let H := fresh in destruct (Pos.compare_spec a b) as [H|H|H]; try subst
         | H : context [Pos.compare ?a ?b] |- _ =>
             let H' := fresh in destruct (Pos.compare_spec a b) as [H'|H'|H']; try subst
         end;
  simpl in *; try reflexivity; try discriminate; try lia; auto.

Lemma leb_total a b :
  F32.is_nan a = false -> F32.is_nan b = false ->
  F32.leb a b = true \/ F32.leb b a = true.
Proof.
  float_cases; intros _ _; compare_cases.
Qed.

Lemma leb_trans a b c :
  F32.leb a b = true -> F32.leb b c = true -> F32.leb a c = true.
Proof.
  float_cases; intros; compare_cases.
Qed.

Lemma leb_not_nan a b : F32.leb a b = true -> F32.is_nan a = false /\ F32.is_nan b = false.
Proof. float_cases. Qed.

Lemma leb_inf a : F32.leb F32.inf a = true -> a = F32.inf.
Proof. float_cases. Qed.

Lemma tle_total a b : tle a b = true \/ tle b a = true.
Proof.
  unfold tle. destruct (F32.is_nan a) eqn:Ha; auto.
  destruct (F32.is_nan b) eqn:Hb; auto. simpl. now apply leb_total.
Qed.

Lemma tle_refl a : tle a a = true.
Proof. destruct (tle_total a a); auto. Qed.

Lemma tle_trans a b c : tle a b = true -> tle b c = true -> tle a c = true.
Proof.
  unfold tle. destruct (F32.is_nan a) eqn:Ha; auto. simpl. intros Hab Hbc.
  destruct (leb_not_nan _ _ Hab) as [_ Hb]. rewrite Hb in Hbc. simpl in Hbc.
  eapply leb_trans; eauto.
Qed.

Lemma tle_nan a : tle F32.nan a = true.
Proof. reflexivity. Qed.

Lemma tle_to_nan a : tle a F32.nan = true -> a = F32.nan.
Proof. unfold tle. float_cases. Qed.

Lemma LessOrNan_tle a b i j : i < j -> LessOrNan a b i j = tle a b.
Proof.
  intros H. apply Nat.ltb_lt in H. unfold LessOrNan, tle. rewrite H.
  destruct (F32.is_nan a) eqn:Ha.
  - now destruct (F32.is_nan b).
  - simpl. unfold F32.eqb, F32.ltb, F32.leb, SFeqb, SFltb, SFleb.
    destruct (SFcompare a b) as [[| |]|]; reflexivity.
Qed.

(** ** The arg-min selects the first minimal score *)


Lemma argmin_from_first_min l' : forall pre v i,
  first_min pre i -> nth_error pre i = Some v ->
  first_min (pre ++ l') (argmin_from (v, i) (length pre) l').
Proof.
  induction l' as [|y l' IH]; intros pre v i Hmin Hv; simpl.
  - now rewrite app_nil_r.
  - assert (Hi : i < length pre) by (apply nth_error_Some; congruence).
    rewrite LessOrNan_tle by exact Hi.
    destruct Hmin as (x & Hx & Hall & Hbefore).
    assert (x = v) by congruence. subst x.
    replace (pre ++ y :: l') with ((pre ++ [y]) ++ l') by now rewrite <- app_assoc.
    replace (S (length pre)) with (length (pre ++ [y])) by (rewrite length_app; simpl; lia).
    destruct (tle v y) eqn:Hvy.
    + apply IH.
      * exists v. split; [|split].
        -- rewrite nth_error_app1; auto.
        -- intros j z Hj. destruct (Nat.lt_ge_cases j (length pre)) as [Hlt|Hge].
           ++ rewrite nth_error_app1 in Hj by exact Hlt. eauto.
           ++ rewrite nth_error_app2 in Hj by exact Hge.
              destruct (j - length pre) as [|[|k]]; simpl in Hj; try discriminate.
              now inversion Hj; subst.
        -- intros j z Hji Hj. rewrite nth_error_app1 in Hj by lia. eauto.
      * rewrite nth_error_app1; auto.
    + assert (Hyv : tle y v = true) by (destruct (tle_total y v); congruence).
      apply IH.
      * exists y. split; [|split].
        -- rewrite nth_error_app2, Nat.sub_diag by lia. reflexivity.
        -- intros j z Hj. destruct (Nat.lt_ge_cases j (length pre)) as [Hlt|Hge].
           ++ rewrite nth_error_app1 in Hj by exact Hlt.
              eapply tle_trans; eauto.
           ++ rewrite nth_error_app2 in Hj by exact Hge.
              destruct (j - length pre) as [|[|k]]; simpl in Hj; try discriminate.
              inversion Hj; subst. apply tle_refl.
        -- intros j z Hji Hj. rewrite nth_error_app1 in Hj by exact Hji.
           destruct (tle z y) eqn:Hzy; auto.
           assert (tle v y = true) by (eapply tle_trans; eauto). congruence.
      * rewrite nth_error_app2, Nat.sub_diag by lia. reflexivity.
Qed.

Lemma argmin_first_min l : l <> [] -> first_min l (argmin l).
Proof.
  destruct l as [|v l]; [congruence|]. intros _. simpl.
  change (v :: l) with ([v] ++ l). change 1 with (length [v]).
  apply argmin_from_first_min.
  - exists v. split; [reflexivity|]. split.
    + intros [|[|j]] y Hj; simpl in Hj; try discriminate.
      inversion Hj; subst. apply tle_refl.
    + intros j y Hj. lia.
  - reflexivity.
Qed.

Lemma first_min_lt l i : first_min l i -> i < length l.
Proof. intros (x & Hx & _). apply nth_error_Some. congruence. Qed.

Lemma argmin_lt l : l <> [] -> argmin l < length l.
Proof. intros H. now apply first_min_lt, argmin_first_min. Qed.

(** ** binary32 arithmetic *)

Lemma mul_comm x y : F32.mul x y = F32.mul y x.
Proof.
  unfold F32.mul, SFmul.
  destruct x as [sx|sx| |sx mx ex], y as [sy|sy| |sy my ey];
    try reflexivity; try (now rewrite xorb_comm).
  now rewrite xorb_comm, Pos.mul_comm, Z.add_comm.
Qed.

Lemma mul_zero_r x s :
  F32.is_finite x = true -> F32.is_zero (F32.mul x (S754_zero s)) = true.
Proof. destruct x; simpl; intros; try discriminate; reflexivity. Qed.

Lemma mul_one_r x : F32.valid x = true -> F32.mul x F32.one = x.
Proof.
  unfold F32.valid. destruct x as [s|s| |s m e]; simpl; try discriminate.
  - intros _. now destruct s.
  - unfold bounded, canonical_mantissa, fexp, emin, F32.prec, F32.emax.
    intros H. apply andb_prop in H as [Hc Hb].
    apply Z.eqb_eq in Hc. apply Z.leb_le in Hb.
    unfold F32.mul, SFmul, F32.one, binary_round_aux, shr_fexp.
    rewrite xorb_false_r.
    replace (m * 8388608)%positive
      with (m~0~0~0~0~0~0~0~0~0~0~0~0~0~0~0~0~0~0~0~0~0~0~0)%positive
      by (rewrite Pos.mul_comm; reflexivity).
    cbn [Zdigits2 digits2_pos].
    unfold fexp, emin, F32.prec, F32.emax.
    match goal with
    | |- context [shr ?r ?e0 ?n] => replace n with 23%Z by lia
    end.
    cbn [shr iter_pos shr_1 shr_record_of_loc orb fst snd shr_m shr_r shr_s
         loc_of_shr_record round_nearest_even].
    cbn [Zdigits2].
    match goal with
    | |- context [shr ?r ?e0 ?n] => replace n with 0%Z by lia
    end.
    cbn [shr shr_m shr_record_of_loc].
    replace (e + -23 + 23)%Z with e by lia.
    apply Z.leb_le in Hb. unfold F32.prec, F32.emax. now rewrite Hb.
Qed.

Lemma eqb_refl_finite x : F32.is_finite x = true -> F32.eqb x x = true.
Proof. float_cases; intros; compare_cases. Qed.

(** The dot product of a row of binary32 numbers with a unit vector
    gives back the corresponding entry, up to the sign of a zero. *)
Lemma dot_unit a b c :
  F32.valid a = true -> F32.valid b = true -> F32.valid c = true ->
  F32.eqb (dot [a; b; c] [F32.one; F32.zero; F32.zero]) a = true
  /\ F32.eqb (dot [a; b; c] [F32.zero; F32.one; F32.zero]) b = true
  /\ F32.eqb (dot [a; b; c] [F32.zero; F32.zero; F32.one]) c = true.
Proof.
  intros Ha Hb Hc. unfold dot, F32.sum. cbn [zip_with fold_left].
  rewrite (mul_one_r a Ha), (mul_one_r b Hb), (mul_one_r c Hc).
  unfold F32.valid in *.
  apply andb_prop in Ha as [Ha _], Hb as [Hb _], Hc as [Hc _].
  unfold F32.add, F32.mul, F32.zero, F32.eqb, SFeqb.
  destruct a as [[|]|?| |[|] ma ea]; try discriminate;
    destruct b as [[|]|?| |[|] mb eb]; try discriminate;
    destruct c as [[|]|?| |[|] mc ec]; try discriminate;
    cbn [SFmul SFadd xorb SFcompare];
    repeat split; compare_cases.
Qed.

(** ** Broadcasting *)


Lemma numel_cons d s : numel (d :: s) = d * numel s.
Proof. reflexivity. Qed.

Lemma broadcast_rev_cons d1 d2 s1 s2 :
  broadcast_rev (d1 :: s1) (d2 :: s2) =
  match broadcast_rev s1 s2 with
  | None => None
  | Some s => if bcompat d1 d2 then Some (bdim d1 d2 :: s) else None
  end.
Proof.
  simpl. destruct (broadcast_rev s1 s2); auto. unfold bcompat, bdim.
  destruct (d1 =? d2), (d1 =? 1), (d2 =? 1); reflexivity.
Qed.

Lemma broadcast_shapes_4 a b c d a' b' c' d' :
  broadcast_shapes [a; b; c; d] [a'; b'; c'; d'] =
  if bcompat a a' && bcompat b b' && bcompat c c' && bcompat d d'
  then Some [bdim a a'; bdim b b'; bdim c c'; bdim d d']
  else None.
Proof.
  unfold broadcast_shapes. cbn [rev app].
  rewrite !broadcast_rev_cons. cbn [broadcast_rev].
  destruct (bcompat a a'), (bcompat b b'), (bcompat c c'), (bcompat d d');
    reflexivity.
Qed.

Lemma broadcast_shapes_1 a a' :
  broadcast_shapes [a] [a'] = if bcompat a a' then Some [bdim a a'] else None.
Proof.
  unfold broadcast_shapes. cbn [rev app]. rewrite broadcast_rev_cons.
  cbn [broadcast_rev]. destruct (bcompat a a'); reflexivity.
Qed.

Lemma bcompat_refl a : bcompat a a = true.
Proof. unfold bcompat. now rewrite Nat.eqb_refl. Qed.

Lemma bdim_refl a : bdim a a = a.
Proof. unfold bdim. now rewrite Nat.eqb_refl. Qed.

Lemma bdim_1_r a : bdim a 1 = a.
Proof.
  unfold bdim. destruct (a =? 1) eqn:E; auto.
Qed.

Lemma bdim_1_l a : bdim 1 a = a.
Proof.
  unfold bdim. destruct (1 =? a) eqn:E; auto. now apply Nat.eqb_eq in E.
Qed.


Lemma bcompat_1_r a : bcompat a 1 = true.
Proof. unfold bcompat. cbn [Nat.eqb]. now rewrite orb_true_r. Qed.

Lemma bcompat_1_l a : bcompat 1 a = true.
Proof. unfold bcompat. destruct (1 =? a); reflexivity. Qed.

Section ExpandFacts.
Context {A : Type}.

Lemma flat_map_id_on (f : list A -> list A) (ls : list (list A)) :
  Forall (fun c => f c = c) ls -> flat_map f ls = concat ls.
Proof. induction 1; simpl; congruence. Qed.

Lemma expand_id s : forall d : list A, length d = numel s -> expand s s d = d.
Proof.
  induction s as [|k s IH]; intros d H; simpl; auto.
  rewrite Nat.eqb_refl.
  rewrite numel_cons in H.
  rewrite flat_map_id_on.
  - now apply concat_chunks.
  - eapply Forall_impl; [|apply chunks_Forall; exact H].
    intros c Hc. now apply IH.
Qed.

Lemma bcast_length a R (rows : list A) :
  length rows = a -> a = R \/ a = 1 ->
  length (bcast a R rows) = R.
Proof.
  intros Hl H. unfold bcast. destruct (a =? R) eqn:E.
  - apply Nat.eqb_eq in E. congruence.
  - destruct H as [->| ->]; [now rewrite Nat.eqb_refl in E|].
    destruct rows as [|r [|r' rows]]; try discriminate.
    clear. induction R; simpl; auto.
Qed.

Lemma bcast_same a (rows : list A) : bcast a a rows = rows.
Proof. unfold bcast. now rewrite Nat.eqb_refl. Qed.

Lemma bcast_one R (r : A) : bcast 1 R [r] = repeat r R.
Proof.
  unfold bcast. destruct (1 =? R) eqn:E.
  - apply Nat.eqb_eq in E. now subst.
  - clear. induction R; simpl; auto. now f_equal.
Qed.

Lemma bcast_Forall (Q : A -> Prop) a R (rows : list A) :
  Forall Q rows -> Forall Q (bcast a R rows).
Proof.
  intros H. unfold bcast. destruct (a =? R); auto.
  apply Forall_concat. apply Forall_forall. intros x Hx.
  apply repeat_spec in Hx. now subst.
Qed.

(** Expansion along the first dimension: the rows are broadcast, then
    each row is expanded. *)
Lemma expand_rows a R s t (d : list A) :
  a = R \/ a = 1 -> length d = a * numel s ->
  expand (a :: s) (R :: t) d =
  flat_map (expand s t) (bcast a R (chunks (numel s) a d)).
Proof.
  intros H Hd. cbn [expand]. unfold bcast. destruct (a =? R) eqn:E; auto.
  destruct H as [->| ->]; [now rewrite Nat.eqb_refl in E|].
  rewrite chunks_single by lia.
  clear. induction R; simpl; auto. now rewrite IHR.
Qed.

End ExpandFacts.

(** ** The scoring pipeline shared by the two stages *)


Lemma zip_with_combine {A B C : Type} (f : A -> B -> C) (l1 : list A) (l2 : list B) :
  zip_with f l1 l2 = map (fun p => f (fst p) (snd p)) (combine l1 l2).
Proof. revert l2; induction l1; intros [|b l2]; simpl; auto. now f_equal. Qed.

Lemma concat_flat_map {A B : Type} (f : A -> list (list B)) (l : list A) :
  concat (flat_map f l) = flat_map (fun x => concat (f x)) l.
Proof. induction l; simpl; auto. now rewrite concat_app, IHl. Qed.

Lemma bcast_map {A B : Type} (f : A -> B) a R (rows : list A) :
  bcast a R (map f rows) = map f (bcast a R rows).
Proof.
  unfold bcast. destruct (a =? R); auto.
  induction R; simpl; auto. now rewrite map_app, IHR.
Qed.

Lemma flat_map_ext_on {A B : Type} (f g : A -> list B) (l : list A) :
  Forall (fun x => f x = g x) l -> flat_map f l = flat_map g l.
Proof. induction 1; simpl; congruence. Qed.

Lemma bdim_cases a b :
  a = b \/ a = 1 \/ b = 1 ->
  bcompat a b = true /\ (a = bdim a b \/ a = 1) /\ (b = bdim a b \/ b = 1).
Proof.
  intros H. unfold bcompat, bdim.
  destruct (a =? b) eqn:E1; [apply Nat.eqb_eq in E1; subst; auto|].
  destruct (a =? 1) eqn:E2; [apply Nat.eqb_eq in E2; subst; auto|].
  destruct (b =? 1) eqn:E3; [apply Nat.eqb_eq in E3; subst; auto|].
  apply Nat.eqb_neq in E1, E2, E3. lia.
Qed.

Lemma numel2 Y X : numel [Y; X] = Y * X.
Proof. unfold numel. simpl. lia. Qed.

Lemma transpose01_unsqueezed {A : Type} B s (d : list A) :
  length d = B * numel s ->
  transpose01 (mk_nd (1 :: B :: s) d) = Ok (mk_nd (B :: 1 :: s) d).
Proof.
  intros H. unfold transpose01. cbn [shape data].
  rewrite chunks_single by lia. cbn [map]. do 2 f_equal.
  rewrite (flat_map_ext _ (fun j => concat (pick j (chunks (numel s) B d))))
    by (intros; simpl; now rewrite app_nil_r).
  rewrite <- concat_flat_map.
  replace (seq 0 B) with (seq 0 (length (chunks (numel s) B d)))
    by now rewrite chunks_length.
  rewrite flat_map_pick_seq. now apply concat_chunks.
Qed.


Lemma sub_rows_block n Q img blk :
  length img = n -> length blk = Q * n ->
  zip_with F32.sub (concat (repeat img Q)) blk = sub_rows img (chunks n Q blk).
Proof.
  intros Hi Hb. unfold sub_rows.
  rewrite <- (concat_chunks n Q blk Hb) at 1.
  rewrite (concat_zip_with_uniform F32.sub (n := n)).
  - rewrite flat_map_concat_map. f_equal.
    replace (repeat img Q) with (repeat img (length (chunks n Q blk)))
      by now rewrite chunks_length.
    apply zip_with_repeat_l.
  - apply Forall_forall. intros x Hx. apply repeat_spec in Hx. now subst.
  - now apply chunks_Forall.
Qed.

Lemma tsub_stage B B' Q Y X (da db : list F32.t) :
  let n := numel [Y; X] in
  length da = B * n -> length db = B' * (Q * n) ->
  B = B' \/ B = 1 \/ B' = 1 ->
  tsub (mk_nd [B; 1; Y; X] da) (mk_nd [B'; Q; Y; X] db) =
  Ok (mk_nd [bdim B B'; Q; Y; X]
            (concat (zip_with sub_rows
                       (bcast B (bdim B B') (chunks n B da))
                       (bcast B' (bdim B B') (map (chunks n Q) (chunks (Q * n) B' db)))))).
Proof.
  intros n Ha Hb Hc. destruct (bdim_cases Hc) as (Hcomp & HB & HB').
  unfold tsub, broadcast2. cbn [shape data].
  rewrite broadcast_shapes_4, Hcomp, bcompat_1_l, !bcompat_refl.
  cbn [andb]. rewrite bdim_1_l, !bdim_refl.
  set (R := bdim B B') in *. do 2 f_equal.
  change (pad (length [R; Q; Y; X]) [B; 1; Y; X]) with [B; 1; Y; X].
  change (pad (length [R; Q; Y; X]) [B'; Q; Y; X]) with [B'; Q; Y; X].
  assert (Hn1 : numel [1; Y; X] = n) by (rewrite numel_cons; fold n; lia).
  assert (HnQ : numel [Q; Y; X] = Q * n) by (rewrite numel_cons; reflexivity).
  rewrite (expand_rows [1; Y; X] [Q; Y; X] da HB) by (rewrite Hn1; exact Ha).
  rewrite (expand_rows [Q; Y; X] [Q; Y; X] db HB') by (rewrite HnQ; exact Hb).
  rewrite Hn1, HnQ.
  assert (HFa : Forall (fun c => length c = n) (bcast B R (chunks n B da)))
    by (apply bcast_Forall, chunks_Forall; exact Ha).
  assert (HFb : Forall (fun c => length c = Q * n) (bcast B' R (chunks (Q * n) B' db)))
    by (apply bcast_Forall, chunks_Forall; exact Hb).
  rewrite (flat_map_id_on (expand [Q; Y; X] [Q; Y; X]))
    by (eapply Forall_impl; [|exact HFb]; intros c Hc'; apply expand_id; congruence).
  rewrite (flat_map_ext_on (expand [1; Y; X] [Q; Y; X]) (fun img => concat (repeat img Q))).
  2:{ eapply Forall_impl; [|exact HFa]. intros img Hl. cbv beta in Hl.
      rewrite (expand_rows [Y; X] [Y; X] img (or_intror eq_refl)) by (fold n; lia).
      fold n. rewrite chunks_single by exact Hl. rewrite bcast_one.
      rewrite flat_map_concat_map. f_equal.
      clear - Hl. induction Q; cbn [repeat map]; auto. f_equal; auto.
      apply expand_id. exact Hl. }
  rewrite flat_map_concat_map.
  rewrite (concat_zip_with_uniform F32.sub (n := Q * n)).
  2:{ apply Forall_map. eapply Forall_impl; [|exact HFa]. intros img Hl.
      cbv beta in *. rewrite (concat_length_uniform (n := n)).
      - now rewrite repeat_length.
      - apply Forall_forall. intros x Hx. apply repeat_spec in Hx. now subst. }
  2: exact HFb.
  f_equal. rewrite bcast_map.
  rewrite zip_with_map_l, zip_with_map_r.
  apply zip_with_ext. intros img blk Hi Hk.
  rewrite Forall_forall in HFa, HFb.
  apply sub_rows_block; auto.
Qed.

Lemma sq_err_block n img rends :
  length img = n -> Forall (fun r => length r = n) rends ->
  map F32.sum (chunks n (length rends) (map F32.pow2 (sub_rows img rends))) =
  map (sq_err img) rends.
Proof.
  intros Hi H. induction H as [|r rends Hr _ IH]; auto.
  unfold sub_rows in *. cbn [flat_map length]. rewrite map_app.
  change (S (length rends)) with (1 + length rends).
  rewrite chunks_app
    by (rewrite length_map, zip_with_length; lia).
  rewrite chunks_single by (rewrite length_map, zip_with_length; lia).
  cbn [app map]. now rewrite IH.
Qed.

Lemma score_data n Q imgs : forall rrs,
  Forall (fun img => length img = n) imgs ->
  Forall (fun rends => length rends = Q /\ Forall (fun r => length r = n) rends) rrs ->
  map F32.sum (chunks n (Nat.min (length imgs) (length rrs) * Q)
                      (map F32.pow2 (concat (zip_with sub_rows imgs rrs)))) =
  concat (zip_with (fun img rends => map (sq_err img) rends) imgs rrs).
Proof.
  induction imgs as [|img imgs IH]; intros [|rends rrs] Hi Hr; auto.
  inversion Hi as [|? ? Hi1 Hi2]; subst. inversion Hr as [|? ? [Hq Hr1] Hr2]; subst.
  cbn [zip_with concat length Nat.min]. rewrite map_app.
  replace (S (Nat.min (length imgs) (length rrs)) * length rends)
    with (length rends + Nat.min (length imgs) (length rrs) * length rends) by lia.
  rewrite chunks_app.
  - rewrite map_app. f_equal; [now apply sq_err_block | now apply IH].
  - rewrite length_map. unfold sub_rows. rewrite flat_map_concat_map.
    rewrite (concat_length_uniform (n := length img)).
    + now rewrite length_map.
    + apply Forall_map. eapply Forall_impl; [|exact Hr1].
      intros r Hl. cbv beta in *. rewrite zip_with_length. lia.
Qed.

Lemma sum_pow2_stage R Q Y X imgs rrs :
  length imgs = R -> length rrs = R ->
  Forall (fun img => length img = numel [Y; X]) imgs ->
  Forall (fun rends => length rends = Q
                       /\ Forall (fun r => length r = numel [Y; X]) rends) rrs ->
  sum_last2 (tpow2 (mk_nd [R; Q; Y; X] (concat (zip_with sub_rows imgs rrs)))) =
  Ok (mk_nd [R; Q] (concat (zip_with (fun img rends => map (sq_err img) rends) imgs rrs))).
Proof.
  intros Hi Hr HFi HFr. unfold sum_last2, tpow2, nd_map. cbn [shape data].
  change (2 <=? length [R; Q; Y; X]) with true. cbv iota.
  change (firstn (length [R; Q; Y; X] - 2) [R; Q; Y; X]) with [R; Q].
  change (skipn (length [R; Q; Y; X] - 2) [R; Q; Y; X]) with [Y; X].
  do 2 f_equal.
  replace (numel [R; Q]) with (Nat.min (length imgs) (length rrs) * Q)
    by (rewrite numel2; lia).
  now apply score_data.
Qed.

Lemma argmin_rows R Q rows :
  Q <> 0 -> length rows = R -> Forall (fun r => length r = Q) rows ->
  argmin_dim1 (mk_nd [R; Q] (concat rows)) = Ok (mk_nd [R] (map argmin rows)).
Proof.
  intros HQ HR HF. unfold argmin_dim1. cbn [shape data].
  apply Nat.eqb_neq in HQ. rewrite HQ. do 2 f_equal.
  change (numel []) with 1. rewrite Nat.mul_1_r.
  rewrite chunks_concat' with (ls := rows) by auto.
  clear HR. induction HF as [|r rows Hr _ IH]; auto.
  cbn [flat_map map]. rewrite IH. rewrite chunks_one by exact Hr.
  rewrite columns_one by (apply Forall_map, Forall_forall; intros; reflexivity).
  cbn [map app]. do 2 f_equal.
  clear. induction r; simpl; auto. now f_equal.
Qed.

(** From the subtraction to the arg-min: every row of the broadcast batch
    selects among its own row of rendered candidates. *)
Lemma score_stage B B' Q Y X (da db : list F32.t) :
  let n := numel [Y; X] in
  let R := bdim B B' in
  Q <> 0 ->
  length da = B * n -> length db = B' * (Q * n) ->
  B = B' \/ B = 1 \/ B' = 1 ->
  rbind (tsub (mk_nd [B; 1; Y; X] da) (mk_nd [B'; Q; Y; X] db))
        (fun d => rbind (sum_last2 (tpow2 d)) argmin_dim1) =
  Ok (mk_nd [R] (zip_with select
                   (bcast B R (chunks n B da))
                   (bcast B' R (map (chunks n Q) (chunks (Q * n) B' db))))).
Proof.
  intros n R HQ Ha Hb Hc. destruct (bdim_cases Hc) as (Hcomp & HB & HB').
  fold R in HB, HB'.
  rewrite tsub_stage by auto. fold n R. cbn [rbind].
  set (imgs := bcast B R (chunks n B da)).
  set (rrs := bcast B' R (map (chunks n Q) (chunks (Q * n) B' db))).
  assert (Hli : length imgs = R).
  { apply bcast_length; auto. apply chunks_length. }
  assert (Hlr : length rrs = R).
  { apply bcast_length; auto. rewrite length_map. apply chunks_length. }
  assert (HFi : Forall (fun img => length img = n) imgs)
    by (apply bcast_Forall, chunks_Forall; exact Ha).
  assert (HFr : Forall (fun rends => length rends = Q
                                     /\ Forall (fun r => length r = n) rends) rrs).
  { apply bcast_Forall, Forall_map.
    eapply Forall_impl; [|apply chunks_Forall; exact Hb].
    intros c Hl. cbv beta in Hl. split; [apply chunks_length|].
    apply chunks_Forall. exact Hl. }
  rewrite sum_pow2_stage by auto. cbn [rbind].
  rewrite argmin_rows.
  - do 2 f_equal. unfold select. rewrite !zip_with_combine, map_map. reflexivity.
  - exact HQ.
  - rewrite zip_with_length. lia.
  - rewrite zip_with_combine. apply Forall_map. apply Forall_forall.
    intros [img rends] Hin. cbn [fst snd]. rewrite length_map.
    apply in_combine_r in Hin. rewrite Forall_forall in HFr.
    now apply HFr.
Qed.

(** ** Matrix products, views and conversions on well-shaped arguments *)

Lemma repeat_concat_chunks {A : Type} n N (l : list A) :
  length l = n -> chunks n N (concat (repeat l N)) = repeat l N.
Proof.
  intros H. apply chunks_concat'.
  - apply Forall_forall. intros x Hx. apply repeat_spec in Hx. now subst.
  - now rewrite repeat_length.
Qed.

Lemma matmul_lattice n N (lat rot : list F32.t) :
  length lat = n * 3 -> length rot = N * 9 ->
  matmul (mk_nd [n; 3] lat) (mk_nd [N; 3; 3] rot) =
  Ok (mk_nd [N; n; 3] (flat_map (mm n 3 3 lat) (chunks 9 N rot))).
Proof.
  intros Hl Hr. unfold matmul. cbn [shape data length Nat.eqb orb].
  cbn [Nat.sub firstn skipn app Nat.eqb].
  change (broadcast_shapes [] [N]) with (Some [N]). cbv iota beta.
  change (pad (length [N]) []) with [1]. change (pad (length [N]) [N]) with [N].
  cbn [app]. do 2 f_equal.
  assert (Hn : numel [n; 3] = n * 3) by apply numel2.
  rewrite (expand_rows [n; 3] [n; 3] lat (or_intror eq_refl)) by lia.
  rewrite Hn. rewrite chunks_single by exact Hl. rewrite bcast_one.
  rewrite (flat_map_id_on (expand [n; 3] [n; 3]))
    by (apply Forall_forall; intros x Hx; apply repeat_spec in Hx; subst;
        apply expand_id; lia).
  rewrite expand_id by (rewrite !numel_cons; unfold numel; simpl; lia).
  replace (numel [N]) with N by (unfold numel; simpl; lia).
  rewrite repeat_concat_chunks by exact Hl.
  rewrite flat_map_concat_map. f_equal.
  change (3 * 3) with 9.
  replace (repeat lat N) with (repeat lat (length (chunks 9 N rot)))
    by now rewrite chunks_length.
  apply zip_with_repeat_l.
Qed.

Lemma view_infer_ok {A : Type} Q dims (y : ndarray A) :
  0 < numel dims -> numel (shape y) = Q * numel dims ->
  view_infer dims y = Ok (mk_nd (Q :: dims) (data y)).
Proof.
  intros Hm Hn. unfold view_infer. rewrite Hn.
  apply Nat.ltb_lt in Hm. rewrite Hm.
  rewrite Nat.Div0.mod_mul, Nat.div_mul by (apply Nat.ltb_lt in Hm; lia).
  reflexivity.
Qed.

Lemma view_infer_fail {A : Type} dims (y : ndarray A) :
  numel (shape y) mod numel dims <> 0 -> view_infer dims y = Raise ViewError.
Proof.
  intros H. unfold view_infer. apply Nat.eqb_neq in H. rewrite H.
  now rewrite andb_false_r.
Qed.

Lemma quaternions_to_SO3_rows q2r N (q : tensor) :
  shape q = [N; 4] ->
  quaternions_to_SO3 q2r q =
  Ok (mk_nd [N; 3; 3] (flat_map q2r (chunks 4 N (data q)))).
Proof.
  intros Hs. unfold quaternions_to_SO3. rewrite Hs. cbn [rev app].
  replace (numel [N]) with N by (unfold numel; simpl; lia). reflexivity.
Qed.

Lemma flat_map_length_uniform {A B : Type} (f : A -> list B) n (l : list A) :
  (forall x, In x l -> length (f x) = n) -> length (flat_map f l) = length l * n.
Proof.
  intros H. rewrite flat_map_concat_map, (concat_length_uniform (n := n)).
  - now rewrite length_map.
  - apply Forall_map, Forall_forall. exact H.
Qed.

Lemma list_sum_heads {A : Type} k m (l : list (ndarray A)) :
  Forall (fun a => shape a = [k; m]) l ->
  list_sum (map (fun b => hd 0 (shape b)) l) = length l * k.
Proof.
  induction 1 as [|b l Hb _ IH]; auto.
  unfold list_sum in *. cbn [map fold_right length]. rewrite Hb, IH. simpl. lia.
Qed.

(** [np.concatenate] of [B >= 1] arrays of [k] rows of [m] numbers. *)
Lemma np_concatenate_rows {A : Type} k m (l : list (ndarray A)) :
  l <> [] -> Forall (fun a => shape a = [k; m]) l ->
  np_concatenate l = Ok (mk_nd [length l * k; m] (flat_map (@data A) l)).
Proof.
  intros Hne HF. unfold np_concatenate.
  destruct l as [|a l]; [congruence|].
  pose proof (Forall_inv HF) as Ha. cbv beta in Ha. rewrite Ha.
  replace (forallb _ (a :: l)) with true.
  - do 3 f_equal. now apply list_sum_heads with (m := m).
  - symmetry. apply forallb_forall. intros b Hb.
    rewrite Forall_forall in HF. rewrite (HF b Hb). apply shape_eqb_refl.
Qed.

Lemma np_stack_rows {A : Type} s (l : list (ndarray A)) :
  l <> [] -> Forall (fun a => shape a = s) l ->
  np_stack l = Ok (mk_nd (length l :: s) (flat_map (@data A) l)).
Proof.
  intros Hne HF. unfold np_stack. destruct l as [|a l]; [congruence|].
  pose proof (Forall_inv HF) as Ha. cbv beta in Ha. rewrite Ha.
  replace (forallb _ (a :: l)) with true; auto.
  symmetry. apply forallb_forall. intros b Hb.
  rewrite Forall_forall in HF. rewrite (HF b Hb). apply shape_eqb_refl.
Qed.

(** ** The lattice *)

Lemma linspace_length a b n : length (linspace a b n) = n.
Proof. unfold linspace. now rewrite length_map, length_seq. Qed.

(** The points of the lattice, one [x; y; 0] triple per pixel. *)
Lemma make_lattice_points ny nx :
  data (make_lattice ny nx) =
  flat_map (fun y => flat_map (fun x => [F64.to_f32 x; F64.to_f32 y; F32.zero])
                              (linspace (-1) 1 nx))
           (linspace (-1) 1 ny).
Proof.
  unfold make_lattice. cbn [data].
  induction (linspace (-1) 1 ny) as [|y ys IH]; auto.
  cbn [flat_map]. rewrite map_app, IH. f_equal. clear IH.
  induction (linspace (-1) 1 nx) as [|x xs IHx]; auto.
  cbn [flat_map app map]. rewrite IHx. reflexivity.
Qed.

Lemma make_lattice_length ny nx : length (data (make_lattice ny nx)) = ny * nx * 3.
Proof.
  rewrite make_lattice_points.
  rewrite (flat_map_length_uniform _ (n := nx * 3)).
  - rewrite linspace_length. lia.
  - intros y _. rewrite (flat_map_length_uniform _ (n := 3)).
    + now rewrite linspace_length.
    + reflexivity.
Qed.

(** ** The monad *)

Section MonadFacts.
Variables (P G : Type).
Variable forward : module P -> tensor -> tensor * module P.

Lemma bind_lift_Ok {A B : Type} (a : A) (f : A -> M P G B) w :
  bind (lift (Ok a)) f w = f a w.
Proof. reflexivity. Qed.

Lemma bind_lift_Raise {A B : Type} e (f : A -> M P G B) w :
  bind (lift (Raise e)) f w = (Raise e, w).
Proof. reflexivity. Qed.

Lemma bind_call_model {B : Type} x (f : tensor -> M P G B) (w : W P G) :
  bind (call_model forward x) f w =
  f (fst (forward (model w) x))
    (mk_world (snd (forward (model w) x)) (grad_enabled w) (rng w)
              (calls w ++ [mk_call (training (model w)) (grad_enabled w) x])).
Proof.
  unfold bind, call_model. now destruct (forward (model w) x).
Qed.

Lemma bind_assert {B : Type} (f : unit -> M P G B) (w : W P G) :
  bind (@assert_not_training P G) f w =
  if training (model w) then (Raise AssertionError, w) else f tt w.
Proof.
  unfold bind, assert_not_training. now destruct (training (model w)).
Qed.

(** The scoring tail of both stages, as a pure computation. *)
Lemma score_tail (a b : tensor) (w : W P G) :
  bind (lift (tsub a b)) (fun d =>
  bind (lift (sum_last2 (tpow2 d))) (fun err =>
  bind (lift (argmin_dim1 err)) (fun mini => ret mini))) w =
  (rbind (tsub a b) (fun d => rbind (sum_last2 (tpow2 d)) argmin_dim1), w).
Proof.
  unfold bind, lift, ret.
  destruct (tsub a b) as [d|e]; auto. cbn [rbind].
  destruct (sum_last2 (tpow2 d)) as [err|e]; auto. cbn [rbind].
  destruct (argmin_dim1 err); auto.
Qed.

End MonadFacts.

Lemma zip_with_repeat_r {A B C : Type} (f : A -> B -> C) (l : list A) (b : B) :
  zip_with f l (repeat b (length l)) = map (fun a => f a b) l.
Proof. induction l; simpl; auto. now f_equal. Qed.

Lemma chunks_chunks {A : Type} n q b : forall d : list A,
  length d = b * (q * n) ->
  map (chunks n q) (chunks (q * n) b d) = chunks q b (chunks n (b * q) d).
Proof.
  induction b; intros d H; auto.
  assert (E : chunks n (S b * q) d =
              chunks n q (firstn (q * n) d) ++ chunks n (b * q) (skipn (q * n) d)).
  { rewrite <- (firstn_skipn (q * n) d) at 1.
    replace (S b * q) with (q + b * q) by lia.
    apply chunks_app. rewrite length_firstn. lia. }
  rewrite E. cbn [chunks map].
  set (c1 := chunks n q (firstn (q * n) d)).
  assert (Hc1 : length c1 = q) by apply chunks_length.
  rewrite firstn_app, skipn_app, Hc1, Nat.sub_diag.
  rewrite (firstn_all2 c1), (skipn_all2 c1) by lia.
  cbn [firstn skipn]. rewrite !app_nil_r. cbn [app].
  f_equal. apply IHb. rewrite length_skipn. lia.
Qed.

(** ** numpy indexing on well-shaped arrays *)

Section IndexFacts.
Context {A : Type}.

Lemma nth_concat_uniform K (groups : list (list A)) x y (d : A) :
  Forall (fun g => length g = K) groups -> y < K ->
  nth (x * K + y) (concat groups) d = nth y (nth x groups []) d.
Proof.
  intros H Hy. revert x. induction H as [|g groups Hg _ IH]; intros x.
  - cbn [concat]. replace (nth x [] []) with (@nil A) by (destruct x; reflexivity).
    destruct (x * K + y), y; reflexivity.
  - destruct x; cbn [concat nth].
    + simpl. rewrite app_nth1 by lia. reflexivity.
    + rewrite app_nth2 by (simpl; lia).
      replace (S x * K + y - length g) with (x * K + y) by (simpl; lia).
      apply IH.
Qed.

Lemma nth_concat_uniform_list K (groups : list (list (list A))) x y :
  Forall (fun g => length g = K) groups -> y < K ->
  nth (x * K + y) (concat groups) [] = nth y (nth x groups []) [].
Proof.
  intros H Hy. revert x. induction H as [|g groups Hg _ IH]; intros x.
  - cbn [concat].
    replace (nth x [] []) with (@nil (list A)) by (destruct x; reflexivity).
    destruct (x * K + y), y; reflexivity.
  - destruct x; cbn [concat nth].
    + simpl. rewrite app_nth1 by lia. reflexivity.
    + rewrite app_nth2 by (simpl; lia).
      replace (S x * K + y - length g) with (x * K + y) by (simpl; lia).
      apply IH.
Qed.

Lemma zip_with_seq_nth {B C : Type} (h : A -> B -> C) (l : list A) (d : A) (js : list B) :
  zip_with (fun x y => h (nth x l d) y) (seq 0 (length l)) js = zip_with h l js.
Proof.
  revert js. induction l as [|a l IH]; intros js; auto.
  cbn [length seq]. destruct js as [|j js]; auto. cbn [zip_with nth].
  f_equal. rewrite <- seq_shift, zip_with_map_l. apply IH.
Qed.

Lemma map_seq_nth {B : Type} (h : A -> B) (l : list A) (d : A) :
  map (fun x => h (nth x l d)) (seq 0 (length l)) = map h l.
Proof.
  induction l as [|a l IH]; auto.
  cbn [length seq map nth]. f_equal.
  rewrite <- seq_shift, map_map. apply IH.
Qed.

Lemma zip_with_flip {B C : Type} (f : A -> B -> C) (l1 : list A) (l2 : list B) :
  zip_with f l1 l2 = zip_with (fun b a => f a b) l2 l1.
Proof. revert l2; induction l1; intros [|b l2]; simpl; auto. now f_equal. Qed.

End IndexFacts.

Section ArrayIndexFacts.
Context {A : Type}.

Lemma nd_get_row B m (rows : list (list A)) i :
  length rows = B -> Forall (fun r => length r = m) rows -> i < B ->
  nd_get (mk_nd [B; m] (concat rows)) i = Ok (mk_nd [m] (nth i rows [])).
Proof.
  intros HB HF Hi. unfold nd_get. cbn [shape data].
  apply Nat.ltb_lt in Hi. rewrite Hi.
  replace (numel [m]) with m by (unfold numel; simpl; lia).
  now rewrite chunks_concat' by auto.
Qed.

Lemma nd_get_scalar (zs : list A) i (d : A) :
  i < length zs ->
  nd_get (mk_nd [length zs] zs) i = Ok (scalar (nth i zs d)).
Proof.
  intros Hi. unfold nd_get, scalar. cbn [shape data].
  pose proof Hi as Hi'. apply Nat.ltb_lt in Hi'. rewrite Hi'.
  change (numel []) with 1. rewrite chunks_one by reflexivity.
  do 2 f_equal.
  rewrite nth_indep with (d' := [d]) by now rewrite length_map.
  apply (map_nth (fun x => [x])).
Qed.

Lemma chunks_flat_map_data K m (arrs : list (ndarray A)) :
  Forall (fun a => length (data a) = K * m) arrs ->
  chunks m (length arrs * K) (flat_map (@data A) arrs) =
  concat (map (fun a => chunks m K (data a)) arrs).
Proof.
  induction 1 as [|a arrs Ha _ IH]; auto.
  cbn [flat_map length map concat].
  change (S (length arrs) * K) with (K + length arrs * K).
  rewrite chunks_app by exact Ha. f_equal. exact IH.
Qed.

(** [np.stack(arrs)[np.arange(B), js]]: row [js[b]] of array [b]. *)
Lemma np_index2_rows B K m (arrs : list (ndarray A)) (js : list nat) :
  length arrs = B ->
  Forall (fun a => length (data a) = K * m) arrs ->
  length js = B -> Forall (fun j => j < K) js ->
  np_index2 (mk_nd [B; K; m] (flat_map (@data A) arrs))
            (np_arange B) (mk_nd [B] js) =
  Ok (mk_nd [B; m]
            (concat (zip_with (fun a j => nth j (chunks m K (data a)) []) arrs js))).
Proof.
  intros HB HF Hl Hj.
  unfold np_index2, np_arange. cbn [shape data].
  rewrite broadcast_shapes_1, bcompat_refl, bdim_refl.
  change (pad (length [B]) [B]) with [B].
  assert (HnB : numel [B] = B) by (unfold numel; simpl; lia).
  rewrite !expand_id by (rewrite HnB; auto using length_seq).
  replace (forallb (fun x => x <? B) (seq 0 B)) with true.
  2:{ symmetry. apply forallb_forall. intros x Hx. apply in_seq in Hx.
      apply Nat.ltb_lt. lia. }
  replace (forallb (fun y => y <? K) js) with true.
  2:{ symmetry. apply forallb_forall. intros y Hy. rewrite Forall_forall in Hj.
      apply Nat.ltb_lt. auto. }
  cbn [andb app]. do 3 f_equal.
  replace (numel [m]) with m by (unfold numel; simpl; lia).
  rewrite <- HB. rewrite chunks_flat_map_data by exact HF.
  rewrite <- (zip_with_seq_nth (fun a j => nth j (chunks m K (data a)) [])
                               arrs (mk_nd [] []) js).
  apply zip_with_ext. intros x y Hx Hy. apply in_seq in Hx.
  rewrite Forall_forall in Hj.
  rewrite nth_concat_uniform_list.
  - f_equal.
    rewrite nth_indep with (d' := chunks m K (data (mk_nd (A := A) [] [])))
      by (rewrite length_map; lia).
    apply (map_nth (fun a => chunks m K (data a))).
  - apply Forall_map, Forall_forall. intros a _. apply chunks_length.
  - auto.
Qed.

(** [arr[idx]] on the rows of a matrix. *)
Lemma np_take_rows N m (rows : list (list A)) (idx : ndarray nat) :
  length rows = N -> Forall (fun r => length r = m) rows ->
  Forall (fun i => i < N) (data idx) ->
  np_take (mk_nd [N; m] (concat rows)) idx =
  Ok (mk_nd (shape idx ++ [m]) (flat_map (fun i => nth i rows []) (data idx))).
Proof.
  intros HN HF Hi. unfold np_take. cbn [shape data].
  replace (forallb (fun i => i <? N) (data idx)) with true.
  2:{ symmetry. apply forallb_forall. intros y Hy. rewrite Forall_forall in Hi.
      apply Nat.ltb_lt. auto. }
  replace (numel [m]) with m by (unfold numel; simpl; lia).
  now rewrite chunks_concat' by auto.
Qed.

(** [x, y = a.T] on an array of [B] pairs: the two columns. *)
Lemma unpack2_T B (rows : list (list A)) (d : A) :
  length rows = B -> Forall (fun r => length r = 2) rows ->
  unpack2 (nd_T (mk_nd [B; 2] (concat rows))) =
  Ok (mk_nd [B] (map (fun r => nth 0 r d) rows),
      mk_nd [B] (map (fun r => nth 1 r d) rows)).
Proof.
  intros HB HF. unfold nd_T. cbn [shape data rev app T_data].
  change (numel [2]) with 2. change (numel []) with 1.
  rewrite chunks_concat' by auto.
  assert (HT : map (fun d0 : list A => concat (columns 1 (map (fun d1 => d1) (chunks 1 2 d0)))) rows = rows).
  { rewrite <- (map_id rows) at 2. apply map_ext_in. intros r Hr.
    rewrite Forall_forall in HF. specialize (HF r Hr).
    destruct r as [|a [|b [|c r]]]; try discriminate. reflexivity. }
  rewrite HT. unfold columns. cbn [seq map concat]. rewrite app_nil_r.
  assert (Hc : forall j, j < 2 ->
             flat_map (pick j) rows = map (fun r => nth j r d) rows).
  { intros j Hj. rewrite flat_map_concat_map.
    rewrite Forall_forall in HF.
    clear HT HB. induction rows as [|r rows IH]; auto.
    cbn [map concat]. rewrite IH by (intros; apply HF; now right).
    rewrite (@pick_default _ j r d) by (rewrite HF by (now left); exact Hj).
    reflexivity. }
  rewrite !Hc by lia.
  unfold unpack2. cbn [shape Nat.eqb].
  unfold nd_get. cbn [shape data Nat.ltb Nat.leb].
  replace (numel [B]) with B by (unfold numel; simpl; lia).
  assert (Hl0 : length (map (fun r => nth 0 r d) rows) = B) by now rewrite length_map.
  assert (Hl1 : length (map (fun r => nth 1 r d) rows) = B) by now rewrite length_map.
  cbn [chunks nth]. rewrite firstn_app, skipn_app, Hl0, Nat.sub_diag.
  rewrite firstn_all2, skipn_all2 by lia.
  cbn [firstn skipn rbind app]. rewrite app_nil_r.
  rewrite firstn_all2 by lia. reflexivity.
Qed.

End ArrayIndexFacts.

Lemma chunks_nth_prefix {A : Type} n : forall k k' (l : list A) j,
  j < k -> j < k' -> nth j (chunks n k l) [] = nth j (chunks n k' l) [].
Proof.
  induction k as [|k IH]; intros k' l j H1 H2; [lia|].
  destruct k' as [|k']; [lia|]. cbn [chunks].
  destruct j as [|j]; [reflexivity|]. cbn [nth]. apply IH; lia.
Qed.

Section BroadcastIndex.
Context {A : Type}.

Lemma expand_index_one R (x : nat) : expand [1] [R] [x] = repeat x R.
Proof.
  rewrite expand_rows with (t := @nil nat) by (auto; reflexivity).
  change (numel []) with 1. cbn [chunks firstn skipn].
  rewrite bcast_one. clear. induction R; simpl; auto. now f_equal.
Qed.

(** [np.stack(arrs)[np.arange(B), js]] when the [R] indices [js] are
    broadcast against [np.arange(B)]: [B = R], or [B = 1]. *)
Lemma np_index2_bcast B R K m (arrs : list (ndarray A)) (js : list nat) :
  length arrs = B ->
  Forall (fun a => length (data a) = K * m) arrs ->
  length js = R -> B = R \/ B = 1 -> Forall (fun j => j < K) js ->
  np_index2 (mk_nd [B; K; m] (flat_map (@data A) arrs))
            (np_arange B) (mk_nd [R] js) =
  Ok (mk_nd [R; m]
            (concat (zip_with (fun a j => nth j (chunks m K (data a)) [])
                              (bcast B R arrs) js))).
Proof.
  intros HB HF Hl [E|E] Hj.
  - rewrite <- E in *. rewrite bcast_same. now apply np_index2_rows.
  - rewrite E in *. clear E. destruct arrs as [|a [|a' arrs]]; try discriminate HB.
    rewrite bcast_one.
    unfold np_index2, np_arange. cbn [shape data seq].
    rewrite broadcast_shapes_1, bcompat_1_l, bdim_1_l.
    change (pad (length [R]) [1]) with [1]. change (pad (length [R]) [R]) with [R].
    rewrite expand_index_one.
    rewrite expand_id by (unfold numel; simpl; lia).
    replace (forallb (fun x => x <? 1) (repeat 0 R)) with true.
    2:{ symmetry. apply forallb_forall. intros x Hx. apply repeat_spec in Hx. now subst. }
    replace (forallb (fun y => y <? K) js) with true.
    2:{ symmetry. apply forallb_forall. intros y Hy. rewrite Forall_forall in Hj.
        apply Nat.ltb_lt. auto. }
    cbn [andb app flat_map]. rewrite app_nil_r. do 3 f_equal.
    replace (numel [m]) with m by (unfold numel; simpl; lia).
    rewrite Nat.mul_1_l. rewrite <- Hl. clear. induction js as [|j js IH]; auto.
    cbn [length repeat zip_with]. now rewrite IH.
Qed.

(** The same look-up with an index that is not below [K] fails. *)
Lemma np_index2_out_of_range B R K m (d : list A) (js : list nat) :
  length js = R -> B = R \/ B = 1 -> Exists (fun j => K <= j) js ->
  np_index2 (mk_nd [B; K; m] d) (np_arange B) (mk_nd [R] js) = Raise IndexError.
Proof.
  intros Hl HB Hj.
  unfold np_index2, np_arange. cbn [shape data].
  rewrite broadcast_shapes_1.
  assert (Hc : bcompat B R = true /\ bdim B R = R).
  { destruct HB as [->| ->]; [now rewrite bcompat_refl, bdim_refl|].
    now rewrite bcompat_1_l, bdim_1_l. }
  destruct Hc as [-> ->].
  change (pad (length [R]) [R]) with [R].
  rewrite (expand_id [R] js) by (unfold numel; simpl; lia).
  replace (forallb (fun y => y <? K) js) with false; [now rewrite andb_false_r|].
  symmetry. apply not_true_is_false. intros H. rewrite forallb_forall in H.
  apply Exists_exists in Hj as (j & Hin & Hle). specialize (H j Hin).
  apply Nat.ltb_lt in H. lia.
Qed.

End BroadcastIndex.

Lemma rmap_seq_ok {B : Type} (f : nat -> result B) (g : nat -> B) n : forall s,
  (forall i, s <= i < s + n -> f i = Ok (g i)) ->
  rmap f (seq s n) = Ok (map g (seq s n)).
Proof.
  induction n; intros s H; auto.
  cbn [seq rmap map]. rewrite H by lia. cbn [rbind].
  rewrite IHn by (intros; apply H; lia). reflexivity.
Qed.

(** ** The two evaluation stages *)

Section StageFacts.

Variables (P G : Type).
Variable forward : module P -> tensor -> tensor * module P.
Variable quat_to_rot : list F32.t -> list F32.t.
Variable base_indr : nat -> Z * Z.
Variable get_neighbor : tensor -> ndarray Z -> ndarray Z -> nat -> tensor * ndarray Z.
Variable base_SO3_grid : tensor.
Variables (Q Y X : nat).

Hypothesis Henv : search_env forward quat_to_rot get_neighbor base_SO3_grid Q Y X.

Variable self : BNBOpt.
Hypothesis Hself : BNBOpt_init quat_to_rot base_SO3_grid Y X = Ok self.

Lemma chunks_flat_map_rot (qs : list (list F32.t)) :
  Forall (fun q => length q = 4) qs ->
  chunks 9 (length qs) (flat_map quat_to_rot qs) = map quat_to_rot qs.
Proof.
  intros H. rewrite flat_map_concat_map.
  apply chunks_concat'; [|now rewrite length_map].
  apply Forall_map. eapply Forall_impl; [|exact H].
  intros q Hq. now apply (env_rot Henv).
Qed.

Lemma self_fields :
  ny self = Y /\ nx self = X /\ lattice self = make_lattice Y X
  /\ base_quat self = base_SO3_grid
  /\ base_rot self =
     mk_nd [Q; 3; 3] (flat_map quat_to_rot (chunks 4 Q (data base_SO3_grid))).
Proof.
  pose proof Hself as H. unfold BNBOpt_init in H.
  rewrite quaternions_to_SO3_rows with (N := Q) in H by apply (env_grid_shape Henv).
  cbn [rbind] in H.
  inversion H; subst self. cbn. repeat split; reflexivity.
Qed.

Lemma base_quats_length : Forall (fun q => length q = 4) (base_quats self) /\ length (base_quats self) = Q.
Proof.
  destruct self_fields as (_ & _ & _ & Hq & _).
  unfold base_quats. rewrite Hq, (env_grid_shape Henv). cbn [hd].
  split; [|apply chunks_length].
  apply chunks_Forall. apply (env_grid_data Henv).
Qed.

Lemma base_rots_eq : base_rots self = map quat_to_rot (base_quats self).
Proof.
  destruct base_quats_length as [HF HL].
  destruct self_fields as (_ & _ & _ & Hq & Hr).
  unfold base_rots. rewrite Hr, Hq, (env_grid_shape Henv). cbn [hd data].
  unfold base_quats in *. rewrite Hq, (env_grid_shape Henv) in *. cbn [hd] in *.
  rewrite <- HL at 1. now apply chunks_flat_map_rot.
Qed.

Lemma base_rots_length : length (base_rots self) = Q.
Proof.
  rewrite base_rots_eq, length_map. apply base_quats_length.
Qed.

(** The lattice times a batch of [N] rotations is the coordinate batch
    of the specification. *)
Lemma matmul_coordinates N (rots : list (list F32.t)) :
  length rots = N -> Forall (fun r => length r = 9) rots ->
  matmul (lattice self) (mk_nd [N; 3; 3] (concat rots)) = Ok (coordinates self rots).
Proof.
  intros HN HF. destruct self_fields as (Hy & Hx & Hl & _).
  unfold coordinates. rewrite Hy, Hx, Hl.
  change (make_lattice Y X) with (mk_nd [Y * X; 3] (data (make_lattice Y X))) at 1.
  rewrite matmul_lattice.
  - rewrite chunks_concat' by auto. now rewrite HN.
  - apply make_lattice_length.
  - rewrite (concat_length_uniform (n := 9)) by exact HF. lia.
Qed.

(** The answer of the render model to a coordinate batch. *)
Lemma render_answer m (rots : list (list F32.t)) :
  let y := fst (forward m (coordinates self rots)) in
  numel (shape y) = length rots * (Y * X)
  /\ length (data y) = length rots * (Y * X).
Proof.
  destruct self_fields as (Hy & Hx & Hl & _).
  unfold coordinates. rewrite Hy, Hx, Hl.
  pose proof (env_render Henv m [length rots; Y * X]
                (flat_map (mm (Y * X) 3 3 (data (make_lattice Y X))) rots)) as H.
  cbn [app] in H. rewrite numel2 in H. apply H.
  rewrite (flat_map_length_uniform _ (n := Y * X * 3)); [lia|].
  intros r _. unfold mm.
  rewrite (flat_map_length_uniform _ (n := 3)).
  - rewrite chunks_length. lia.
  - intros row _. unfold columns. now rewrite length_map, length_map, length_seq.
Qed.

Lemma eval_base_grid_ok (images : tensor) (B : nat) (w : W P G) :
  shape images = [B; Y; X] -> length (data images) = B * (Y * X) ->
  eval_base_grid forward self images w =
  (Ok (mk_nd [B] (map (fun img => select img (render_batch forward self (model w) (base_rots self)))
                      (chunks (Y * X) B (data images)))),
   after_call forward w (coordinates self (base_rots self))).
Proof.
  intros Hs Hd. destruct images as [s d]. cbn [shape data] in *. subst s.
  destruct self_fields as (Hy & Hx & Hl & Hq & Hr).
  pose proof base_rots_length as HL.
  destruct base_quats_length as [HFq HLq].
  pose proof (env_ny Henv) as HY. pose proof (env_nx Henv) as HX.
  pose proof (env_grid_nonempty Henv) as HQ.
  assert (Hm : matmul (lattice self) (base_rot self) = Ok (coordinates self (base_rots self))).
  { rewrite <- (matmul_coordinates (N := Q)); auto.
    - f_equal. rewrite Hr. f_equal. rewrite base_rots_eq.
      unfold base_quats. rewrite Hq, (env_grid_shape Henv). cbn [hd].
      now rewrite flat_map_concat_map.
    - rewrite base_rots_eq. apply Forall_map.
      eapply Forall_impl; [|exact HFq]. intros q Hq'. now apply (env_rot Henv). }
  unfold eval_base_grid. rewrite Hm, bind_lift_Ok, bind_call_model.
  fold (after_call forward w (coordinates self (base_rots self))).
  set (y := fst (forward (model w) (coordinates self (base_rots self)))).
  destruct (render_answer (model w) (base_rots self)) as [Hny Hdy]. fold y in Hny, Hdy.
  rewrite HL in Hny, Hdy.
  rewrite Hy, Hx.
  rewrite view_infer_ok with (Q := Q) by (rewrite numel2; nia).
  rewrite bind_lift_Ok.
  change (unsqueeze 0 (mk_nd [Q; Y; X] (data y))) with (Ok (mk_nd [1; Q; Y; X] (data y))).
  rewrite bind_lift_Ok.
  change (unsqueeze 0 (mk_nd [B; Y; X] d)) with (Ok (mk_nd [1; B; Y; X] d)).
  cbn [rbind]. rewrite transpose01_unsqueezed by (rewrite numel2; exact Hd).
  rewrite bind_lift_Ok.
  rewrite score_tail.
  pose proof (@score_stage B 1 Q Y X d (data y)) as Hsc. cbv zeta in Hsc.
  rewrite numel2 in Hsc.
  rewrite Hsc by (auto; lia).
  rewrite bdim_1_r, bcast_same.
  rewrite chunks_single by lia. cbn [map]. rewrite bcast_one.
  unfold render_batch. rewrite Hy, Hx, HL. fold y.
  replace (repeat (chunks (Y * X) Q (data y)) B)
    with (repeat (chunks (Y * X) Q (data y)) (length (chunks (Y * X) B d)))
    by now rewrite chunks_length.
  rewrite zip_with_repeat_r. reflexivity.
Qed.

Lemma candidates_of_spec k (quats : list tensor) :
  Forall (fun q => shape q = [k; 4] /\ length (data q) = k * 4) quats ->
  chunks 4 (length quats * k) (flat_map (@data F32.t) quats) = candidates_of k quats
  /\ Forall (fun c => length c = 4) (candidates_of k quats)
  /\ length (candidates_of k quats) = length quats * k.
Proof.
  unfold candidates_of.
  induction 1 as [|q quats [_ Hq] _ (IH1 & IH2 & IH3)]; cbn [flat_map length].
  - repeat split; auto.
  - change (S (length quats) * k) with (k + length quats * k).
    rewrite chunks_app by exact Hq. repeat split.
    + f_equal. exact IH1.
    + apply Forall_app. split; auto. now apply chunks_Forall.
    + rewrite length_app, chunks_length. f_equal. exact IH3.
Qed.

Lemma incremental_rotations k (quats : list tensor) :
  quats <> [] ->
  Forall (fun q => shape q = [k; 4] /\ length (data q) = k * 4) quats ->
  let rots := map quat_to_rot (candidates_of k quats) in
  rbind (rbind (np_concatenate quats) (quaternions_to_SO3 quat_to_rot))
        (matmul (lattice self)) = Ok (coordinates self rots)
  /\ length rots = length quats * k.
Proof.
  intros Hne HF rots.
  destruct (candidates_of_spec HF) as (Hc1 & Hc2 & Hc3).
  rewrite np_concatenate_rows with (k := k) (m := 4); auto.
  2:{ eapply Forall_impl; [|exact HF]. now intros q [Hq _]. }
  cbn [rbind].
  rewrite quaternions_to_SO3_rows with (N := length quats * k) by reflexivity.
  cbn [rbind data]. rewrite Hc1.
  assert (Hl : length rots = length quats * k)
    by (unfold rots; now rewrite length_map).
  split; auto.
  rewrite <- (matmul_coordinates (N := length quats * k)); auto.
  - now rewrite flat_map_concat_map.
  - apply Forall_map. eapply Forall_impl; [|exact Hc2].
    intros c Hc. now apply (env_rot Henv).
Qed.

Lemma eval_incremental_grid_prefix (images : tensor) k (quats : list tensor) (w : W P G)
    (rest : tensor -> M P G (ndarray nat)) :
  quats <> [] ->
  Forall (fun q => shape q = [k; 4] /\ length (data q) = k * 4) quats ->
  let rots := map quat_to_rot (candidates_of k quats) in
  bind (lift (rbind (np_concatenate quats) (quaternions_to_SO3 quat_to_rot))) (fun rot =>
  bind (lift (matmul (lattice self) rot)) (fun x =>
  bind (call_model forward x) rest)) w =
  rest (fst (forward (model w) (coordinates self rots)))
       (after_call forward w (coordinates self rots)).
Proof.
  intros Hne HF rots.
  destruct (incremental_rotations Hne HF) as [Hr _]. fold rots in Hr.
  destruct (rbind (np_concatenate quats) (quaternions_to_SO3 quat_to_rot)) as [rot|e];
    [|discriminate Hr].
  cbn [rbind] in Hr. rewrite bind_lift_Ok, Hr, bind_lift_Ok, bind_call_model.
  reflexivity.
Qed.

(** The refinement evaluation on [L] arrays of [k] candidates each, when
    the total is a multiple [B' * 8] of the hard-coded fan-out and the
    [B] images broadcast against the [B'] rows of 8 rendered candidates:
    row by row, the arg-min over 8 consecutive candidates of the batch. *)
Lemma eval_incremental_grid_rows (images : tensor) B B' k (quats : list tensor) (w : W P G) :
  shape images = [B; Y; X] -> length (data images) = B * (Y * X) ->
  quats <> [] ->
  Forall (fun q => shape q = [k; 4] /\ length (data q) = k * 4) quats ->
  length quats * k = B' * 8 ->
  B = B' \/ B = 1 \/ B' = 1 ->
  let rots := map quat_to_rot (candidates_of k quats) in
  eval_incremental_grid forward quat_to_rot self images quats w =
  (Ok (mk_nd [bdim B B']
         (zip_with select
            (bcast B (bdim B B') (chunks (Y * X) B (data images)))
            (bcast B' (bdim B B')
                   (chunks 8 B' (render_batch forward self (model w) rots))))),
   after_call forward w (coordinates self rots)).
Proof.
  intros Hs Hd Hne HF HL Hc rots.
  destruct images as [s d]. cbn [shape data] in *. subst s.
  destruct self_fields as (Hy & Hx & _).
  pose proof (env_ny Henv) as HY. pose proof (env_nx Henv) as HX.
  destruct (incremental_rotations Hne HF) as [_ Hlr]. fold rots in Hlr.
  unfold eval_incremental_grid.
  rewrite eval_incremental_grid_prefix with (k := k) by auto. fold rots.
  set (y := fst (forward (model w) (coordinates self rots))).
  destruct (render_answer (model w) rots) as [Hny Hdy]. fold y in Hny, Hdy.
  rewrite Hlr, HL in Hny, Hdy. rewrite Hy, Hx.
  rewrite view_infer_ok with (Q := B')
    by (rewrite numel_cons, numel2; nia).
  rewrite bind_lift_Ok.
  change (unsqueeze 1 (mk_nd [B; Y; X] d)) with (Ok (mk_nd [B; 1; Y; X] d)).
  rewrite bind_lift_Ok, score_tail.
  pose proof (@score_stage B B' 8 Y X d (data y)) as Hsc. cbv zeta in Hsc.
  rewrite numel2 in Hsc. rewrite Hsc by (auto; lia).
  rewrite chunks_chunks by lia.
  unfold render_batch. rewrite Hy, Hx, Hlr, HL. reflexivity.
Qed.

(** When the total number of candidates is not a multiple of 8, the
    reshape of the rendered batch fails. *)
Lemma eval_incremental_grid_view_error (images : tensor) k (quats : list tensor) (w : W P G) :
  quats <> [] ->
  Forall (fun q => shape q = [k; 4] /\ length (data q) = k * 4) quats ->
  (length quats * k) mod 8 <> 0 ->
  eval_incremental_grid forward quat_to_rot self images quats w =
  (Raise ViewError, after_call forward w (coordinates self (map quat_to_rot (candidates_of k quats)))).
Proof.
  intros Hne HF Hmod. set (rots := map quat_to_rot (candidates_of k quats)).
  destruct self_fields as (Hy & Hx & _).
  pose proof (env_ny Henv) as HY. pose proof (env_nx Henv) as HX.
  destruct (incremental_rotations Hne HF) as [_ Hlr]. fold rots in Hlr.
  unfold eval_incremental_grid.
  rewrite eval_incremental_grid_prefix with (k := k) by auto. fold rots.
  set (y := fst (forward (model w) (coordinates self rots))).
  destruct (render_answer (model w) rots) as [Hny _]. fold y in Hny.
  rewrite Hlr in Hny. rewrite Hy, Hx.
  rewrite view_infer_fail; [reflexivity|].
  rewrite Hny, numel_cons, numel2.
  rewrite Nat.Div0.mul_mod_distr_r. nia.
Qed.

(** When the reshape succeeds with [B'] rows but neither [B] nor [B'] is
    1 and they differ, the subtraction fails. *)
Lemma eval_incremental_grid_broadcast_error (images : tensor) B B' k (quats : list tensor)
    (w : W P G) :
  shape images = [B; Y; X] ->
  quats <> [] ->
  Forall (fun q => shape q = [k; 4] /\ length (data q) = k * 4) quats ->
  length quats * k = B' * 8 ->
  B <> B' -> B <> 1 -> B' <> 1 ->
  eval_incremental_grid forward quat_to_rot self images quats w =
  (Raise BroadcastError,
   after_call forward w (coordinates self (map quat_to_rot (candidates_of k quats)))).
Proof.
  intros Hs Hne HF HL H1 H2 H3. set (rots := map quat_to_rot (candidates_of k quats)).
  destruct images as [s d]. cbn [shape data] in *. subst s.
  destruct self_fields as (Hy & Hx & _).
  pose proof (env_ny Henv) as HY. pose proof (env_nx Henv) as HX.
  destruct (incremental_rotations Hne HF) as [_ Hlr]. fold rots in Hlr.
  unfold eval_incremental_grid.
  rewrite eval_incremental_grid_prefix with (k := k) by auto. fold rots.
  set (y := fst (forward (model w) (coordinates self rots))).
  destruct (render_answer (model w) rots) as [Hny _]. fold y in Hny.
  rewrite Hlr, HL in Hny. rewrite Hy, Hx.
  rewrite view_infer_ok with (Q := B')
    by (rewrite numel_cons, numel2; nia).
  rewrite bind_lift_Ok.
  change (unsqueeze 1 (mk_nd [B; Y; X] d)) with (Ok (mk_nd [B; 1; Y; X] d)).
  rewrite bind_lift_Ok, score_tail.
  unfold tsub, broadcast2. cbn [shape]. rewrite broadcast_shapes_4.
  replace (bcompat B B') with false; [reflexivity|].
  unfold bcompat. apply Nat.eqb_neq in H1, H2, H3. now rewrite H1, H2, H3.
Qed.

(** *** The refinement loop *)

Lemma bind_eq {A B : Type} (m : M P G A) (f : A -> M P G B) w a w' :
  m w = (Ok a, w') -> bind m f w = f a w'.
Proof. intros H. unfold bind. now rewrite H. Qed.

Lemma bind_raise {A B : Type} (m : M P G A) (f : A -> M P G B) w e w' :
  m w = (Raise e, w') -> bind m f w = (Raise e, w').
Proof. intros H. unfold bind. now rewrite H. Qed.

Lemma neighbors_shape level (sts : list image_state) :
  Forall quat4 sts ->
  Forall (fun nb => shape (fst nb) = [8; 4] /\ length (data (fst nb)) = 32
                    /\ shape (snd nb) = [8; 2] /\ length (data (snd nb)) = 16)
         (map (neighbors_of get_neighbor level) sts).
Proof.
  intros H. apply Forall_map. eapply Forall_impl; [|exact H].
  intros st Hst. unfold neighbors_of. now apply (env_neighbor Henv).
Qed.

Lemma neighbors_rmap level (sts : list image_state) :
  Forall quat4 sts ->
  rmap (fun i =>
          rbind (nd_get (min_quat (state_arrays sts)) i) (fun q =>
          rbind (nd_get (s2i (state_arrays sts)) i) (fun a =>
          rbind (nd_get (s1i (state_arrays sts)) i) (fun b =>
          Ok (get_neighbor q a b level)))))
       (seq 0 (length sts)) =
  Ok (map (neighbors_of get_neighbor level) sts).
Proof.
  intros HF. set (d := mk_image_state [] 0 0).
  rewrite rmap_seq_ok with (g := fun i => neighbors_of get_neighbor level (nth i sts d)).
  - now rewrite map_seq_nth.
  - intros i Hi. unfold state_arrays. cbn [min_quat s2i s1i].
    rewrite flat_map_concat_map.
    rewrite nd_get_row by (rewrite ?length_map; auto; try lia; now apply Forall_map).
    cbn [rbind].
    rewrite <- (length_map best_s2 sts) at 1.
    rewrite nd_get_scalar with (d := 0%Z) by (rewrite length_map; lia).
    cbn [rbind].
    rewrite <- (length_map best_s1 sts) at 1.
    rewrite nd_get_scalar with (d := 0%Z) by (rewrite length_map; lia).
    cbn [rbind]. unfold neighbors_of. do 3 f_equal.
    + rewrite nth_indep with (d' := best_quat d) by (rewrite length_map; lia).
      apply map_nth.
    + f_equal. rewrite nth_indep with (d' := best_s2 d) by (rewrite length_map; lia).
      apply map_nth.
    + f_equal. rewrite nth_indep with (d' := best_s1 d) by (rewrite length_map; lia).
      apply map_nth.
Qed.

Lemma refine_stage_zip m (imgs : list (list F32.t)) (sts : list image_state) level :
  let nbrs := map (neighbors_of get_neighbor level) sts in
  let renders := render_batch forward self m (map quat_to_rot (candidates_of 8 (map fst nbrs))) in
  refine_stage forward quat_to_rot get_neighbor self m imgs sts level =
  zip_with (fun j nb => candidate nb j)
           (zip_with select imgs (chunks 8 (length imgs) renders)) nbrs.
Proof.
  intros nbrs renders. unfold refine_stage. fold nbrs.
  assert (E : flat_map (fun nb => chunks 4 8 (data (fst nb))) nbrs =
              candidates_of 8 (map fst nbrs)).
  { unfold candidates_of. now rewrite !flat_map_concat_map, map_map. }
  rewrite E. fold renders.
  rewrite (zip_with_combine select), zip_with_map_l. reflexivity.
Qed.

Lemma select_lt img (rends : list (list F32.t)) : rends <> [] -> select img rends < length rends.
Proof.
  intros H. unfold select. rewrite <- (length_map (sq_err img) rends).
  apply argmin_lt. destruct rends; [congruence|discriminate].
Qed.

Lemma refine_step_ok (images : tensor) (sts : list image_state) level (w : W P G) :
  let B := length sts in
  shape images = [B; Y; X] -> length (data images) = B * (Y * X) ->
  1 <= B -> Forall quat4 sts ->
  let nbrs := map (neighbors_of get_neighbor level) sts in
  let sts' := refine_stage forward quat_to_rot get_neighbor self (model w)
                           (chunks (Y * X) B (data images)) sts level in
  refine_step forward quat_to_rot get_neighbor self images B (state_arrays sts) level w =
  (Ok (state_arrays sts'),
   after_call forward w (coordinates self (map quat_to_rot (candidates_of 8 (map fst nbrs)))))
  /\ length sts' = B /\ Forall quat4 sts'.
Proof.
  intros B Hs Hd HB HF nbrs sts'.
  pose proof (neighbors_shape level HF) as Hnb. fold nbrs in Hnb.
  assert (Hln : length nbrs = B) by (unfold nbrs; now rewrite length_map).
  set (rots := map quat_to_rot (candidates_of 8 (map fst nbrs))).
  set (imgs := chunks (Y * X) B (data images)).
  set (renders := render_batch forward self (model w) rots).
  set (js := zip_with select imgs (chunks 8 B renders)).
  assert (Hli : length imgs = B) by apply chunks_length.
  assert (Hquats : Forall (fun q => shape q = [8; 4] /\ length (data q) = 8 * 4) (map fst nbrs)).
  { apply Forall_map. eapply Forall_impl; [|exact Hnb].
    intros nb (H1 & H2 & _). split; [exact H1 | exact H2]. }
  assert (Hne : map fst nbrs <> []).
  { intros E. apply (f_equal (@length _)) in E. rewrite length_map, Hln in E.
    simpl in E. lia. }
  assert (Hlr : length renders = B * 8).
  { unfold renders, render_batch. rewrite chunks_length. unfold rots.
    rewrite length_map.
    destruct (candidates_of_spec Hquats) as (_ & _ & Hc). rewrite Hc, length_map. lia. }
  assert (Hljs : length js = B).
  { unfold js. rewrite zip_with_length, chunks_length. lia. }
  assert (Hjs : Forall (fun j => j < 8) js).
  { unfold js. rewrite zip_with_combine. apply Forall_map, Forall_forall.
    intros [img rends] Hin. cbn [fst snd]. apply in_combine_r in Hin.
    pose proof (chunks_Forall 8 B renders Hlr) as Hch.
    rewrite Forall_forall in Hch. specialize (Hch _ Hin). cbv beta in Hch.
    rewrite <- Hch. apply select_lt. intros E. now rewrite E in Hch. }
  assert (Hsts' : sts' = zip_with (fun j nb => candidate nb j) js nbrs).
  { unfold sts'. rewrite refine_stage_zip. fold nbrs rots renders imgs.
    now rewrite Hli. }
  assert (Hlen' : length sts' = B).
  { rewrite Hsts', zip_with_length. lia. }
  assert (HF' : Forall quat4 sts').
  { rewrite Hsts', zip_with_combine. apply Forall_map, Forall_forall.
    intros [j nb] Hin. cbn [fst snd]. unfold quat4, candidate. cbn [best_quat].
    pose proof (in_combine_l _ _ _ _ Hin) as Hj.
    pose proof (in_combine_r _ _ _ _ Hin) as Hn.
    rewrite Forall_forall in Hjs, Hnb.
    specialize (Hjs _ Hj). destruct (Hnb _ Hn) as (_ & Hd4 & _).
    pose proof (chunks_Forall 4 8 (data (fst nb)) Hd4) as Hc.
    rewrite Forall_forall in Hc. apply Hc. apply nth_In.
    now rewrite chunks_length. }
  split; [|split; assumption].
  unfold refine_step. change (seq 0 B) with (seq 0 (length sts)).
  rewrite (neighbors_rmap level HF). fold nbrs. rewrite bind_lift_Ok.
  rewrite bind_eq with (a := mk_nd [B] js)
                       (w' := after_call forward w (coordinates self rots)).
  2:{ rewrite eval_incremental_grid_rows with (B := B) (B' := B) (k := 8); auto.
      - rewrite bdim_refl, !bcast_same. reflexivity.
      - rewrite length_map. lia. }
  rewrite np_stack_rows with (s := [8; 2]).
  2:{ intros E. apply (f_equal (@length _)) in E. rewrite length_map, Hln in E.
      simpl in E. lia. }
  2:{ apply Forall_map. eapply Forall_impl; [|exact Hnb].
      intros nb (_ & _ & H & _). exact H. }
  cbn [rbind]. rewrite length_map, Hln.
  rewrite np_index2_rows; auto.
  2:{ now rewrite length_map. }
  2:{ apply Forall_map. eapply Forall_impl; [|exact Hnb].
      intros nb (_ & _ & _ & H). exact H. }
  rewrite bind_lift_Ok.
  rewrite unpack2_T with (d := 0%Z).
  2:{ rewrite zip_with_length, length_map. lia. }
  2:{ rewrite zip_with_combine. apply Forall_map, Forall_forall.
      intros [a j] Hin. cbn [fst snd].
      pose proof (in_combine_l _ _ _ _ Hin) as Ha.
      pose proof (in_combine_r _ _ _ _ Hin) as Hj.
      apply in_map_iff in Ha as (nb & <- & Hn).
      rewrite Forall_forall in Hjs, Hnb.
      specialize (Hjs _ Hj). destruct (Hnb _ Hn) as (_ & _ & _ & Hd16).
      pose proof (chunks_Forall 2 8 (data (snd nb)) Hd16) as Hc.
      rewrite Forall_forall in Hc. apply Hc. apply nth_In.
      now rewrite chunks_length. }
  rewrite bind_lift_Ok.
  rewrite np_stack_rows with (s := [8; 4]).
  2: exact Hne.
  2:{ apply Forall_map. eapply Forall_impl; [|exact Hnb].
      intros nb (H & _). exact H. }
  cbn [rbind]. rewrite length_map, Hln.
  rewrite np_index2_rows; auto.
  2:{ now rewrite length_map. }
  2:{ apply Forall_map. eapply Forall_impl; [|exact Hnb].
      intros nb (_ & H & _). exact H. }
  rewrite bind_lift_Ok. unfold ret. f_equal. f_equal.
  unfold state_arrays. rewrite Hlen'. rewrite Hsts'.
  rewrite !zip_with_map_l, !map_zip_with, flat_map_concat_map, map_zip_with.
  repeat rewrite (zip_with_flip _ nbrs js).
  reflexivity.
Qed.

Lemma pair_Ok_inv {A S : Type} (a b : A) (w1 w2 : S) :
  (Ok a, w1) = (Ok b, w2) -> a = b /\ w1 = w2.
Proof. intros H. now inversion H. Qed.

Lemma no_grad_eq {A : Type} (body : M P G A) (w : W P G) r w' :
  body (mk_world (model w) false (rng w) (calls w)) = (r, w') ->
  no_grad body w = (r, mk_world (model w') (grad_enabled w) (rng w') (calls w')).
Proof. intros H. unfold no_grad. now rewrite H. Qed.

Lemma after_call_inference (w : W P G) x :
  training (model w) = false ->
  after_call forward w x =
  mk_world (model w) (grad_enabled w) (rng w)
           (calls w ++ [mk_call false (grad_enabled w) x]).
Proof.
  intros H. unfold after_call. now rewrite (env_inference Henv _ x H), H.
Qed.

(** The loop of [opt_theta] runs the refinement stages in order, with one
    render query per level. *)
Lemma refine_loop_ok (images : tensor) levels : forall (sts : list image_state) (w : W P G),
  let B := length sts in
  shape images = [B; Y; X] -> length (data images) = B * (Y * X) ->
  1 <= B -> Forall quat4 sts -> training (model w) = false ->
  let sts' := fold_left (refine_stage forward quat_to_rot get_neighbor self (model w)
                                      (chunks (Y * X) B (data images))) levels sts in
  exists cs,
    refine_loop forward quat_to_rot get_neighbor self images B (state_arrays sts) levels w =
    (Ok (state_arrays sts'),
     mk_world (model w) (grad_enabled w) (rng w) (calls w ++ cs))
    /\ length cs = length levels
    /\ Forall (fun c => call_training c = false /\ call_grad c = grad_enabled w) cs
    /\ length sts' = B /\ Forall quat4 sts'.
Proof.
  induction levels as [|level levels IH]; intros sts w B Hs Hd HB HF Ht sts'.
  - exists []. cbn [refine_loop]. unfold ret. rewrite app_nil_r.
    destruct w. repeat split; auto.
  - destruct (@refine_step_ok images sts level w Hs Hd HB HF) as (Hstep & Hl1 & HF1).
    fold B in Hstep, Hl1.
    rewrite after_call_inference in Hstep by exact Ht.
    set (sts1 := refine_stage forward quat_to_rot get_neighbor self (model w)
                              (chunks (Y * X) B (data images)) sts level) in *.
    set (w1 := mk_world (model w) (grad_enabled w) (rng w) _) in Hstep.
    destruct (IH sts1 w1) as (cs & Hloop & Hlc & Hcs & Hl2 & HF2);
      try (rewrite Hl1; assumption); auto.
    rewrite Hl1 in Hloop, Hl2, HF2. cbn [model grad_enabled rng calls w1] in *.
    eexists (_ :: cs). cbn [refine_loop].
    rewrite (@bind_eq _ _ _ _ _ _ _ Hstep). fold B. rewrite Hloop.
    unfold w1. cbn [calls]. rewrite <- app_assoc. cbn [app].
    split; [reflexivity|]. split; [cbn [length]; now rewrite Hlc|].
    split; [constructor; auto|]. split; [exact Hl2 | exact HF2].
Qed.

Lemma base_quat_rows : base_quat self = mk_nd [Q; 4] (concat (base_quats self)).
Proof.
  destruct self_fields as (_ & _ & _ & Hq & _).
  unfold base_quats. rewrite Hq, (env_grid_shape Henv). cbn [hd].
  rewrite concat_chunks by apply (env_grid_data Henv).
  rewrite <- (env_grid_shape Henv). now destruct base_SO3_grid.
Qed.

Lemma base_stage_ok (images : tensor) (B : nat) (w : W P G) :
  shape images = [B; Y; X] -> length (data images) = B * (Y * X) ->
  let sts := base_stage forward base_indr self (model w) (chunks (Y * X) B (data images)) in
  bind (eval_base_grid forward self images) (fun min_i =>
  bind (lift (np_take (base_quat self) min_i)) (fun min_quat =>
    let (s2i, s1i) := get_base_indr base_indr min_i in
    ret (mk_state min_quat s2i s1i))) w =
  (Ok (state_arrays sts), after_call forward w (coordinates self (base_rots self)))
  /\ length sts = B /\ Forall quat4 sts.
Proof.
  intros Hs Hd sts.
  destruct base_quats_length as [HFq HLq].
  set (imgs := chunks (Y * X) B (data images)) in *.
  set (renders := render_batch forward self (model w) (base_rots self)).
  assert (Hlr : length renders = Q).
  { unfold renders, render_batch. now rewrite chunks_length, base_rots_length. }
  assert (Hsel : forall img, select img renders < Q).
  { intros img. rewrite <- Hlr. apply select_lt. intros E. rewrite E in Hlr.
    pose proof (env_grid_nonempty Henv). simpl in Hlr. lia. }
  assert (Hl : length sts = B).
  { unfold sts, base_stage. rewrite length_map. apply chunks_length. }
  assert (HF : Forall quat4 sts).
  { unfold sts, base_stage. apply Forall_map, Forall_forall. intros img _.
    unfold quat4. cbn [best_quat]. rewrite Forall_forall in HFq.
    apply HFq, nth_In. rewrite HLq. apply Hsel. }
  split; [|split; assumption].
  rewrite (@bind_eq _ _ _ _ _ _ _ (@eval_base_grid_ok images B w Hs Hd)).
  rewrite base_quat_rows, np_take_rows; auto.
  2:{ cbn [data]. apply Forall_map, Forall_forall. intros img _. apply Hsel. }
  rewrite bind_lift_Ok. unfold get_base_indr, nd_map, ret. cbn [shape data app].
  do 2 f_equal. unfold state_arrays. rewrite Hl.
  unfold sts, base_stage. fold imgs renders.
  rewrite !map_map, !flat_map_concat_map, !map_map. reflexivity.
Qed.

(** [opt_theta] computes the search of the specification. *)
Lemma opt_theta_refines (images : tensor) (B niter : nat) (w : W P G) :
  shape images = [B; Y; X] -> length (data images) = B * (Y * X) ->
  1 <= B -> training (model w) = false ->
  exists cs,
    opt_theta forward quat_to_rot base_indr get_neighbor self images niter w =
    (Ok (mk_nd [B; 3; 3]
               (concat (search_spec forward quat_to_rot base_indr get_neighbor self (model w)
                                    (chunks (Y * X) B (data images)) niter))),
     mk_world (model w) (grad_enabled w) (rng w) (calls w ++ cs))
    /\ length cs = S niter
    /\ Forall (fun c => call_training c = false /\ call_grad c = false) cs.
Proof.
  intros Hs Hd HB Ht.
  set (w0 := mk_world (model w) false (rng w) (calls w)).
  destruct (@base_stage_ok images B w0 Hs Hd) as (Hbase & Hl0 & HF0).
  cbn [model w0] in Hbase, Hl0, HF0.
  rewrite after_call_inference in Hbase by exact Ht.
  set (sts0 := base_stage forward base_indr self (model w)
                          (chunks (Y * X) B (data images))) in *.
  set (w1 := mk_world _ _ _ _) in Hbase.
  rewrite <- Hl0 in Hs, Hd, HB.
  destruct (@refine_loop_ok images (seq 1 niter) sts0 w1 Hs Hd HB HF0 Ht)
    as (cs & Hloop & Hlc & Hcs & Hl1 & HF1).
  rewrite Hl0 in *. cbn [model grad_enabled rng calls w1 w0] in *.
  set (sts1 := fold_left _ _ sts0) in *.
  exists (mk_call false false (coordinates self (base_rots self)) :: cs).
  unfold opt_theta. unfold size0. rewrite Hs, bind_lift_Ok.
  unfold bind at 1. unfold assert_not_training at 1. rewrite Ht.
  assert (Hbody :
    bind (eval_base_grid forward self images) (fun min_i =>
    bind (lift (np_take (base_quat self) min_i)) (fun min_quat =>
      let (s2i, s1i) := get_base_indr base_indr min_i in
      refine_loop forward quat_to_rot get_neighbor self images B
                  (mk_state min_quat s2i s1i) (seq 1 niter))) w0 =
    (Ok (state_arrays sts1),
     mk_world (model w) false (rng w)
              (calls w ++ mk_call false false (coordinates self (base_rots self)) :: cs))).
  { revert Hbase. unfold bind, lift, ret, get_base_indr.
    destruct (eval_base_grid forward self images w0) as [[mini|e] w'];
      [|discriminate].
    destruct (np_take (base_quat self) mini) as [mq|e]; [|discriminate].
    intros E. destruct (pair_Ok_inv E) as [E1 E2]. rewrite E1, E2, Hloop.
    unfold w1. cbn [calls]. now rewrite <- app_assoc. }
  rewrite (@bind_eq _ _ _ _ _ _ _ (@no_grad_eq _ _ w _ _ Hbody)). cbn [model rng calls].
  unfold lift, state_arrays. cbn [min_quat].
  rewrite quaternions_to_SO3_rows with (N := length sts1) by reflexivity.
  cbn [data]. rewrite Hl1. split; [|split].
  - do 3 f_equal. unfold search_spec. fold sts0 sts1.
    assert (Hc : chunks 4 B (flat_map best_quat sts1) = map best_quat sts1).
    { rewrite flat_map_concat_map. apply chunks_concat'.
      - apply Forall_map. exact HF1.
      - now rewrite length_map. }
    rewrite Hc, flat_map_concat_map, map_map. reflexivity.
  - cbn [length]. now rewrite Hlc, length_seq.
  - constructor; auto.
Qed.

End StageFacts.


(** ** Coordinate-wise render models *)

Lemma removelast_snoc {A : Type} (l : list A) (x : A) : removelast (l ++ [x]) = l.
Proof. now rewrite removelast_app, app_nil_r by discriminate. Qed.

Lemma pointwise_render {P : Type} (f : P -> list F32.t -> F32.t) (m : module P) lead d :
  length d = numel lead * 3 ->
  let y := fst (pointwise f m (mk_nd (lead ++ [3]) d)) in
  numel (shape y) = numel lead /\ length (data y) = numel lead.
Proof.
  intros Hd. unfold pointwise. cbn [fst shape data].
  rewrite removelast_snoc, numel_app, length_map, chunks_length.
  unfold numel at 2. simpl. lia.
Qed.

Lemma pointwise_inference {P : Type} (f : P -> list F32.t -> F32.t) (m : module P) x :
  snd (pointwise f m x) = m.
Proof. reflexivity. Qed.

(** The small instance meets the assumptions of the search. *)
Lemma example_env :
  search_env Example.forward Example.quat_to_rot Example.get_neighbor
             Example.base_SO3_grid 4 2 2.
Proof.
  constructor; try reflexivity; try lia.
  - intros q a b level Hq. repeat split.
  - intros m lead d Hd. now apply pointwise_render.
Qed.

Lemma example_neighbor_sets k : neighbor_sets (Example.get_neighbor_k k) k.
Proof.
  intros q a b level _. unfold Example.get_neighbor_k. cbn [fst snd shape data].
  repeat split.
  - rewrite (flat_map_length_uniform _ (n := 4)); [now rewrite length_seq|].
    intros j _. now rewrite length_map, length_seq.
  - rewrite (flat_map_length_uniform _ (n := 2)); [now rewrite length_seq|].
    intros j _. reflexivity.
Qed.

Lemma example_self :
  BNBOpt_init Example.quat_to_rot Example.base_SO3_grid 2 2 = Ok Example.self.
Proof. reflexivity. Qed.


(** ** What each stage selects *)

Lemma first_min_nan errs i : first_min errs i -> selects_first_nan errs i.
Proof.
  intros (x & Hx & Hall & Hbefore) [j Hj].
  assert (x = F32.nan) by (apply tle_to_nan; eauto). subst x.
  split; auto. intros j' Hlt E. specialize (Hbefore _ _ Hlt E). discriminate.
Qed.

Lemma first_min_inf errs i : first_min errs i -> inf_only_if_all errs i.
Proof.
  intros (x & Hx & Hall & _) Hi j y Hy.
  assert (x = F32.inf) by congruence. subst x.
  specialize (Hall _ _ Hy). unfold tle in Hall. cbn in Hall.
  now apply leb_inf.
Qed.

Lemma select_first_min img rends : rends <> [] -> first_min (scores img rends) (select img rends).
Proof.
  intros H. apply argmin_first_min. unfold scores.
  destruct rends; [congruence|discriminate].
Qed.

Section StageSelection.

Variables (P G : Type).
Variable forward : module P -> tensor -> tensor * module P.
Variable quat_to_rot : list F32.t -> list F32.t.
Variable get_neighbor : tensor -> ndarray Z -> ndarray Z -> nat -> tensor * ndarray Z.
Variable base_SO3_grid : tensor.
Variables (Q Y X : nat).
Hypothesis Henv : search_env forward quat_to_rot get_neighbor base_SO3_grid Q Y X.
Variable self : BNBOpt.
Hypothesis Hself : BNBOpt_init quat_to_rot base_SO3_grid Y X = Ok self.

Variable images : tensor.
Variable B : nat.
Hypothesis Hshape : shape images = [B; Y; X].
Hypothesis Hdata : length (data images) = B * (Y * X).

(** The base stage returns, for each image, the first minimal index of
    its errors against the rendered base grid. *)
Lemma base_stage_selection (w : W P G) :
  let renders := render_batch forward self (model w) (base_rots self) in
  exists mini,
    eval_base_grid forward self images w =
    (Ok (mk_nd [B] mini), after_call forward w (coordinates self (base_rots self)))
    /\ Forall2 (fun img i => first_min (scores img renders) i)
               (chunks (Y * X) B (data images)) mini.
Proof.
  intros renders. eexists. split.
  - apply (eval_base_grid_ok Henv Hself images w Hshape Hdata).
  - fold renders.
    assert (Hne : renders <> []).
    { intros E. apply (f_equal (@length _)) in E. unfold renders, render_batch in E.
      rewrite chunks_length, (base_rots_length Henv Hself) in E.
      pose proof (env_grid_nonempty Henv). simpl in E. lia. }
    induction (chunks (Y * X) B (data images)) as [|img imgs IH]; constructor; auto.
    now apply select_first_min.
Qed.

(** A refinement stage on eight candidates per image returns, for each
    image, the first minimal index of its errors against its own eight
    rendered candidates. *)
Lemma refine_stage_selection (quats : list tensor) (w : W P G) :
  1 <= B -> length quats = B ->
  Forall (fun q => shape q = [8; 4] /\ length (data q) = 8 * 4) quats ->
  let rots := map quat_to_rot (candidates_of 8 quats) in
  let renders := render_batch forward self (model w) rots in
  exists mini,
    eval_incremental_grid forward quat_to_rot self images quats w =
    (Ok (mk_nd [B] mini), after_call forward w (coordinates self rots))
    /\ Forall2 (fun img_rends i => first_min (scores (fst img_rends) (snd img_rends)) i)
               (combine (chunks (Y * X) B (data images)) (chunks 8 B renders)) mini.
Proof.
  intros HB Hl HF rots renders.
  assert (Hne : quats <> []) by (intros E; rewrite E in Hl; simpl in Hl; lia).
  eexists. split.
  - rewrite (eval_incremental_grid_rows Henv Hself images (B := B) (B' := B) w
               Hshape Hdata Hne HF) by (auto; lia).
    rewrite bdim_refl, !bcast_same. reflexivity.
  - fold rots renders. rewrite zip_with_combine.
    assert (Hlr : length renders = B * 8).
    { unfold renders, render_batch. rewrite chunks_length. unfold rots.
      rewrite length_map. destruct (candidates_of_spec HF) as (_ & _ & Hc).
      rewrite Hc. lia. }
    pose proof (chunks_Forall 8 B renders Hlr) as Hch.
    assert (Hall : Forall (fun p : list F32.t * list (list F32.t) => snd p <> [])
                          (combine (chunks (Y * X) B (data images)) (chunks 8 B renders))).
    { apply Forall_forall. intros [img rends] Hin. cbn [snd].
      apply in_combine_r in Hin. rewrite Forall_forall in Hch.
      specialize (Hch _ Hin). intros E. rewrite E in Hch. discriminate. }
    induction Hall as [|p ps Hp _ IH]; constructor; auto.
    now apply select_first_min.
Qed.

End StageSelection.

(** ** Degenerate and failing calls *)

Section FailurePaths.

Variables (P G : Type).
Variable forward : module P -> tensor -> tensor * module P.
Variable quat_to_rot : list F32.t -> list F32.t.
Variable base_indr : nat -> Z * Z.
Variable get_neighbor : tensor -> ndarray Z -> ndarray Z -> nat -> tensor * ndarray Z.
Variable base_SO3_grid : tensor.
Variables (Q Y X : nat).
Hypothesis Henv : search_env forward quat_to_rot get_neighbor base_SO3_grid Q Y X.
Variable self : BNBOpt.
Hypothesis Hself : BNBOpt_init quat_to_rot base_SO3_grid Y X = Ok self.

Lemma search_body_split images B niter (w : W P G) :
  search_body forward quat_to_rot base_indr get_neighbor self images B niter w =
  bind (base_part forward base_indr self images)
       (fun st => refine_loop forward quat_to_rot get_neighbor self images B st (seq 1 niter)) w.
Proof.
  unfold search_body, base_part, bind, lift, ret, get_base_indr.
  destruct (eval_base_grid forward self images w) as [[mini|e] w']; auto.
  destruct (np_take (base_quat self) mini); auto.
Qed.

(** In inference mode, [opt_theta] runs its body with gradients off and
    converts the final quaternions. *)
Lemma opt_theta_unfold images B s niter (w : W P G) :
  shape images = B :: s -> training (model w) = false ->
  opt_theta forward quat_to_rot base_indr get_neighbor self images niter w =
  let w0 := mk_world (model w) false (rng w) (calls w) in
  let restore w' := mk_world (model w') (grad_enabled w) (rng w') (calls w') in
  match search_body forward quat_to_rot base_indr get_neighbor self images B niter w0 with
  | (Ok st, w') => (quaternions_to_SO3 quat_to_rot (min_quat st), restore w')
  | (Raise e, w') => (Raise e, restore w')
  end.
Proof.
  intros Hs Ht. unfold opt_theta, size0. rewrite Hs, bind_lift_Ok.
  unfold bind at 1. unfold assert_not_training at 1. rewrite Ht.
  unfold bind at 1. unfold no_grad.
  fold (search_body (G := G) forward quat_to_rot base_indr get_neighbor self images B niter).
  cbv zeta.
  destruct (search_body forward quat_to_rot base_indr get_neighbor self images B niter _)
    as [[st|e] w']; reflexivity.
Qed.

(** In training mode the assertion fails before anything else happens. *)
Lemma opt_theta_training images B s niter (w : W P G) :
  shape images = B :: s -> training (model w) = true ->
  opt_theta forward quat_to_rot base_indr get_neighbor self images niter w =
  (Raise AssertionError, w).
Proof.
  intros Hs Ht. unfold opt_theta, size0. rewrite Hs, bind_lift_Ok.
  unfold bind at 1. unfold assert_not_training at 1. now rewrite Ht.
Qed.

(** Images whose height or width cannot be broadcast against the lattice
    make the base stage fail in the subtraction, after the render query. *)
Lemma eval_base_grid_mismatch (images : tensor) B Y' X' (w : W P G) :
  shape images = [B; Y'; X'] ->
  bcompat Y' Y && bcompat X' X = false ->
  eval_base_grid forward self images w =
  (Raise BroadcastError, after_call forward w (coordinates self (base_rots self))).
Proof.
  intros Hs Hc. destruct images as [s d]. cbn [shape data] in *. subst s.
  destruct (self_fields Henv Hself) as (Hy & Hx & Hl & Hq & Hr).
  pose proof (base_rots_length Henv Hself) as HL.
  destruct (base_quats_length Henv Hself) as [HFq HLq].
  pose proof (env_ny Henv) as HY. pose proof (env_nx Henv) as HX.
  assert (Hm : matmul (lattice self) (base_rot self) = Ok (coordinates self (base_rots self))).
  { rewrite <- (matmul_coordinates Henv Hself (N := Q)); auto.
    - f_equal. rewrite Hr. f_equal. rewrite (base_rots_eq Henv Hself).
      unfold base_quats. rewrite Hq, (env_grid_shape Henv). cbn [hd].
      now rewrite flat_map_concat_map.
    - rewrite (base_rots_eq Henv Hself). apply Forall_map.
      eapply Forall_impl; [|exact HFq]. intros q Hq'. now apply (env_rot Henv). }
  unfold eval_base_grid. rewrite Hm, bind_lift_Ok, bind_call_model.
  fold (after_call forward w (coordinates self (base_rots self))).
  set (y := fst (forward (model w) (coordinates self (base_rots self)))).
  destruct (render_answer Henv Hself (model w) (base_rots self)) as [Hny Hdy].
  fold y in Hny, Hdy. rewrite HL in Hny, Hdy. rewrite Hy, Hx.
  rewrite view_infer_ok with (Q := Q) by (rewrite numel2; nia).
  rewrite bind_lift_Ok.
  change (unsqueeze 0 (mk_nd [Q; Y; X] (data y))) with (Ok (mk_nd [1; Q; Y; X] (data y))).
  rewrite bind_lift_Ok.
  change (unsqueeze 0 (mk_nd [B; Y'; X'] d)) with (Ok (mk_nd [1; B; Y'; X'] d)).
  cbn [rbind]. unfold transpose01 at 1. cbn [shape]. rewrite bind_lift_Ok, score_tail.
  unfold tsub, broadcast2. cbn [shape]. rewrite broadcast_shapes_4.
  rewrite <- !andb_assoc, Hc, !andb_false_r. reflexivity.
Qed.

Lemma opt_theta_mismatch (images : tensor) B Y' X' niter (w : W P G) :
  shape images = [B; Y'; X'] ->
  bcompat Y' Y && bcompat X' X = false ->
  training (model w) = false ->
  opt_theta forward quat_to_rot base_indr get_neighbor self images niter w =
  (Raise BroadcastError,
   mk_world (model w) (grad_enabled w) (rng w)
            (calls w ++ [mk_call false false (coordinates self (base_rots self))])).
Proof.
  intros Hs Hc Ht. rewrite (@opt_theta_unfold images _ _ niter w Hs Ht). cbv zeta.
  unfold search_body.
  erewrite bind_raise by (apply (@eval_base_grid_mismatch images _ _ _ _ Hs Hc)).
  rewrite (after_call_inference Henv) by exact Ht. reflexivity.
Qed.

(** An empty batch passes the base stage, and fails at the first
    refinement level, where there is nothing to concatenate. *)
Lemma opt_theta_empty (images : tensor) niter (w : W P G) :
  shape images = [0; Y; X] -> data images = [] ->
  training (model w) = false ->
  opt_theta forward quat_to_rot base_indr get_neighbor self images niter w =
  (match niter with
   | 0 => Ok (mk_nd [0; 3; 3] [])
   | S _ => Raise ConcatError
   end,
   mk_world (model w) (grad_enabled w) (rng w)
            (calls w ++ [mk_call false false (coordinates self (base_rots self))])).
Proof.
  intros Hs Hd Ht. rewrite (@opt_theta_unfold images _ _ niter w Hs Ht). cbv zeta.
  rewrite search_body_split.
  set (w0 := mk_world (model w) false (rng w) (calls w)).
  assert (Hlen : length (data images) = 0 * (Y * X)) by now rewrite Hd.
  destruct (@base_stage_ok _ _ _ _ base_indr _ _ _ _ _ Henv _ Hself images 0 w0 Hs Hlen)
    as (Hbase & _).
  rewrite Hd in Hbase. cbn [chunks base_stage map] in Hbase.
  rewrite (after_call_inference Henv) in Hbase by exact Ht.
  fold (base_part (G := G) forward base_indr self images) in Hbase.
  rewrite (@bind_eq _ _ _ _ _ _ _ _ _ Hbase).
  destruct niter as [|n]; reflexivity.
Qed.

End FailurePaths.

(** ** The hard-coded fan-out of the refinement stage *)

Section FanOut.

Variables (P G : Type).
Variable forward : module P -> tensor -> tensor * module P.
Variable quat_to_rot : list F32.t -> list F32.t.
Variable get_neighbor : tensor -> ndarray Z -> ndarray Z -> nat -> tensor * ndarray Z.
Variable base_SO3_grid : tensor.
Variables (Q Y X : nat).
Hypothesis Henv : search_env forward quat_to_rot get_neighbor base_SO3_grid Q Y X.
Variable self : BNBOpt.
Hypothesis Hself : BNBOpt_init quat_to_rot base_SO3_grid Y X = Ok self.

Variable images : tensor.
Variable B : nat.
Hypothesis Hshape : shape images = [B; Y; X].
Hypothesis Hdata : length (data images) = B * (Y * X).
Hypothesis HB : 1 <= B.

Variable k : nat.
Variable quats : list tensor.
Hypothesis Hquats : length quats = B.
Hypothesis Hk : Forall (fun q => shape q = [k; 4] /\ length (data q) = k * 4) quats.

Lemma incremental_outcomes (w : W P G) :
  let imgs := chunks (Y * X) B (data images) in
  let renders := render_batch forward self (model w)
                              (map quat_to_rot (candidates_of k quats)) in
  let r := fst (eval_incremental_grid forward quat_to_rot self images quats w) in
  (k = 8 -> r = Ok (mk_nd [B] (zip_with select imgs (chunks 8 B renders))))
  /\ (k <> 8 ->
      ((B * k) mod 8 <> 0 /\ r = Raise ViewError)
      \/ (exists B', B * k = B' * 8 /\ B' <> B /\ B <> 1 /\ B' <> 1
                     /\ r = Raise BroadcastError)
      \/ (exists B', B * k = B' * 8 /\ B' <> B /\ (B = 1 \/ B' = 1)
                     /\ chunks 8 B' renders <> chunks k B renders
                     /\ r = Ok (mk_nd [bdim B B']
                                  (zip_with select
                                     (bcast B (bdim B B') imgs)
                                     (bcast B' (bdim B B') (chunks 8 B' renders)))))).
Proof.
  intros imgs renders r.
  assert (Hne : quats <> []) by (intros E; rewrite E in Hquats; simpl in Hquats; lia).
  split.
  - intros ->. unfold r.
    rewrite (eval_incremental_grid_rows Henv Hself images (B := B) (B' := B) w
               Hshape Hdata Hne Hk) by (auto; lia).
    cbn [fst]. now rewrite bdim_refl, !bcast_same.
  - intros Hk8. destruct (Nat.eq_dec ((B * k) mod 8) 0) as [Hmod|Hmod].
    + right.
      assert (HB' : B * k = (B * k / 8) * 8).
      { pose proof (Nat.Div0.div_exact (B * k) 8) as [_ E]. specialize (E Hmod). lia. }
      set (B' := B * k / 8) in *.
      assert (Hneq : B' <> B) by nia.
      destruct (Nat.eq_dec B 1) as [H1|H1]; [|destruct (Nat.eq_dec B' 1) as [H2|H2]].
      * right. exists B'. repeat split; auto.
        -- intros E. apply (f_equal (@length _)) in E. rewrite !chunks_length in E. lia.
        -- unfold r.
           now rewrite (eval_incremental_grid_rows Henv Hself images (B := B) (B' := B') w
                          Hshape Hdata Hne Hk) by (auto; lia).
      * right. exists B'. repeat split; auto.
        -- intros E. apply (f_equal (@length _)) in E. rewrite !chunks_length in E. lia.
        -- unfold r.
           now rewrite (eval_incremental_grid_rows Henv Hself images (B := B) (B' := B') w
                          Hshape Hdata Hne Hk) by (auto; lia).
      * left. exists B'. repeat split; auto. unfold r.
        now rewrite (eval_incremental_grid_broadcast_error Henv Hself images (B := B) (B' := B')
                       w Hshape Hne Hk) by (auto; lia).
    + left. split; auto. unfold r.
      now rewrite (eval_incremental_grid_view_error Henv Hself images w Hne Hk)
        by (rewrite Hquats; exact Hmod).
Qed.

End FanOut.

(** ** The collaborators of a refinement step *)

Lemma stage_env_neighbors (P : Type) (forward : module P -> tensor -> tensor * module P)
    quat_to_rot get_neighbor grid Q Y X :
  stage_env forward quat_to_rot grid Q Y X -> neighbor_sets get_neighbor 8 ->
  search_env forward quat_to_rot get_neighbor grid Q Y X.
Proof.
  intros [H1 H2 H3 H4 H5 H6 H7 H8] Hn. constructor; auto.
Qed.

Lemma stage_env_some (P : Type) (forward : module P -> tensor -> tensor * module P)
    quat_to_rot grid Q Y X :
  stage_env forward quat_to_rot grid Q Y X ->
  exists get_neighbor, search_env forward quat_to_rot get_neighbor grid Q Y X.
Proof.
  intros H.
  exists (fun _ _ _ _ => (mk_nd [8; 4] (repeat F32.zero 32), mk_nd [8; 2] (repeat 0%Z 16))).
  apply stage_env_neighbors; auto.
  intros q a b level _. cbn. repeat split; reflexivity.
Qed.

Lemma search_env_stage (P : Type) (forward : module P -> tensor -> tensor * module P)
    quat_to_rot get_neighbor grid Q Y X :
  search_env forward quat_to_rot get_neighbor grid Q Y X ->
  stage_env forward quat_to_rot grid Q Y X /\ neighbor_sets get_neighbor 8.
Proof.
  intros [H1 H2 H3 H4 H5 H6 H7 H8 H9]. split; [constructor; auto|exact H7].
Qed.

(** ** The refinement step and the hard-coded fan-out *)

Section FanOutStep.

Variables (P G : Type).
Variable forward : module P -> tensor -> tensor * module P.
Variable quat_to_rot : list F32.t -> list F32.t.
Variable get_neighbor : tensor -> ndarray Z -> ndarray Z -> nat -> tensor * ndarray Z.
Variable base_SO3_grid : tensor.
Variables (Q Y X k : nat).
Hypothesis Hstage : stage_env forward quat_to_rot base_SO3_grid Q Y X.
Hypothesis Hnb : neighbor_sets get_neighbor k.
Variable self : BNBOpt.
Hypothesis Hself : BNBOpt_init quat_to_rot base_SO3_grid Y X = Ok self.

Variable images : tensor.
Variable sts : list image_state.
Variable level : nat.
Variable w : W P G.

Let B := length sts.
Hypothesis Hshape : shape images = [B; Y; X].
Hypothesis Hdata : length (data images) = B * (Y * X).
Hypothesis HB : 1 <= B.
Hypothesis Hsts : Forall quat4 sts.

Let nbrs := map (neighbors_of get_neighbor level) sts.
Let quats := map fst nbrs.
Let rots := map quat_to_rot (candidates_of k quats).
Let renders := render_batch forward self (model w) rots.
Let imgs := chunks (Y * X) B (data images).

Lemma neighbors_shape_k :
  Forall (fun nb => shape (fst nb) = [k; 4] /\ length (data (fst nb)) = k * 4
                    /\ shape (snd nb) = [k; 2] /\ length (data (snd nb)) = k * 2) nbrs.
Proof.
  apply Forall_map. eapply Forall_impl; [|exact Hsts].
  intros st Hst. unfold neighbors_of. now apply Hnb.
Qed.

Lemma quats_shape_k :
  quats <> [] /\ length quats = B
  /\ Forall (fun q => shape q = [k; 4] /\ length (data q) = k * 4) quats.
Proof.
  assert (Hl : length quats = B) by (unfold quats, nbrs; now rewrite !length_map).
  split; [|split; auto].
  - intros E. rewrite E in Hl. simpl in Hl. lia.
  - apply Forall_map. eapply Forall_impl; [|exact neighbors_shape_k].
    intros nb (H1 & H2 & _). split; [exact H1 | exact H2].
Qed.

Lemma refine_step_neighbors (rest : list (tensor * ndarray Z) -> M P G search_state) :
  bind (lift (rmap (fun i =>
                rbind (nd_get (min_quat (state_arrays sts)) i) (fun q =>
                rbind (nd_get (s2i (state_arrays sts)) i) (fun a =>
                rbind (nd_get (s1i (state_arrays sts)) i) (fun b =>
                Ok (get_neighbor q a b level)))))
              (seq 0 B))) rest w = rest nbrs w.
Proof.
  unfold B. rewrite (neighbors_rmap get_neighbor level Hsts). apply bind_lift_Ok.
Qed.

(** A step whose rendered batch does not reshape to rows of 8. *)
Lemma refine_step_view_error :
  (B * k) mod 8 <> 0 ->
  fst (refine_step forward quat_to_rot get_neighbor self images B (state_arrays sts) level w)
  = Raise ViewError.
Proof.
  intros Hmod. destruct (stage_env_some Hstage) as [gn Henv].
  destruct quats_shape_k as (Hne & Hl & HF).
  unfold refine_step. rewrite refine_step_neighbors. fold quats.
  erewrite bind_raise; [reflexivity|].
  apply (eval_incremental_grid_view_error Henv Hself images w Hne HF).
  now rewrite Hl.
Qed.

(** A step whose [B'] rows of 8 do not broadcast against the [B] images. *)
Lemma refine_step_broadcast_error B' :
  B * k = B' * 8 -> B <> B' -> B <> 1 -> B' <> 1 ->
  fst (refine_step forward quat_to_rot get_neighbor self images B (state_arrays sts) level w)
  = Raise BroadcastError.
Proof.
  intros HB' H1 H2 H3. destruct (stage_env_some Hstage) as [gn Henv].
  destruct quats_shape_k as (Hne & Hl & HF).
  unfold refine_step. rewrite refine_step_neighbors. fold quats.
  erewrite bind_raise; [reflexivity|].
  apply (eval_incremental_grid_broadcast_error Henv Hself images (B := B) (B' := B') w
           Hshape Hne HF); auto.
  now rewrite Hl.
Qed.

(** The indices the scoring returns when the [B'] rows of 8 broadcast
    against the [B] images: one per row of the broadcast, each below 8. *)
Lemma step_indices B' :
  B * k = B' * 8 -> B = B' \/ B = 1 \/ B' = 1 ->
  let R := bdim B B' in
  let js := zip_with select (bcast B R imgs) (bcast B' R (chunks 8 B' renders)) in
  length js = R /\ Forall (fun j => j < 8) js.
Proof.
  intros HB' Hc R js.
  destruct quats_shape_k as (Hne & Hl & HF).
  assert (HR : B = R \/ B = 1).
  { unfold R. destruct Hc as [<-|[->| ->]]; [left; now rewrite bdim_refl|now right|].
    left. now rewrite bdim_1_r. }
  assert (HR' : B' = R \/ B' = 1).
  { unfold R. destruct Hc as [<-|[->| ->]]; [left; now rewrite bdim_refl| |now right].
    left. now rewrite bdim_1_l. }
  assert (Hlr : length renders = B' * 8).
  { unfold renders, render_batch. rewrite chunks_length. unfold rots.
    rewrite length_map.
    destruct (candidates_of_spec HF) as (_ & _ & Hcs). rewrite Hcs, Hl. exact HB'. }
  split.
  - unfold js. rewrite zip_with_length.
    rewrite !bcast_length; auto using chunks_length; try apply chunks_length. lia.
  - unfold js. rewrite zip_with_combine. apply Forall_map, Forall_forall.
    intros [img rends] Hin. cbn [fst snd]. apply in_combine_r in Hin.
    pose proof (@bcast_Forall _ (fun c => length c = 8) B' R _
                  (chunks_Forall 8 B' renders Hlr)) as Hch.
    rewrite Forall_forall in Hch. specialize (Hch _ Hin). cbv beta in Hch.
    rewrite <- Hch. apply select_lt. intros E. now rewrite E in Hch.
Qed.

(** A step whose [B'] rows of 8 broadcast against the [B] images: every
    row of the broadcast gets the arg-min over 8 consecutive candidates
    of the batch, and that index is looked up among the [k] neighbours. *)
Lemma refine_step_rows B' :
  B * k = B' * 8 -> B = B' \/ B = 1 \/ B' = 1 ->
  let R := bdim B B' in
  let js := zip_with select (bcast B R imgs) (bcast B' R (chunks 8 B' renders)) in
  fst (refine_step forward quat_to_rot get_neighbor self images B (state_arrays sts) level w)
  = if forallb (fun j => j <? k) js
    then Ok (state_arrays (zip_with (fun j nb => candidate nb j) js (bcast B R nbrs)))
    else Raise IndexError.
Proof.
  intros HB' Hc R js. destruct (stage_env_some Hstage) as [gn Henv].
  destruct quats_shape_k as (Hne & Hl & HF).
  pose proof neighbors_shape_k as Hnbrs.
  assert (Hln : length nbrs = B) by (unfold nbrs; now rewrite length_map).
  assert (HR : B = R \/ B = 1).
  { unfold R. destruct Hc as [<-|[->| ->]]; [left; now rewrite bdim_refl|now right|].
    left. now rewrite bdim_1_r. }
  destruct (step_indices HB' Hc) as [Hljs Hjs]. fold R js in Hljs, Hjs.
  unfold refine_step. rewrite refine_step_neighbors. fold quats.
  rewrite bind_eq with (a := mk_nd [R] js)
                       (w' := after_call forward w (coordinates self rots)).
  2:{ apply (eval_incremental_grid_rows Henv Hself images (B := B) (B' := B') w
               Hshape Hdata Hne HF); auto. now rewrite Hl. }
  rewrite np_stack_rows with (s := [k; 2]).
  2:{ intros E. apply (f_equal (@length _)) in E. rewrite length_map, Hln in E.
      simpl in E. lia. }
  2:{ apply Forall_map. eapply Forall_impl; [|exact Hnbrs].
      intros nb (_ & _ & H & _). exact H. }
  cbn [rbind]. rewrite length_map, Hln.
  destruct (forallb (fun j => j <? k) js) eqn:Hall.
  - assert (Hjk : Forall (fun j => j < k) js).
    { apply Forall_forall. intros j Hj. rewrite forallb_forall in Hall.
      apply Nat.ltb_lt. auto. }
    rewrite np_index2_bcast; auto.
    2:{ now rewrite length_map. }
    2:{ apply Forall_map. eapply Forall_impl; [|exact Hnbrs].
        intros nb (_ & _ & _ & H). exact H. }
    rewrite bind_lift_Ok.
    rewrite unpack2_T with (d := 0%Z).
    2:{ rewrite zip_with_length, bcast_length; rewrite ?length_map; auto. lia. }
    2:{ rewrite zip_with_combine. apply Forall_map, Forall_forall.
        intros [a j] Hin. cbn [fst snd].
        pose proof (in_combine_l _ _ _ _ Hin) as Ha.
        pose proof (in_combine_r _ _ _ _ Hin) as Hj.
        assert (HFa : Forall (fun a => length (data a) = k * 2) (bcast B R (map snd nbrs))).
        { apply bcast_Forall, Forall_map. eapply Forall_impl; [|exact Hnbrs].
          intros nb (_ & _ & _ & H). exact H. }
        rewrite Forall_forall in Hjk, HFa.
        specialize (Hjk _ Hj). specialize (HFa _ Ha). cbv beta in HFa.
        pose proof (chunks_Forall 2 k (data a) HFa) as Hch.
        rewrite Forall_forall in Hch. apply Hch. apply nth_In.
        now rewrite chunks_length. }
    rewrite bind_lift_Ok.
    rewrite np_stack_rows with (s := [k; 4]).
    2: exact Hne.
    2:{ apply Forall_map. eapply Forall_impl; [|exact Hnbrs].
        intros nb (H & _). exact H. }
    cbn [rbind]. replace (@length (ndarray F32.t) quats) with B by (symmetry; exact Hl).
    rewrite np_index2_bcast; auto.
    2:{ eapply Forall_impl; [|exact HF]. intros q [_ H]. exact H. }
    rewrite bind_lift_Ok. unfold ret. cbn [fst]. f_equal.
    unfold state_arrays.
    rewrite zip_with_length, bcast_length by (auto; lia).
    rewrite Hljs, Nat.min_id.
    unfold quats. rewrite !bcast_map.
    rewrite !zip_with_map_l, !map_zip_with, flat_map_concat_map, map_zip_with.
    repeat rewrite (zip_with_flip _ (bcast B R nbrs) js).
    assert (E4 : zip_with (fun (b : nat) (a : tensor * ndarray Z) =>
                             nth b (chunks 4 k (data (fst a))) []) js (bcast B R nbrs)
                 = zip_with (fun (a : nat) (b : tensor * ndarray Z) =>
                               best_quat (candidate b a)) js (bcast B R nbrs)).
    { apply zip_with_ext. intros j nb Hj _. unfold candidate. cbn [best_quat].
      rewrite Forall_forall in Hjs, Hjk. apply chunks_nth_prefix; auto. }
    assert (E2 : forall c,
               zip_with (fun (b : nat) (a : tensor * ndarray Z) =>
                           nth c (nth b (chunks 2 k (data (snd a))) []) 0%Z)
                        js (bcast B R nbrs)
               = zip_with (fun (b : nat) (a : tensor * ndarray Z) =>
                             nth c (nth b (chunks 2 8 (data (snd a))) []) 0%Z)
                          js (bcast B R nbrs)).
    { intros c. apply zip_with_ext. intros j nb Hj _.
      rewrite Forall_forall in Hjs, Hjk. f_equal. apply chunks_nth_prefix; auto. }
    rewrite E4, !E2. reflexivity.
  - rewrite np_index2_out_of_range; auto.
    apply Exists_exists.
    assert (Hex : exists j, In j js /\ (j <? k) = false).
    { clear - Hall. induction js as [|j l IH]; [discriminate|].
      cbn [forallb] in Hall. apply andb_false_iff in Hall as [H|H].
      - exists j. split; [now left|exact H].
      - destruct (IH H) as (j' & Hin & Hj'). exists j'. split; [now right|exact Hj']. }
    destruct Hex as (j & Hin & Hj). exists j. split; auto.
    apply Nat.ltb_ge in Hj. exact Hj.
Qed.

(** The outcomes of a refinement step by the number [k] of candidates the
    enumeration returns per image. *)
Lemma refine_step_outcomes :
  let r := fst (refine_step forward quat_to_rot get_neighbor self images B
                            (state_arrays sts) level w) in
  (k = 8 ->
   r = Ok (state_arrays (refine_stage forward quat_to_rot get_neighbor self (model w)
                                      imgs sts level)))
  /\ (k <> 8 ->
      ((B * k) mod 8 <> 0 /\ r = Raise ViewError)
      \/ (exists B', B * k = B' * 8 /\ B' <> B /\ B <> 1 /\ B' <> 1
                     /\ r = Raise BroadcastError)
      \/ (exists B', B * k = B' * 8 /\ B' <> B /\ (B = 1 \/ B' = 1)
                     /\ chunks 8 B' renders <> chunks k B renders
                     /\ let R := bdim B B' in
                        let js := zip_with select (bcast B R imgs)
                                           (bcast B' R (chunks 8 B' renders)) in
                        (B' = 1 /\ Exists (fun j => k <= j) js /\ r = Raise IndexError)
                        \/ (Forall (fun j => j < k) js
                            /\ r = Ok (state_arrays
                                         (zip_with (fun j nb => candidate nb j) js
                                                   (bcast B R nbrs)))))).
Proof.
  intros r. split.
  - intros Hk8. unfold r. clear r. revert Hnb. rewrite Hk8. intros Hnb8.
    pose proof (stage_env_neighbors Hstage Hnb8) as Henv.
    destruct (@refine_step_ok _ _ _ _ _ _ _ _ _ Henv _ Hself images sts level w
                Hshape Hdata HB Hsts) as (Hstep & _).
    fold B in Hstep. rewrite Hstep. reflexivity.
  - intros Hk8. destruct (Nat.eq_dec ((B * k) mod 8) 0) as [Hmod|Hmod].
    + right.
      assert (HB' : B * k = (B * k / 8) * 8).
      { pose proof (Nat.Div0.div_exact (B * k) 8) as [_ E]. specialize (E Hmod). lia. }
      set (B' := B * k / 8) in *.
      assert (Hneq : B' <> B) by nia.
      assert (Hrows : chunks 8 B' renders <> chunks k B renders).
      { intros E. apply (f_equal (@length _)) in E. rewrite !chunks_length in E. lia. }
      destruct (Nat.eq_dec B 1) as [H1|H1]; [|destruct (Nat.eq_dec B' 1) as [H2|H2]].
      * right. exists B'. repeat split; auto. intros R js.
        pose proof (@refine_step_rows B' HB' (or_intror (or_introl H1))) as Hstep.
        destruct (@step_indices B' HB' (or_intror (or_introl H1))) as [Hljs Hjs].
        cbv zeta in Hstep. fold R js in Hstep, Hljs, Hjs. fold r in Hstep.
        assert (Hjk : Forall (fun j => j < k) js).
        { destruct (Nat.eq_dec B' 0) as [H0|H0].
          - assert (E : js = []).
            { apply length_zero_iff_nil. rewrite Hljs. unfold R.
              now rewrite H1, H0. }
            rewrite E. constructor.
          - assert (8 <= k) by nia.
            eapply Forall_impl; [|exact Hjs]. cbv beta. intros j Hj. lia. }
        right. split; [exact Hjk|].
        rewrite Hstep.
        replace (forallb (fun j => j <? k) js) with true; [reflexivity|].
        symmetry. apply forallb_forall. intros j Hj. rewrite Forall_forall in Hjk.
        apply Nat.ltb_lt. auto.
      * right. exists B'. repeat split; auto. intros R js.
        pose proof (@refine_step_rows B' HB' (or_intror (or_intror H2))) as Hstep.
        cbv zeta in Hstep. fold R js in Hstep. fold r in Hstep.
        destruct (forallb (fun j => j <? k) js) eqn:Hall.
        -- right. split; [|exact Hstep].
           apply Forall_forall. intros j Hj. rewrite forallb_forall in Hall.
           apply Nat.ltb_lt. auto.
        -- left. split; [exact H2|]. split; [|exact Hstep].
           apply Exists_exists.
           assert (Hex : exists j, In j js /\ (j <? k) = false).
           { clear - Hall. induction js as [|j l IH]; [discriminate|].
             cbn [forallb] in Hall. apply andb_false_iff in Hall as [H|H].
             - exists j. split; [now left|exact H].
             - destruct (IH H) as (j' & Hin & Hj'). exists j'.
               split; [now right|exact Hj']. }
           destruct Hex as (j & Hin & Hj). exists j. split; auto.
           apply Nat.ltb_ge in Hj. exact Hj.
      * left. exists B'. repeat split; auto.
        now apply refine_step_broadcast_error with (B' := B').
    + left. split; auto. now apply refine_step_view_error.
Qed.

End FanOutStep.

(** ** Independence of the images of a batch *)

Lemma combine_append (A B : Type) (xs : list A) :
  forall (ys : list B) (xs' : list A) (ys' : list B),
    length xs = length ys ->
    combine (xs ++ xs') (ys ++ ys') = combine xs ys ++ combine xs' ys'.
Proof.
  induction xs as [|x xs IH]; intros [|y ys] xs' ys' E;
    try discriminate E; cbn; [reflexivity|].
  now rewrite IH by (injection E; auto).
Qed.

Lemma mm_length n m k a b : length (mm n m k a b) = n * k.
Proof.
  unfold mm. rewrite (flat_map_length_uniform _ (n := k)).
  - now rewrite chunks_length.
  - intros row _. unfold columns. now rewrite !length_map, length_seq.
Qed.

Section BatchIndependence.

Variables (P G : Type).
Variable f : P -> list F32.t -> F32.t.
Variable quat_to_rot : list F32.t -> list F32.t.
Variable base_indr : nat -> Z * Z.
Variable get_neighbor : tensor -> ndarray Z -> ndarray Z -> nat -> tensor * ndarray Z.
Variable self : BNBOpt.
Variable m : module P.

(** A coordinate-wise model renders each rotation of a batch on its own. *)
Lemma render_batch_pointwise (rots : list (list F32.t)) :
  render_batch (pointwise f) self m rots = map (render_one f self m) rots.
Proof.
  unfold render_batch, coordinates, pointwise, render_one. cbn [fst shape data].
  set (n := ny self * nx self).
  change (removelast [length rots; n; 3]) with [length rots; n].
  rewrite numel2.
  assert (Hc : chunks 3 (length rots * n) (flat_map (mm n 3 3 (data (lattice self))) rots)
               = concat (map (fun r => chunks 3 n (mm n 3 3 (data (lattice self)) r)) rots)).
  { induction rots as [|r rots IH]; auto.
    cbn [flat_map length map concat].
    change (S (length rots) * n) with (n + length rots * n).
    rewrite chunks_app by apply mm_length. now rewrite IH. }
  rewrite Hc, concat_map, map_map.
  apply chunks_concat'.
  - apply Forall_map, Forall_forall. intros r _.
    now rewrite length_map, chunks_length.
  - now rewrite length_map.
Qed.

Lemma refine_stage_length imgs sts level :
  length sts = length imgs ->
  length (refine_stage (pointwise f) quat_to_rot get_neighbor self m imgs sts level)
  = length imgs.
Proof.
  intros H. unfold refine_stage.
  rewrite zip_with_length, length_combine, chunks_length, length_map. lia.
Qed.

Lemma refine_stage_app imgs1 imgs2 sts1 sts2 level :
  length sts1 = length imgs1 ->
  refine_stage (pointwise f) quat_to_rot get_neighbor self m
               (imgs1 ++ imgs2) (sts1 ++ sts2) level =
  refine_stage (pointwise f) quat_to_rot get_neighbor self m imgs1 sts1 level
  ++ refine_stage (pointwise f) quat_to_rot get_neighbor self m imgs2 sts2 level.
Proof.
  intros H. unfold refine_stage.
  rewrite !render_batch_pointwise, !map_app, flat_map_app, !map_app, length_app.
  set (n1 := map (neighbors_of get_neighbor level) sts1).
  set (n2 := map (neighbors_of get_neighbor level) sts2).
  set (r1 := map (render_one f self m) (map quat_to_rot _)).
  set (r2 := map (render_one f self m) (map quat_to_rot _)).
  assert (Hr1 : length r1 = length imgs1 * 8).
  { unfold r1. rewrite !length_map.
    rewrite (flat_map_length_uniform _ (n := 8)).
    - unfold n1. rewrite length_map. lia.
    - intros nb _. apply chunks_length. }
  rewrite chunks_app by exact Hr1.
  rewrite combine_append by now rewrite chunks_length.
  apply zip_with_app.
  rewrite length_combine, chunks_length. unfold n1. rewrite length_map. lia.
Qed.

Lemma refine_fold_app levels : forall imgs1 imgs2 sts1 sts2,
  length sts1 = length imgs1 -> length sts2 = length imgs2 ->
  fold_left (refine_stage (pointwise f) quat_to_rot get_neighbor self m (imgs1 ++ imgs2))
            levels (sts1 ++ sts2) =
  fold_left (refine_stage (pointwise f) quat_to_rot get_neighbor self m imgs1) levels sts1
  ++ fold_left (refine_stage (pointwise f) quat_to_rot get_neighbor self m imgs2) levels sts2.
Proof.
  induction levels as [|level levels IH]; intros imgs1 imgs2 sts1 sts2 H1 H2; auto.
  cbn [fold_left]. rewrite refine_stage_app by exact H1.
  apply IH; now apply refine_stage_length.
Qed.

(** The search of a concatenated batch is the concatenation of the
    searches. *)
Lemma search_spec_app imgs1 imgs2 niter :
  search_spec (pointwise f) quat_to_rot base_indr get_neighbor self m (imgs1 ++ imgs2) niter =
  search_spec (pointwise f) quat_to_rot base_indr get_neighbor self m imgs1 niter
  ++ search_spec (pointwise f) quat_to_rot base_indr get_neighbor self m imgs2 niter.
Proof.
  unfold search_spec.
  replace (base_stage (pointwise f) base_indr self m (imgs1 ++ imgs2))
    with (base_stage (pointwise f) base_indr self m imgs1
          ++ base_stage (pointwise f) base_indr self m imgs2)
    by (unfold base_stage; now rewrite map_app).
  rewrite refine_fold_app, map_app; auto;
    unfold base_stage; now rewrite length_map.
Qed.

End BatchIndependence.

(** ** The reparameterised sample *)

Lemma broadcast_rev_refl s : broadcast_rev s s = Some s.
Proof.
  induction s as [|d s IH]; auto.
  cbn [broadcast_rev]. now rewrite IH, Nat.eqb_refl.
Qed.

Lemma broadcast_shapes_refl s : broadcast_shapes s s = Some s.
Proof.
  unfold broadcast_shapes. rewrite broadcast_rev_refl. cbn. now rewrite rev_involutive.
Qed.

Lemma pad_same s : pad (length s) s = s.
Proof. unfold pad. now rewrite Nat.sub_diag. Qed.

(** An elementwise product of two tensors of the same shape. *)
Lemma tmul_same_shape s (a b : list F32.t) :
  length a = numel s -> length b = numel s ->
  tmul (mk_nd s a) (mk_nd s b) = Ok (mk_nd s (zip_with F32.mul a b)).
Proof.
  intros Ha Hb. unfold tmul, broadcast2. cbn [shape data].
  rewrite broadcast_shapes_refl, pad_same. now rewrite !expand_id.
Qed.

Lemma expmap_rows expmap_row N (v : list F32.t) :
  expmap expmap_row (mk_nd [N; 3] v) =
  Ok (mk_nd [N; 3; 3] (flat_map expmap_row (chunks 3 N v))).
Proof.
  unfold expmap. cbn [shape data rev app].
  replace (numel [N]) with N by (unfold numel; simpl; lia). reflexivity.
Qed.

(** The product of two batches of [N] 3x3 matrices, matrix by matrix. *)
Lemma matmul_batched N (a b : list F32.t) :
  length a = N * 9 -> length b = N * 9 ->
  matmul (mk_nd [N; 3; 3] a) (mk_nd [N; 3; 3] b) =
  Ok (mk_nd [N; 3; 3] (concat (zip_with (mm 3 3 3) (chunks 9 N a) (chunks 9 N b)))).
Proof.
  intros Ha Hb. unfold matmul. cbn [shape data length Nat.eqb orb].
  cbn [Nat.sub firstn skipn app Nat.eqb].
  rewrite broadcast_shapes_1, bcompat_refl, bdim_refl.
  change (pad (length [N]) [N]) with [N]. cbn [app].
  assert (Hn : numel [N; 3; 3] = N * 9) by (unfold numel; simpl; lia).
  rewrite !expand_id by (rewrite Hn; assumption).
  replace (numel [N]) with N by (unfold numel; simpl; lia).
  reflexivity.
Qed.

Lemma mul_finite_zero e z :
  F32.is_finite e = true -> F32.is_zero z = true -> F32.is_zero (F32.mul e z) = true.
Proof. destruct e, z; simpl; intros; try discriminate; reflexivity. Qed.

(** A matrix of binary32 numbers times the identity is the same matrix,
    entry by entry, as numbers. *)
Lemma mm_identity (M : list F32.t) :
  length M = 9 -> Forall (fun x => F32.valid x = true) M ->
  Forall2 same_value (mm 3 3 3 M identity3) M.
Proof.
  intros Hl HF.
  destruct M as [|a [|b [|c [|d [|e [|f [|g [|h [|i [|? ?]]]]]]]]]]; try discriminate.
  repeat match goal with
         | H : Forall _ (_ :: _) |- _ => inversion H; clear H; subst
         end.
  unfold mm, identity3, columns. cbn [chunks firstn skipn seq map flat_map pick app].
  destruct (dot_unit a b c) as (? & ? & ?); auto.
  destruct (dot_unit d e f) as (? & ? & ?); auto.
  destruct (dot_unit g h i) as (? & ? & ?); auto.
  repeat constructor; assumption.
Qed.

Lemma Forall2_concat {A B : Type} (R : A -> B -> Prop) (ls : list (list A)) (ms : list (list B)) :
  Forall2 (Forall2 R) ls ms -> Forall2 R (concat ls) (concat ms).
Proof.
  induction 1; simpl; auto. now apply Forall2_app.
Qed.

Lemma bind_randn_like {P G B : Type} (randn : G -> nat -> list F32.t * G)
    (t : tensor) (f : tensor -> M P G B) (w : W P G) :
  bind (randn_like randn t) f w =
  f (mk_nd (shape t) (fst (randn (rng w) (numel (shape t)))))
    (mk_world (model w) (grad_enabled w) (snd (randn (rng w) (numel (shape t)))) (calls w)).
Proof.
  unfold bind, randn_like. now destruct (randn (rng w) (numel (shape t))).
Qed.

Section Reparameterize.

Variables (P G : Type).
Variable randn : G -> nat -> list F32.t * G.
Variable expmap_row : list F32.t -> list F32.t.

Variables (z_mu z_std : tensor) (N : nat).
Hypothesis Hmu_shape : shape z_mu = [N; 3; 3].
Hypothesis Hmu_data : length (data z_mu) = N * 9.
Hypothesis Hstd_shape : shape z_std = [N; 3].
Hypothesis Hstd_data : length (data z_std) = N * 3.

Variable w : W P G.
Hypothesis Hrandn : length (fst (randn (rng w) (N * 3))) = N * 3.

Let eps : list F32.t := fst (randn (rng w) (N * 3)).
Let w_eps : tensor := mk_nd [N; 3] (zip_with F32.mul eps (data z_std)).
Let rot_eps : list (list F32.t) := map expmap_row (chunks 3 N (data w_eps)).
Let w' : W P G :=
  mk_world (model w) (grad_enabled w) (snd (randn (rng w) (N * 3))) (calls w).

Lemma sampleSO3_value :
  Forall (fun r => length r = 9) rot_eps ->
  sampleSO3 randn expmap_row z_mu z_std w =
  (Ok (mk_nd [N; 3; 3] (concat (zip_with (mm 3 3 3) (chunks 9 N (data z_mu)) rot_eps)),
       w_eps), w').
Proof.
  intros Hrot.
  assert (Hn : numel [N; 3] = N * 3) by apply numel2.
  unfold sampleSO3. rewrite bind_randn_like.
  rewrite Hstd_shape, Hn. fold eps. fold w'.
  replace (mk_nd [N; 3] eps) with (mk_nd [N; 3] eps) by reflexivity.
  assert (Hstd : z_std = mk_nd [N; 3] (data z_std))
    by (rewrite <- Hstd_shape; now destruct z_std).
  rewrite Hstd at 1.
  rewrite tmul_same_shape by (rewrite Hn; auto).
  fold w_eps. rewrite bind_lift_Ok. unfold w_eps at 1. rewrite expmap_rows, bind_lift_Ok.
  assert (Hmu : z_mu = mk_nd [N; 3; 3] (data z_mu))
    by (rewrite <- Hmu_shape; now destruct z_mu).
  rewrite Hmu at 1.
  assert (Hre : flat_map expmap_row (chunks 3 N (zip_with F32.mul eps (data z_std)))
                = concat rot_eps).
  { unfold rot_eps, w_eps. cbn [data]. now rewrite flat_map_concat_map. }
  rewrite Hre.
  rewrite matmul_batched; auto.
  2:{ rewrite (concat_length_uniform (n := 9)) by exact Hrot.
      unfold rot_eps. now rewrite length_map, chunks_length. }
  rewrite bind_lift_Ok. unfold ret.
  rewrite chunks_concat' with (ls := rot_eps); auto.
  unfold rot_eps. now rewrite length_map, chunks_length.
Qed.

(** With a zero standard deviation the tangent noise is zero and the
    sample is the mean. *)
Lemma sampleSO3_zero_std :
  Forall (fun x => F32.is_zero x = true) (data z_std) ->
  Forall (fun x => F32.is_finite x = true) eps ->
  Forall (fun x => F32.valid x = true) (data z_mu) ->
  (forall v, length v = 3 -> Forall (fun x => F32.is_zero x = true) v ->
             expmap_row v = identity3) ->
  Forall (fun x => F32.is_zero x = true) (data w_eps)
  /\ Forall (fun r => r = identity3) rot_eps
  /\ Forall2 same_value
             (concat (zip_with (mm 3 3 3) (chunks 9 N (data z_mu)) rot_eps))
             (data z_mu).
Proof.
  intros Hz He Hv Hexp.
  assert (Hw : Forall (fun x => F32.is_zero x = true) (data w_eps)).
  { unfold w_eps. cbn [data]. rewrite zip_with_combine. apply Forall_map, Forall_forall.
    intros [e z] Hin. cbn [fst snd]. rewrite Forall_forall in Hz, He.
    apply mul_finite_zero; [apply He | apply Hz].
    - eapply in_combine_l; eauto.
    - eapply in_combine_r; eauto. }
  assert (Hlw : length (data w_eps) = N * 3).
  { unfold w_eps. cbn [data]. rewrite zip_with_length. fold eps in Hrandn. lia. }
  assert (Hrot : Forall (fun r => r = identity3) rot_eps).
  { unfold rot_eps. apply Forall_map.
    pose proof (chunks_Forall 3 N (data w_eps) Hlw) as Hc.
    rewrite Forall_forall in *. intros v Hin. apply Hexp; auto.
    apply Forall_forall. intros x Hx. apply Hw.
    rewrite <- (concat_chunks 3 N (data w_eps) Hlw). apply in_concat. eauto. }
  split; [exact Hw|]. split; [exact Hrot|].
  rewrite <- (concat_chunks 9 N (data z_mu) Hmu_data) at 2.
  apply Forall2_concat.
  assert (Hlr : length rot_eps = N)
    by (unfold rot_eps; now rewrite length_map, chunks_length).
  pose proof (chunks_Forall 9 N (data z_mu) Hmu_data) as Hc.
  assert (Hcv : Forall (Forall (fun x => F32.valid x = true)) (chunks 9 N (data z_mu))).
  { rewrite Forall_forall in *. intros M HM. apply Forall_forall. intros x Hx.
    apply Hv. rewrite <- (concat_chunks 9 N (data z_mu) Hmu_data).
    apply in_concat. eauto. }
  assert (Hlc : length (chunks 9 N (data z_mu)) = length rot_eps)
    by now rewrite chunks_length.
  clear Hlr. revert Hrot Hlc Hc Hcv.
  generalize rot_eps. generalize (chunks 9 N (data z_mu)).
  induction l as [|M Ms IH]; intros [|r rs] Hrot Hlc Hc Hcv; try discriminate;
    cbn [zip_with]; constructor.
  - inversion Hrot; subst. inversion Hc; subst. inversion Hcv; subst.
    now apply mm_identity.
  - inversion Hrot; subst. inversion Hc; subst. inversion Hcv; subst.
    apply IH; auto.
Qed.

End Reparameterize.

(** ** The lattice is rotated by the transpose *)

Lemma dot_comm u v : dot u v = dot v u.
Proof.
  unfold dot. f_equal. rewrite (zip_with_flip F32.mul u v).
  apply zip_with_ext. intros. apply mul_comm.
Qed.

Lemma column_length {A : Type} n j (rows : list (list A)) :
  Forall (fun r => length r = n) rows -> j < n ->
  length (flat_map (pick j) rows) = length rows.
Proof.
  intros H Hj. induction H as [|r rows Hr _ IH]; auto.
  cbn [flat_map]. rewrite length_app, IH. cbn [length]. f_equal.
  unfold pick. rewrite length_firstn, length_skipn. lia.
Qed.

Lemma matvec_transpose (R v : list F32.t) :
  length R = 9 ->
  matvec (transpose3 R) v = map (dot v) (columns 3 (chunks 3 3 R)).
Proof.
  intros HR. unfold matvec, transpose3.
  rewrite chunks_concat'.
  - apply map_ext. intros c. apply dot_comm.
  - unfold columns. apply Forall_map, Forall_forall. intros j Hj.
    apply in_seq in Hj.
    rewrite (column_length (n := 3)); [apply chunks_length| |lia].
    now apply chunks_Forall.
  - unfold columns. now rewrite length_map, length_seq.
Qed.

Lemma mm_rows_transpose n (lat R : list F32.t) :
  length R = 9 ->
  mm n 3 3 lat R = flat_map (matvec (transpose3 R)) (chunks 3 n lat).
Proof.
  intros HR. unfold mm. apply flat_map_ext. intros v.
  now rewrite matvec_transpose.
Qed.

Lemma matmul_rotated_lattice ny nx N (rot : tensor) :
  shape rot = [N; 3; 3] -> length (data rot) = N * 9 ->
  matmul (make_lattice ny nx) rot = Ok (rotated_lattice ny nx N (data rot)).
Proof.
  intros Hs Hd.
  assert (Hr : rot = mk_nd [N; 3; 3] (data rot)) by (rewrite <- Hs; now destruct rot).
  rewrite Hr at 1.
  change (make_lattice ny nx) with (mk_nd [ny * nx; 3] (data (make_lattice ny nx))) at 1.
  rewrite matmul_lattice by (auto using make_lattice_length).
  unfold rotated_lattice, lattice_points. do 2 f_equal.
  apply flat_map_ext_on.
  eapply Forall_impl; [|apply (chunks_Forall 9 N (data rot) Hd)].
  intros R HR. now apply mm_rows_transpose.
Qed.

Lemma lattice_points_plane ny nx :
  Forall (fun v => exists x y, v = [x; y; F32.zero]) (lattice_points ny nx).
Proof.
  unfold lattice_points. rewrite make_lattice_points.
  set (pts := flat_map (fun y => map (fun x => [F64.to_f32 x; F64.to_f32 y; F32.zero])
                                     (linspace (-1) 1 nx)) (linspace (-1) 1 ny)).
  assert (Hp : Forall (fun v => exists x y, v = [x; y; F32.zero]) pts).
  { unfold pts. apply Forall_forall. intros v Hv.
    apply in_flat_map in Hv as (y & _ & Hv). apply in_map_iff in Hv as (x & <- & _).
    eauto. }
  assert (Hd : flat_map (fun y => flat_map (fun x => [F64.to_f32 x; F64.to_f32 y; F32.zero])
                                           (linspace (-1) 1 nx)) (linspace (-1) 1 ny)
               = concat pts).
  { unfold pts. rewrite concat_flat_map. apply flat_map_ext. intros y.
    now rewrite flat_map_concat_map. }
  rewrite Hd, chunks_concat'; auto.
  - eapply Forall_impl; [|exact Hp]. intros v (x & y & ->). reflexivity.
  - unfold pts. rewrite (flat_map_length_uniform _ (n := nx)).
    + now rewrite linspace_length.
    + intros y _. now rewrite length_map, linspace_length.
Qed.

Section QuerySites.

Variables (P G : Type).
Variable forward : module P -> tensor -> tensor * module P.
Variable randn : G -> nat -> list F32.t * G.
Variable quat_to_rot : list F32.t -> list F32.t.
Variable expmap_row : list F32.t -> list F32.t.
Variable latent_encoder : tensor -> tensor * tensor.

Lemma score_tail_world (a b : tensor) (w : W P G) :
  snd (bind (lift (tsub a b)) (fun d =>
       bind (lift (sum_last2 (tpow2 d))) (fun err =>
       bind (lift (argmin_dim1 err)) (fun mini => ret mini))) w) = w.
Proof. now rewrite score_tail. Qed.

Lemma eval_base_grid_query (self : BNBOpt) (images : tensor) (w : W P G) x :
  matmul (lattice self) (base_rot self) = Ok x ->
  queries (snd (eval_base_grid forward self images w)) = queries w ++ [x].
Proof.
  intros Hm. unfold eval_base_grid. rewrite Hm, bind_lift_Ok, bind_call_model.
  set (w1 := mk_world _ _ _ _).
  assert (Hq : queries w1 = queries w ++ [x])
    by (unfold queries, w1; cbn [calls]; now rewrite map_app).
  rewrite <- Hq. f_equal.
  unfold bind at 1, lift at 1.
  destruct (view_infer _ _) as [y1|e]; auto.
  unfold bind at 1, lift at 1.
  destruct (unsqueeze 0 y1) as [y2|e]; auto.
  unfold bind at 1, lift at 1.
  destruct (rbind (unsqueeze 0 images) transpose01) as [im|e]; auto.
  apply score_tail_world.
Qed.

Lemma eval_incremental_grid_query (self : BNBOpt) (images : tensor) quats (w : W P G) rot x :
  rbind (np_concatenate quats) (quaternions_to_SO3 quat_to_rot) = Ok rot ->
  matmul (lattice self) rot = Ok x ->
  queries (snd (eval_incremental_grid forward quat_to_rot self images quats w))
  = queries w ++ [x].
Proof.
  intros Hr Hm. unfold eval_incremental_grid.
  rewrite Hr, bind_lift_Ok, Hm, bind_lift_Ok, bind_call_model.
  set (w1 := mk_world _ _ _ _).
  assert (Hq : queries w1 = queries w ++ [x])
    by (unfold queries, w1; cbn [calls]; now rewrite map_app).
  rewrite <- Hq. f_equal.
  unfold bind at 1, lift at 1.
  destruct (view_infer _ _) as [y1|e]; auto.
  unfold bind at 1, lift at 1.
  destruct (unsqueeze 1 images) as [im|e]; auto.
  apply score_tail_world.
Qed.

Lemma sampleSO3_calls z_mu z_std (w : W P G) :
  calls (snd (sampleSO3 randn expmap_row z_mu z_std w)) = calls w.
Proof.
  unfold sampleSO3. rewrite bind_randn_like.
  unfold bind, lift, ret.
  destruct (tmul _ _) as [a|e]; auto.
  destruct (expmap expmap_row a) as [b|e]; auto.
  destruct (matmul z_mu b) as [c|e]; auto.
Qed.

Lemma VAE_forward_query (self : VAE) (img : tensor) (w w1 : W P G) rot w_eps x :
  sampleSO3 randn expmap_row (fst (latent_encoder img)) (snd (latent_encoder img)) w
  = (Ok (rot, w_eps), w1) ->
  matmul (vae_lattice self) rot = Ok x ->
  queries (snd (VAE_forward forward randn expmap_row latent_encoder self img w))
  = queries w ++ [x].
Proof.
  intros Hs Hm. unfold VAE_forward.
  destruct (latent_encoder img) as [z_mu z_std]. cbn [fst snd] in Hs.
  pose proof (sampleSO3_calls z_mu z_std w) as Hc. rewrite Hs in Hc. cbn [snd] in Hc.
  rewrite (@bind_eq _ _ _ _ _ _ _ _ _ Hs).
  rewrite Hm, bind_lift_Ok, bind_call_model.
  set (w2 := mk_world _ _ _ _).
  assert (Hq : queries w2 = queries w ++ [x])
    by (unfold queries, w2; cbn [calls]; now rewrite map_app, Hc).
  rewrite <- Hq. f_equal.
  unfold bind, lift, ret. destruct (view_infer _ _); reflexivity.
Qed.

End QuerySites.

(** ** The search leaves the render model alone *)

Section Frame.

Variables (P G : Type).
Variable forward : module P -> tensor -> tensor * module P.
Variable quat_to_rot : list F32.t -> list F32.t.
Variable base_indr : nat -> Z * Z.
Variable get_neighbor : tensor -> ndarray Z -> ndarray Z -> nat -> tensor * ndarray Z.

Hypothesis Hinference : forall m x, training m = false -> snd (forward m x) = m.

Lemma frame_ret {A : Type} (a : A) : inference_frame (ret (P := P) (G := G) a).
Proof.
  intros w _ Hg. cbn. repeat split; auto. exists []. split.
  - now rewrite app_nil_r.
  - constructor.
Qed.

Lemma frame_lift {A : Type} (r : result A) : inference_frame (lift (P := P) (G := G) r).
Proof.
  intros w _ Hg. cbn. repeat split; auto. exists []. split.
  - now rewrite app_nil_r.
  - constructor.
Qed.

Lemma frame_call_model x : inference_frame (call_model (G := G) forward x).
Proof.
  intros w Ht Hg. unfold call_model.
  pose proof (Hinference (model w) x Ht) as Hm.
  destruct (forward (model w) x) as [y m']. cbn [snd] in *. subst m'.
  cbn. repeat split; auto.
  eexists. split; [reflexivity|]. constructor; [|constructor].
  cbn. auto.
Qed.

Lemma frame_bind {A B : Type} (c : M P G A) (k : A -> M P G B) :
  inference_frame c -> (forall a, inference_frame (k a)) -> inference_frame (bind c k).
Proof.
  intros Hc Hk w Ht Hg. unfold bind.
  destruct (Hc w Ht Hg) as (Hm & Hg' & Hr & cs & Hcs & Hi).
  destruct (c w) as [[a|e] w1]; cbn [snd] in *.
  - assert (Ht1 : training (model w1) = false) by now rewrite Hm.
    destruct (Hk a w1 Ht1 Hg') as (Hm2 & Hg2 & Hr2 & cs2 & Hcs2 & Hi2).
    repeat split; try congruence.
    exists (cs ++ cs2). split.
    + now rewrite Hcs2, Hcs, app_assoc.
    + now apply Forall_app.
  - repeat split; auto. exists cs. auto.
Qed.

Ltac frame :=
  repeat first
    [ apply frame_ret
    | apply frame_lift
    | apply frame_call_model
    | apply frame_bind; [|intros ?]
    | match goal with
      | |- inference_frame (match ?p with (_, _) => _ end) => destruct p
      | |- inference_frame (let (_, _) := ?p in _) => destruct p
      end ].

Lemma frame_eval_base_grid self images :
  inference_frame (eval_base_grid (G := G) forward self images).
Proof. unfold eval_base_grid. frame. Qed.

Lemma frame_eval_incremental_grid self images quats :
  inference_frame (eval_incremental_grid (G := G) forward quat_to_rot self images quats).
Proof. unfold eval_incremental_grid. frame. Qed.

Lemma frame_refine_step self images B st level :
  inference_frame (refine_step (G := G) forward quat_to_rot get_neighbor self images B st level).
Proof.
  unfold refine_step. frame.
Qed.

Lemma frame_refine_loop self images B levels : forall st,
  inference_frame (refine_loop (G := G) forward quat_to_rot get_neighbor self images B st levels).
Proof.
  induction levels as [|level levels IH]; intros st; cbn [refine_loop].
  - apply frame_ret.
  - apply frame_bind; [apply frame_refine_step | intros st'; apply IH].
Qed.

Lemma frame_search_body self images B niter :
  inference_frame (search_body (G := G) forward quat_to_rot base_indr get_neighbor
                               self images B niter).
Proof.
  unfold search_body.
  apply frame_bind; [apply frame_eval_base_grid | intros mini].
  apply frame_bind; [apply frame_lift | intros mq].
  unfold get_base_indr. apply frame_refine_loop.
Qed.

(** Whatever the images and the budget, and whether it returns or raises,
    [opt_theta] leaves the render model and the autograd switch as they
    were, and every render call it makes is made in inference mode without
    gradient tracking; with the model in training mode it makes none. *)
Lemma opt_theta_frame self images niter (w : W P G) :
  let w' := snd (opt_theta forward quat_to_rot base_indr get_neighbor self images niter w) in
  model w' = model w /\ grad_enabled w' = grad_enabled w /\ rng w' = rng w
  /\ exists cs, calls w' = calls w ++ cs /\ inference_calls cs
                /\ (training (model w) = true -> cs = []).
Proof.
  cbv zeta.
  assert (Hsame : forall (w1 : W P G) (b : bool),
            model w1 = model w1 /\ grad_enabled w1 = grad_enabled w1 /\ rng w1 = rng w1
            /\ exists cs, calls w1 = calls w1 ++ cs /\ inference_calls cs
                          /\ (b = true -> cs = [])).
  { intros w1 b. split; [reflexivity|]. split; [reflexivity|]. split; [reflexivity|].
    exists []. split; [now rewrite app_nil_r|]. split; [constructor|reflexivity]. }
  destruct (shape images) as [|B s] eqn:Hs.
  - unfold opt_theta, size0. rewrite Hs. cbn. apply Hsame.
  - destruct (training (model w)) eqn:Ht.
    + rewrite (@opt_theta_training P G forward quat_to_rot base_indr get_neighbor self
                 images B s niter w Hs Ht).
      cbn [snd]. apply Hsame.
    + rewrite (@opt_theta_unfold P G forward quat_to_rot base_indr get_neighbor self
                 images B s niter w Hs Ht).
      cbv zeta.
      set (w0 := mk_world (model w) false (rng w) (calls w)).
      destruct (frame_search_body self images B niter w0 Ht eq_refl)
        as (Hm & Hg & Hr & cs & Hcs & Hi).
      destruct (search_body forward quat_to_rot base_indr get_neighbor self images B niter w0)
        as [[st|e] w1]; cbn [snd model grad_enabled rng calls w0] in *.
      * split; [exact Hm|]. split; [reflexivity|]. split; [exact Hr|].
        exists cs. split; [exact Hcs|]. split; [exact Hi|discriminate].
      * split; [exact Hm|]. split; [reflexivity|]. split; [exact Hr|].
        exists cs. split; [exact Hcs|]. split; [exact Hi|discriminate].
Qed.

End Frame.
(** * The claims *)

(** C1. For a batch of [B >= 1] images and any [niter], [opt_theta] evaluates
    every base rotation against every image with the sum of squared
    pixel-wise differences, keeps per image the arg-min base candidate, runs
    exactly [niter] refinement stages at levels [1..niter], each moving
    every image to the arg-min of its own eight neighbours, and returns the
    final quaternions as a [B x 3 x 3] tensor of rotation matrices: it
    computes [search_spec], with one render query per stage. *)
Theorem opt_theta_search (P G : Type)
    (forward : module P -> tensor -> tensor * module P)
    (quat_to_rot : list F32.t -> list F32.t) (base_indr : nat -> Z * Z)
    (get_neighbor : tensor -> ndarray Z -> ndarray Z -> nat -> tensor * ndarray Z)
    (grid : tensor) (Q Y X : nat) (self : BNBOpt)
    (images : tensor) (B niter : nat) (w : W P G) :
  search_env forward quat_to_rot get_neighbor grid Q Y X ->
  BNBOpt_init quat_to_rot grid Y X = Ok self ->
  shape images = [B; Y; X] -> length (data images) = B * (Y * X) ->
  1 <= B ->
  training (model w) = false ->
  exists cs,
    opt_theta forward quat_to_rot base_indr get_neighbor self images niter w =
    (Ok (mk_nd [B; 3; 3]
               (concat (search_spec forward quat_to_rot base_indr get_neighbor self (model w)
                                    (chunks (Y * X) B (data images)) niter))),
     mk_world (model w) (grad_enabled w) (rng w) (calls w ++ cs))
    /\ length cs = S niter.
Proof.
  intros Henv Hself Hs Hd HB Ht.
  destruct (opt_theta_refines base_indr Henv Hself images niter w Hs Hd HB Ht)
    as (cs & H & Hl & _).
  exists cs. split; assumption.
Qed.

Lemma opt_theta_search_witness :
  exists cs,
    opt_theta Example.forward Example.quat_to_rot Example.base_indr Example.get_neighbor
              Example.self Example.images 2 Example.w0 =
    (Ok (mk_nd [2; 3; 3]
               (concat (search_spec Example.forward Example.quat_to_rot Example.base_indr
                                    Example.get_neighbor Example.self (model Example.w0)
                                    (chunks (2 * 2) 2 (data Example.images)) 2))),
     mk_world (model Example.w0) (grad_enabled Example.w0) (rng Example.w0)
              (calls Example.w0 ++ cs))
    /\ length cs = 3.
Proof.
  apply opt_theta_search with (grid := Example.base_SO3_grid) (Q := 4).
  - exact example_env.
  - reflexivity.
  - reflexivity.
  - reflexivity.
  - lia.
  - reflexivity.
Defined.

(** C5. In the base stage and in every refinement stage the index selected
    for an image is the first minimal index of its errors: its error is
    minimal, and every candidate of lower index has a strictly larger
    error, so among candidates that tie for the minimum the one of lowest
    index is selected.  The selection is a function of the errors; the
    random generator is not consulted. *)
Theorem ties_first_occurrence (P G : Type)
    (forward : module P -> tensor -> tensor * module P)
    (quat_to_rot : list F32.t -> list F32.t)
    (get_neighbor : tensor -> ndarray Z -> ndarray Z -> nat -> tensor * ndarray Z)
    (grid : tensor) (Q Y X : nat) (self : BNBOpt)
    (images : tensor) (B : nat) (quats : list tensor) (w : W P G) :
  search_env forward quat_to_rot get_neighbor grid Q Y X ->
  BNBOpt_init quat_to_rot grid Y X = Ok self ->
  shape images = [B; Y; X] -> length (data images) = B * (Y * X) ->
  1 <= B -> length quats = B ->
  Forall (fun q => shape q = [8; 4] /\ length (data q) = 8 * 4) quats ->
  let imgs := chunks (Y * X) B (data images) in
  (exists mini w',
     eval_base_grid forward self images w = (Ok (mk_nd [B] mini), w')
     /\ rng w' = rng w
     /\ Forall2 (fun img i =>
                   first_min (scores img (render_batch forward self (model w) (base_rots self))) i)
                imgs mini)
  /\
  (exists mini w',
     eval_incremental_grid forward quat_to_rot self images quats w = (Ok (mk_nd [B] mini), w')
     /\ rng w' = rng w
     /\ Forall2 (fun img_rends i => first_min (scores (fst img_rends) (snd img_rends)) i)
                (combine imgs
                   (chunks 8 B (render_batch forward self (model w)
                                             (map quat_to_rot (candidates_of 8 quats)))))
                mini).
Proof.
  intros Henv Hself Hs Hd HB Hl HF imgs. split.
  - destruct (@base_stage_selection _ _ _ _ _ _ _ _ _ Henv _ Hself _ _ Hs Hd w)
      as (mini & H1 & H2).
    exists mini. eexists. split; [exact H1|]. split; [reflexivity | exact H2].
  - destruct (@refine_stage_selection _ _ _ _ _ _ _ _ _ Henv _ Hself _ _ Hs Hd quats w HB Hl HF)
      as (mini & H1 & H2).
    exists mini. eexists. split; [exact H1|]. split; [reflexivity | exact H2].
Qed.

Lemma ties_first_occurrence_witness :
  let imgs := chunks (2 * 2) 2 (data Example.images) in
  (exists mini w',
     eval_base_grid Example.forward Example.self Example.images Example.w0 =
     (Ok (mk_nd [2] mini), w')
     /\ rng w' = rng Example.w0
     /\ Forall2 (fun img i =>
                   first_min (scores img (render_batch Example.forward Example.self
                                            (model Example.w0) (base_rots Example.self))) i)
                imgs mini)
  /\
  (exists mini w',
     eval_incremental_grid Example.forward Example.quat_to_rot Example.self Example.images
                           Example.candidates Example.w0 = (Ok (mk_nd [2] mini), w')
     /\ rng w' = rng Example.w0
     /\ Forall2 (fun img_rends i => first_min (scores (fst img_rends) (snd img_rends)) i)
                (combine imgs
                   (chunks 8 2 (render_batch Example.forward Example.self (model Example.w0)
                                  (map Example.quat_to_rot
                                       (candidates_of 8 Example.candidates)))))
                mini).
Proof.
  apply ties_first_occurrence
    with (get_neighbor := Example.get_neighbor) (grid := Example.base_SO3_grid) (Q := 4).
  - exact example_env.
  - reflexivity.
  - reflexivity.
  - reflexivity.
  - lia.
  - reflexivity.
  - repeat constructor.
Defined.

(** C2 (counterexample). With two base candidates whose errors against
    the image are [0] and NaN, the base stage selects the NaN candidate: a
    NaN error is not treated as +infinity. *)
Lemma nan_candidate_selected :
  scores [F32.one]
         (render_batch Example.nan_forward Example.tilted_self (model Example.w0)
                       (base_rots Example.tilted_self)) = [F32.zero; F32.nan]
  /\ fst (eval_base_grid Example.nan_forward Example.tilted_self Example.unit_image Example.w0)
     = Ok (mk_nd [1] [1]).
Proof. split; vm_compute; reflexivity. Qed.

(** C2 (amended). The search gives non-finite errors no special treatment.
    In both stages the arg-min orders NaN below every number: when some
    candidate of an image has a NaN error, the candidate selected for that
    image is the first one whose error is NaN; a candidate whose error is
    +infinity is selected only when every candidate of the image has error
    +infinity.  In either case the stage returns normally. *)
Theorem non_finite_errors_selected (P G : Type)
    (forward : module P -> tensor -> tensor * module P)
    (quat_to_rot : list F32.t -> list F32.t)
    (get_neighbor : tensor -> ndarray Z -> ndarray Z -> nat -> tensor * ndarray Z)
    (grid : tensor) (Q Y X : nat) (self : BNBOpt)
    (images : tensor) (B : nat) (quats : list tensor) (w : W P G) :
  search_env forward quat_to_rot get_neighbor grid Q Y X ->
  BNBOpt_init quat_to_rot grid Y X = Ok self ->
  shape images = [B; Y; X] -> length (data images) = B * (Y * X) ->
  1 <= B -> length quats = B ->
  Forall (fun q => shape q = [8; 4] /\ length (data q) = 8 * 4) quats ->
  let imgs := chunks (Y * X) B (data images) in
  (exists mini w',
     eval_base_grid forward self images w = (Ok (mk_nd [B] mini), w')
     /\ Forall2 (fun img i =>
                   let errs := scores img (render_batch forward self (model w) (base_rots self)) in
                   selects_first_nan errs i /\ inf_only_if_all errs i)
                imgs mini)
  /\
  (exists mini w',
     eval_incremental_grid forward quat_to_rot self images quats w = (Ok (mk_nd [B] mini), w')
     /\ Forall2 (fun img_rends i =>
                   let errs := scores (fst img_rends) (snd img_rends) in
                   selects_first_nan errs i /\ inf_only_if_all errs i)
                (combine imgs
                   (chunks 8 B (render_batch forward self (model w)
                                             (map quat_to_rot (candidates_of 8 quats)))))
                mini).
Proof.
  intros Henv Hself Hs Hd HB Hl HF imgs. split.
  - destruct (@base_stage_selection _ _ _ _ _ _ _ _ _ Henv _ Hself _ _ Hs Hd w)
      as (mini & H1 & H2).
    exists mini. eexists. split; [exact H1|].
    eapply Forall2_impl; [|exact H2]. intros img i H. cbv zeta.
    split; [now apply first_min_nan | now apply first_min_inf].
  - destruct (@refine_stage_selection _ _ _ _ _ _ _ _ _ Henv _ Hself _ _ Hs Hd quats w HB Hl HF)
      as (mini & H1 & H2).
    exists mini. eexists. split; [exact H1|].
    eapply Forall2_impl; [|exact H2]. intros img i H. cbv zeta.
    split; [now apply first_min_nan | now apply first_min_inf].
Qed.

Lemma non_finite_errors_selected_witness :
  let imgs := chunks (1 * 1) 1 (data Example.unit_image) in
  exists mini w',
     eval_base_grid Example.nan_forward Example.tilted_self Example.unit_image Example.w0 =
     (Ok (mk_nd [1] mini), w')
     /\ Forall2 (fun img i =>
                   let errs := scores img (render_batch Example.nan_forward Example.tilted_self
                                             (model Example.w0) (base_rots Example.tilted_self)) in
                   selects_first_nan errs i /\ inf_only_if_all errs i)
                imgs mini.
Proof.
  refine (proj1 (@non_finite_errors_selected unit nat Example.nan_forward Example.quat_to_rot
                   Example.get_neighbor Example.tilted_grid 2 1 1 Example.tilted_self
                   Example.unit_image 1
                   [fst (Example.get_neighbor (mk_nd [4] (Example.floats [1; 0; 0; 0]%Z))
                                              (scalar 0%Z) (scalar 0%Z) 1)]
                   Example.w0 _ _ _ _ _ _ _)).
  - constructor; try reflexivity; try lia.
    + intros q a b level Hq. repeat split.
    + intros m lead d Hd. now apply pointwise_render.
  - reflexivity.
  - reflexivity.
  - reflexivity.
  - lia.
  - reflexivity.
  - repeat constructor.
Defined.

(** C3 (counterexample). On an empty batch with [niter = 1] the search
    raises instead of returning an empty output. *)
Lemma empty_batch_refinement_fails :
  fst (opt_theta Example.forward Example.quat_to_rot Example.base_indr Example.get_neighbor
                 Example.self Example.no_images 1 Example.w0)
  = Raise ConcatError.
Proof. vm_compute. reflexivity. Qed.

(** C3 (amended). On an empty batch ([B = 0]) the search returns the empty
    [0 x 3 x 3] output without error when [niter = 0]; for [niter >= 1] it
    raises at the first refinement level, where the empty list of
    candidate arrays cannot be concatenated.  In both cases the base-grid
    render query has been made. *)
Theorem empty_batch_search (P G : Type)
    (forward : module P -> tensor -> tensor * module P)
    (quat_to_rot : list F32.t -> list F32.t) (base_indr : nat -> Z * Z)
    (get_neighbor : tensor -> ndarray Z -> ndarray Z -> nat -> tensor * ndarray Z)
    (grid : tensor) (Q Y X : nat) (self : BNBOpt) (images : tensor) (w : W P G) :
  search_env forward quat_to_rot get_neighbor grid Q Y X ->
  BNBOpt_init quat_to_rot grid Y X = Ok self ->
  shape images = [0; Y; X] -> data images = [] ->
  training (model w) = false ->
  let w' := mk_world (model w) (grad_enabled w) (rng w)
                     (calls w ++ [mk_call false false (coordinates self (base_rots self))]) in
  opt_theta forward quat_to_rot base_indr get_neighbor self images 0 w =
  (Ok (mk_nd [0; 3; 3] []), w')
  /\ forall n,
     opt_theta forward quat_to_rot base_indr get_neighbor self images (S n) w =
     (Raise ConcatError, w').
Proof.
  intros Henv Hself Hs Hd Ht w'. split; [|intros n].
  - apply (@opt_theta_empty _ _ _ _ base_indr _ _ _ _ _ Henv _ Hself images 0 w Hs Hd Ht).
  - apply (@opt_theta_empty _ _ _ _ base_indr _ _ _ _ _ Henv _ Hself images (S n) w Hs Hd Ht).
Qed.

Lemma empty_batch_search_witness :
  let w' := mk_world (model Example.w0) (grad_enabled Example.w0) (rng Example.w0)
                     (calls Example.w0 ++
                      [mk_call false false (coordinates Example.self (base_rots Example.self))]) in
  opt_theta Example.forward Example.quat_to_rot Example.base_indr Example.get_neighbor
            Example.self Example.no_images 0 Example.w0 =
  (Ok (mk_nd [0; 3; 3] []), w')
  /\ forall n,
     opt_theta Example.forward Example.quat_to_rot Example.base_indr Example.get_neighbor
               Example.self Example.no_images (S n) Example.w0 =
     (Raise ConcatError, w').
Proof.
  apply empty_batch_search with (grid := Example.base_SO3_grid) (Q := 4) (Y := 2) (X := 2).
  - exact example_env.
  - reflexivity.
  - reflexivity.
  - reflexivity.
  - reflexivity.
Defined.

(** C4 (counterexample). A 3x3 image against the 2x2 lattice: the search
    fails with a shape error only after a render query has been made. *)
Lemma mismatch_fails_after_render :
  let r := opt_theta Example.forward Example.quat_to_rot Example.base_indr Example.get_neighbor
                     Example.self Example.wide_image 1 Example.w0 in
  fst r = Raise BroadcastError /\ length (calls (snd r)) = 1.
Proof. vm_compute. split; reflexivity. Qed.

(** A batch of 1x1 images against the 2x2 lattice is broadcast: the
    mismatch raises no error at all. *)
Example mismatch_may_broadcast :
  exists r w',
    opt_theta Example.forward Example.quat_to_rot Example.base_indr Example.get_neighbor
              Example.self (mk_nd [2; 1; 1] (Example.floats [1; 2]%Z)) 1 Example.w0
    = (Ok r, w').
Proof. vm_compute. eexists. eexists. reflexivity. Qed.

(** C4 (amended). The search validates no shape before querying the render
    model.  With the model in inference mode, images whose height or width
    cannot be broadcast against the lattice dimensions make the call fail
    with a shape error raised by the subtraction of the base stage, after
    the base-grid render query (exactly one render call) has been made. *)
Theorem mismatch_fails_in_base_stage (P G : Type)
    (forward : module P -> tensor -> tensor * module P)
    (quat_to_rot : list F32.t -> list F32.t) (base_indr : nat -> Z * Z)
    (get_neighbor : tensor -> ndarray Z -> ndarray Z -> nat -> tensor * ndarray Z)
    (grid : tensor) (Q Y X : nat) (self : BNBOpt)
    (images : tensor) (B Y' X' niter : nat) (w : W P G) :
  search_env forward quat_to_rot get_neighbor grid Q Y X ->
  BNBOpt_init quat_to_rot grid Y X = Ok self ->
  shape images = [B; Y'; X'] ->
  bcompat Y' Y && bcompat X' X = false ->
  training (model w) = false ->
  opt_theta forward quat_to_rot base_indr get_neighbor self images niter w =
  (Raise BroadcastError,
   mk_world (model w) (grad_enabled w) (rng w)
            (calls w ++ [mk_call false false (coordinates self (base_rots self))])).
Proof.
  intros Henv Hself Hs Hc Ht.
  apply (@opt_theta_mismatch _ _ _ _ base_indr _ _ _ _ _ Henv _ Hself images _ _ _ niter w
           Hs Hc Ht).
Qed.

Lemma mismatch_fails_in_base_stage_witness :
  opt_theta Example.forward Example.quat_to_rot Example.base_indr Example.get_neighbor
            Example.self Example.wide_image 1 Example.w0 =
  (Raise BroadcastError,
   mk_world (model Example.w0) (grad_enabled Example.w0) (rng Example.w0)
            (calls Example.w0 ++
             [mk_call false false (coordinates Example.self (base_rots Example.self))])).
Proof.
  apply mismatch_fails_in_base_stage
    with (grid := Example.base_SO3_grid) (Q := 4) (Y := 2) (X := 2)
         (B := 1) (Y' := 3) (X' := 3).
  - exact example_env.
  - reflexivity.
  - reflexivity.
  - reflexivity.
  - reflexivity.
Defined.

(** C10 (counterexample). Two images, one level, from the state the base
    stage leaves.  With sixteen candidates per image the rendered batch
    reshapes to four rows of eight and the step fails in the subtraction;
    with four candidates per image it reshapes to one row of eight, the
    arg-min of the second image is 6, and the step fails in the look-up of
    that index among four cells.  Neither step fails the reshape, and
    neither returns; the search fails in the same way. *)
Lemma refinement_step_fails_past_reshape :
  let step k := fst (refine_step Example.forward Example.quat_to_rot
                                 (Example.get_neighbor_k k) Example.self Example.images 2
                                 (state_arrays Example.base_states) 1 Example.w0) in
  let search k := fst (opt_theta Example.forward Example.quat_to_rot Example.base_indr
                                 (Example.get_neighbor_k k) Example.self Example.images 1
                                 Example.w0) in
  (step 16 = Raise BroadcastError /\ step 4 = Raise IndexError)
  /\ (search 16 = Raise BroadcastError /\ search 4 = Raise IndexError)
  /\ (forall k, k = 16 \/ k = 4 -> step k <> Raise ViewError /\ forall st, step k <> Ok st).
Proof.
  cbv zeta.
  assert (E16 : fst (refine_step Example.forward Example.quat_to_rot
                                 (Example.get_neighbor_k 16) Example.self Example.images 2
                                 (state_arrays Example.base_states) 1 Example.w0)
                = Raise BroadcastError) by (vm_compute; reflexivity).
  assert (E4 : fst (refine_step Example.forward Example.quat_to_rot
                                (Example.get_neighbor_k 4) Example.self Example.images 2
                                (state_arrays Example.base_states) 1 Example.w0)
               = Raise IndexError) by (vm_compute; reflexivity).
  split; [split; assumption|]. split.
  - split; vm_compute; reflexivity.
  - intros k [->| ->]; [rewrite E16|rewrite E4]; split; intros; discriminate.
Qed.

(** C10 (amended). A refinement step reshapes the rendered batch to rows of
    8, the fan-out being hard-coded.  For a step entered with one state per
    image, [B >= 1] images and [k] candidates per image: when [k = 8] the
    step returns the states of the refinement stage, where every image
    moves to the best of its own eight candidates; when [k <> 8], either
    [B * k] is not a multiple of 8 and the reshape fails; or the reshape
    yields [B' = B * k / 8 <> B] rows and the subtraction fails when
    neither [B] nor [B'] is 1; or [B] or [B'] is 1, the images are scored
    against rows of 8 consecutive candidates of the batch, which are not
    their own candidate sets, and then either an index is not below [k]
    (only when [B' = 1]) and the look-up of the selected cells fails with
    an index error, or the step returns the candidates found at those
    indices. *)
Theorem refinement_step_fan_out (P G : Type)
    (forward : module P -> tensor -> tensor * module P)
    (quat_to_rot : list F32.t -> list F32.t)
    (get_neighbor : tensor -> ndarray Z -> ndarray Z -> nat -> tensor * ndarray Z)
    (grid : tensor) (Q Y X : nat) (self : BNBOpt)
    (images : tensor) (k : nat) (sts : list image_state) (level : nat) (w : W P G) :
  stage_env forward quat_to_rot grid Q Y X ->
  neighbor_sets get_neighbor k ->
  BNBOpt_init quat_to_rot grid Y X = Ok self ->
  let B := length sts in
  shape images = [B; Y; X] -> length (data images) = B * (Y * X) ->
  1 <= B -> Forall quat4 sts ->
  let imgs := chunks (Y * X) B (data images) in
  let nbrs := map (neighbors_of get_neighbor level) sts in
  let renders := render_batch forward self (model w)
                              (map quat_to_rot (candidates_of k (map fst nbrs))) in
  let r := fst (refine_step forward quat_to_rot get_neighbor self images B
                            (state_arrays sts) level w) in
  (k = 8 ->
   r = Ok (state_arrays (refine_stage forward quat_to_rot get_neighbor self (model w)
                                      imgs sts level)))
  /\ (k <> 8 ->
      ((B * k) mod 8 <> 0 /\ r = Raise ViewError)
      \/ (exists B', B * k = B' * 8 /\ B' <> B /\ B <> 1 /\ B' <> 1
                     /\ r = Raise BroadcastError)
      \/ (exists B', B * k = B' * 8 /\ B' <> B /\ (B = 1 \/ B' = 1)
                     /\ chunks 8 B' renders <> chunks k B renders
                     /\ let R := bdim B B' in
                        let js := zip_with select (bcast B R imgs)
                                           (bcast B' R (chunks 8 B' renders)) in
                        (B' = 1 /\ Exists (fun j => k <= j) js /\ r = Raise IndexError)
                        \/ (Forall (fun j => j < k) js
                            /\ r = Ok (state_arrays
                                         (zip_with (fun j nb => candidate nb j) js
                                                   (bcast B R nbrs)))))).
Proof.
  intros Hstage Hnb Hself B Hs Hd HB Hsts.
  exact (@refine_step_outcomes _ _ _ _ _ _ _ _ _ _ Hstage Hnb _ Hself images sts level w
           Hs Hd HB Hsts).
Qed.

Lemma refinement_step_fan_out_witness :
  fst (refine_step Example.forward Example.quat_to_rot Example.get_neighbor Example.self
                   Example.images 2 (state_arrays Example.base_states) 1 Example.w0)
  = Ok (state_arrays (refine_stage Example.forward Example.quat_to_rot Example.get_neighbor
                                   Example.self (model Example.w0)
                                   (chunks (2 * 2) 2 (data Example.images))
                                   Example.base_states 1))
  /\ fst (refine_step Example.forward Example.quat_to_rot (Example.get_neighbor_k 4)
                      Example.self Example.images 2 (state_arrays Example.base_states) 1
                      Example.w0)
     = Raise IndexError.
Proof.
  split.
  - refine (proj1 (@refinement_step_fan_out unit nat Example.forward Example.quat_to_rot
                     Example.get_neighbor Example.base_SO3_grid 4 2 2 Example.self
                     Example.images 8 Example.base_states 1 Example.w0 _ _ _ _ _ _ _) _).
    + exact (proj1 (search_env_stage example_env)).
    + exact (proj2 (search_env_stage example_env)).
    + reflexivity.
    + reflexivity.
    + reflexivity.
    + simpl. lia.
    + repeat constructor.
    + reflexivity.
  - destruct (proj2 (@refinement_step_fan_out unit nat Example.forward Example.quat_to_rot
                       (Example.get_neighbor_k 4) Example.base_SO3_grid 4 2 2 Example.self
                       Example.images 4 Example.base_states 1 Example.w0
                       (proj1 (search_env_stage example_env)) (example_neighbor_sets 4)
                       eq_refl eq_refl eq_refl (le_S _ _ (le_n 1))
                       ltac:(repeat constructor)) ltac:(discriminate))
      as [[Hmod _]|[(B' & HB' & _ & _ & H1 & _)|(B' & HB' & _ & _ & _ & Hout)]].
    + exfalso. apply Hmod. reflexivity.
    + exfalso. change (length Example.base_states) with 2 in HB'. lia.
    + change (length Example.base_states) with 2 in HB'.
      assert (E : B' = 1) by lia. rewrite E in Hout. cbv zeta in Hout.
      destruct Hout as [(_ & _ & Hr)|(Hall & _)]; [exact Hr|].
      exfalso. revert Hall. change (length Example.base_states) with 2.
      match goal with |- Forall _ ?js -> _ =>
        replace js with [0; 6] by (vm_compute; reflexivity) end.
      intros Hall. inversion Hall as [|? ? _ Hrest]. inversion Hrest as [|? ? H6 _]. lia.
Defined.

(** One image with sixteen candidates: the rendered batch reshapes to two
    rows of eight, the image is broadcast against both, and the step
    returns two states for the one image. *)
Lemma one_image_sixteen_candidates :
  exists st,
    fst (refine_step Example.forward Example.quat_to_rot (Example.get_neighbor_k 16)
                     Example.self Example.image1 1
                     (state_arrays (firstn 1 Example.base_states)) 1 Example.w0) = Ok st
    /\ shape (min_quat st) = [2; 4] /\ shape (s2i st) = [2] /\ shape (s1i st) = [2].
Proof.
  eexists. split; [vm_compute; reflexivity|]. repeat split.
Qed.

(** C6. For a render model that acts coordinate by coordinate, searching
    the concatenation of two batches returns the concatenation of the
    results of searching each batch on its own: every image is scored
    against its own candidates only. *)
Theorem batch_independence (P G : Type)
    (f : P -> list F32.t -> F32.t)
    (quat_to_rot : list F32.t -> list F32.t) (base_indr : nat -> Z * Z)
    (get_neighbor : tensor -> ndarray Z -> ndarray Z -> nat -> tensor * ndarray Z)
    (grid : tensor) (Q Y X : nat) (self : BNBOpt)
    (images1 images2 : tensor) (B1 B2 niter : nat) (w : W P G) :
  search_env (pointwise f) quat_to_rot get_neighbor grid Q Y X ->
  BNBOpt_init quat_to_rot grid Y X = Ok self ->
  shape images1 = [B1; Y; X] -> length (data images1) = B1 * (Y * X) -> 1 <= B1 ->
  shape images2 = [B2; Y; X] -> length (data images2) = B2 * (Y * X) -> 1 <= B2 ->
  training (model w) = false ->
  let search images :=
    fst (opt_theta (pointwise f) quat_to_rot base_indr get_neighbor self images niter w) in
  exists r1 r2,
    search images1 = Ok r1 /\ search images2 = Ok r2
    /\ search (tcat images1 images2) = Ok (tcat r1 r2).
Proof.
  intros Henv Hself Hs1 Hd1 HB1 Hs2 Hd2 HB2 Ht search.
  destruct (opt_theta_refines base_indr Henv Hself images1 niter w Hs1 Hd1 HB1 Ht)
    as (cs1 & E1 & _).
  destruct (opt_theta_refines base_indr Henv Hself images2 niter w Hs2 Hd2 HB2 Ht)
    as (cs2 & E2 & _).
  assert (Hs : shape (tcat images1 images2) = [B1 + B2; Y; X])
    by (unfold tcat; cbn [shape]; now rewrite Hs1, Hs2).
  assert (Hd : length (data (tcat images1 images2)) = (B1 + B2) * (Y * X))
    by (unfold tcat; cbn [data]; rewrite length_app; lia).
  destruct (opt_theta_refines base_indr Henv Hself (tcat images1 images2) niter w Hs Hd
              ltac:(lia) Ht)
    as (cs & E & _).
  eexists. eexists. unfold search. rewrite E1, E2, E. cbn [fst].
  split; [reflexivity|]. split; [reflexivity|].
  f_equal. unfold tcat. cbn [shape data hd tl]. f_equal.
  rewrite chunks_app by exact Hd1.
  now rewrite search_spec_app, concat_app.
Qed.

Lemma batch_independence_witness :
  let search images :=
    fst (opt_theta Example.forward Example.quat_to_rot Example.base_indr Example.get_neighbor
                   Example.self images 2 Example.w0) in
  exists r1 r2,
    search Example.image1 = Ok r1 /\ search Example.image2 = Ok r2
    /\ search (tcat Example.image1 Example.image2) = Ok (tcat r1 r2).
Proof.
  apply batch_independence
    with (grid := Example.base_SO3_grid) (Q := 4) (Y := 2) (X := 2) (B1 := 1) (B2 := 1).
  - exact example_env.
  - reflexivity.
  - reflexivity.
  - reflexivity.
  - lia.
  - reflexivity.
  - reflexivity.
  - lia.
  - reflexivity.
Defined.

(** C7. [sampleSO3] draws one standard-normal variate per entry of the
    standard deviation, and returns the tangent noise [eps * std] together
    with the product of each mean matrix by the exponential map of its
    noise, the mean on the left.  When the standard deviation is zero (and
    the draws are finite, the mean is made of binary32 numbers and the
    exponential map of a zero vector is the identity), the tangent noise is
    the zero vector and the sample equals the mean, entry by entry. *)
Theorem sampleSO3_sample (P G : Type)
    (randn : G -> nat -> list F32.t * G) (expmap_row : list F32.t -> list F32.t)
    (z_mu z_std : tensor) (N : nat) (w : W P G) :
  shape z_mu = [N; 3; 3] -> length (data z_mu) = N * 9 ->
  shape z_std = [N; 3] -> length (data z_std) = N * 3 ->
  length (fst (randn (rng w) (N * 3))) = N * 3 ->
  (forall v, length v = 3 -> length (expmap_row v) = 9) ->
  let eps := fst (randn (rng w) (N * 3)) in
  let w_eps := mk_nd [N; 3] (zip_with F32.mul eps (data z_std)) in
  let rot_eps := map expmap_row (chunks 3 N (data w_eps)) in
  let rot_sampled :=
    mk_nd [N; 3; 3] (concat (zip_with (mm 3 3 3) (chunks 9 N (data z_mu)) rot_eps)) in
  expmap expmap_row w_eps = Ok (mk_nd [N; 3; 3] (concat rot_eps))
  /\ matmul z_mu (mk_nd [N; 3; 3] (concat rot_eps)) = Ok rot_sampled
  /\ fst (sampleSO3 randn expmap_row z_mu z_std w) = Ok (rot_sampled, w_eps)
  /\ (Forall (fun x => F32.is_zero x = true) (data z_std) ->
      Forall (fun x => F32.is_finite x = true) eps ->
      Forall (fun x => F32.valid x = true) (data z_mu) ->
      (forall v, length v = 3 -> Forall (fun x => F32.is_zero x = true) v ->
                 expmap_row v = identity3) ->
      Forall (fun x => F32.is_zero x = true) (data w_eps)
      /\ Forall2 same_value (data rot_sampled) (data z_mu)).
Proof.
  intros Hms Hmd Hss Hsd Hr Hexp eps w_eps rot_eps rot_sampled.
  assert (Hlw : length (data w_eps) = N * 3).
  { unfold w_eps. cbn [data]. rewrite zip_with_length. unfold eps. lia. }
  assert (Hrot : Forall (fun r => length r = 9) rot_eps).
  { unfold rot_eps. apply Forall_map.
    eapply Forall_impl; [|apply (chunks_Forall 3 N (data w_eps) Hlw)].
    intros v Hv. now apply Hexp. }
  assert (Hlr : length rot_eps = N)
    by (unfold rot_eps; now rewrite length_map, chunks_length).
  split; [|split; [|split]].
  - unfold w_eps. rewrite expmap_rows. unfold rot_eps, w_eps. cbn [data].
    now rewrite flat_map_concat_map.
  - assert (Hmu : z_mu = mk_nd [N; 3; 3] (data z_mu))
      by (rewrite <- Hms; now destruct z_mu).
    rewrite Hmu at 1. rewrite matmul_batched; auto.
    + unfold rot_sampled. now rewrite chunks_concat' with (ls := rot_eps).
    + rewrite (concat_length_uniform (n := 9)) by exact Hrot. now rewrite Hlr.
  - now rewrite (@sampleSO3_value P G randn expmap_row z_mu z_std N Hms Hmd Hss Hsd w Hr Hrot).
  - intros Hz He Hv H0.
    destruct (@sampleSO3_zero_std P G randn expmap_row z_mu z_std N Hmd Hsd w Hr Hz He Hv H0)
      as (H1 & _ & H2).
    split; assumption.
Qed.

Lemma sampleSO3_sample_witness :
  let eps := fst (Example.randn (rng Example.w0) (1 * 3)) in
  let w_eps := mk_nd [1; 3] (zip_with F32.mul eps (data Example.z_std0)) in
  exists rot_sampled,
    fst (sampleSO3 Example.randn Example.expmap_row Example.z_mu Example.z_std0 Example.w0)
    = Ok (rot_sampled, w_eps)
    /\ Forall (fun x => F32.is_zero x = true) (data w_eps)
    /\ Forall2 same_value (data rot_sampled) (data Example.z_mu).
Proof.
  destruct (@sampleSO3_sample unit nat Example.randn Example.expmap_row
              Example.z_mu Example.z_std0 1 Example.w0)
    as (_ & _ & Hs & Hz).
  - reflexivity.
  - reflexivity.
  - reflexivity.
  - reflexivity.
  - reflexivity.
  - intros v _. unfold Example.expmap_row.
    destruct (_ && _); reflexivity.
  - eexists. split; [exact Hs|]. apply Hz.
    + repeat constructor.
    + repeat constructor.
    + repeat constructor.
    + intros v Hv H0. unfold Example.expmap_row.
      destruct v as [|x [|y [|z [|? ?]]]]; try discriminate.
      inversion H0 as [|? ? Hx H1]; subst. inversion H1 as [|? ? Hy H2]; subst.
      inversion H2 as [|? ? Hzz _]; subst.
      cbn [nth]. now rewrite Hx, Hy, Hzz.
Defined.

(** C9. "Transforming the lattice by a rotation [R]" is the product
    [lattice @ R]: every lattice point [v], a row vector whose third
    component is zero, becomes [R^T v].  The base stage, the refinement
    stage and [VAE.forward] all query the render model at these
    coordinates, rotated by the transpose of the rotation. *)
Theorem lattice_rotated_by_transpose (P G : Type)
    (forward : module P -> tensor -> tensor * module P)
    (randn : G -> nat -> list F32.t * G)
    (quat_to_rot expmap_row : list F32.t -> list F32.t)
    (latent_encoder : tensor -> tensor * tensor)
    (ny nx N : nat) (rot : tensor) :
  shape rot = [N; 3; 3] -> length (data rot) = N * 9 ->
  let x := rotated_lattice ny nx N (data rot) in
  matmul (make_lattice ny nx) rot = Ok x
  /\ Forall (fun v => exists a b, v = [a; b; F32.zero]) (lattice_points ny nx)
  /\ (forall (self : BNBOpt) images (w : W P G),
        lattice self = make_lattice ny nx -> base_rot self = rot ->
        queries (snd (eval_base_grid forward self images w)) = queries w ++ [x])
  /\ (forall (self : BNBOpt) images quats (w : W P G),
        lattice self = make_lattice ny nx ->
        rbind (np_concatenate quats) (quaternions_to_SO3 quat_to_rot) = Ok rot ->
        queries (snd (eval_incremental_grid forward quat_to_rot self images quats w))
        = queries w ++ [x])
  /\ (forall (self : VAE) img (w w1 : W P G) w_eps,
        vae_lattice self = make_lattice ny nx ->
        sampleSO3 randn expmap_row (fst (latent_encoder img)) (snd (latent_encoder img)) w
        = (Ok (rot, w_eps), w1) ->
        queries (snd (VAE_forward forward randn expmap_row latent_encoder self img w))
        = queries w ++ [x]).
Proof.
  intros Hs Hd x.
  pose proof (matmul_rotated_lattice ny nx rot Hs Hd) as Hm. fold x in Hm.
  split; [exact Hm|]. split; [apply lattice_points_plane|].
  split; [|split].
  - intros self images w Hl Hr. apply eval_base_grid_query. now rewrite Hl, Hr.
  - intros self images quats w Hl Hr.
    apply eval_incremental_grid_query with (rot := rot); auto. now rewrite Hl.
  - intros self img w w1 w_eps Hl Hsample.
    apply VAE_forward_query with (w1 := w1) (rot := rot) (w_eps := w_eps); auto.
    now rewrite Hl.
Qed.

Lemma lattice_rotated_by_transpose_witness :
  let x := rotated_lattice 2 2 4 (data (base_rot Example.self)) in
  matmul (make_lattice 2 2) (base_rot Example.self) = Ok x
  /\ queries (snd (eval_base_grid Example.forward Example.self Example.images Example.w0))
     = queries Example.w0 ++ [x].
Proof.
  destruct (@lattice_rotated_by_transpose unit nat Example.forward Example.randn
              Example.quat_to_rot Example.expmap_row (fun t => (t, t))
              2 2 4 (base_rot Example.self))
    as (Hm & _ & Hb & _).
  - reflexivity.
  - reflexivity.
  - split; [exact Hm|]. apply Hb; reflexivity.
Defined.

(** C8. The search runs with the render model in inference mode.  For a
    render model whose forward pass in inference mode does not write its own
    state, every call of [opt_theta], whether it returns or raises, leaves
    the module (parameters and training flag) and the autograd switch as
    they were; every render query it makes is made with the module not in
    training mode and with gradient tracking off; and when the module is in
    training mode the assertion stops the call before any query. *)
Theorem search_in_inference_mode (P G : Type)
    (forward : module P -> tensor -> tensor * module P)
    (quat_to_rot : list F32.t -> list F32.t) (base_indr : nat -> Z * Z)
    (get_neighbor : tensor -> ndarray Z -> ndarray Z -> nat -> tensor * ndarray Z)
    (self : BNBOpt) (images : tensor) (niter : nat) (w : W P G) :
  (forall m x, training m = false -> snd (forward m x) = m) ->
  let w' := snd (opt_theta forward quat_to_rot base_indr get_neighbor self images niter w) in
  model w' = model w /\ grad_enabled w' = grad_enabled w
  /\ exists cs, calls w' = calls w ++ cs /\ inference_calls cs
                /\ (training (model w) = true -> cs = []).
Proof.
  intros Hinf.
  destruct (@opt_theta_frame P G forward quat_to_rot base_indr get_neighbor Hinf
              self images niter w) as (Hm & Hg & _ & H).
  cbv zeta. split; [exact Hm|]. split; [exact Hg | exact H].
Qed.

Lemma search_in_inference_mode_witness :
  let w' := snd (opt_theta Example.forward Example.quat_to_rot Example.base_indr
                           Example.get_neighbor Example.self Example.images 2 Example.w0) in
  model w' = model Example.w0 /\ grad_enabled w' = grad_enabled Example.w0
  /\ exists cs, calls w' = calls Example.w0 ++ cs /\ inference_calls cs
                /\ (training (model Example.w0) = true -> cs = []).
Proof.
  apply search_in_inference_mode.
  intros m x _. reflexivity.
Defined.

(** With the render model left in training mode the search refuses to run. *)
Example search_refused_in_training_mode :
  opt_theta Example.forward Example.quat_to_rot Example.base_indr Example.get_neighbor
            Example.self Example.images 2 Example.w_training
  = (Raise AssertionError, Example.w_training).
Proof. reflexivity. Qed.

(** * Further properties of the code *)

(** ** Networks of layers *)

Lemma numel_rev s : numel (rev s) = numel s.
Proof.
  induction s as [|d s IH]; [reflexivity|].
  cbn [rev]. rewrite numel_app, IH, numel_cons.
  change (numel [d]) with (d * 1). rewrite Nat.mul_1_r. apply Nat.mul_comm.
Qed.

Lemma flat_map_chunks_flat_map {A B C : Type} (f : A -> list B) (g : list B -> list C)
    (n : nat) (rows : list A) :
  (forall r, In r rows -> length (f r) = n) ->
  flat_map g (chunks n (length rows) (flat_map f rows)) = flat_map (fun r => g (f r)) rows.
Proof.
  intros H. rewrite (flat_map_concat_map f).
  rewrite chunks_concat' with (ls := map f rows).
  - rewrite !flat_map_concat_map, map_map. reflexivity.
  - apply Forall_map, Forall_forall. exact H.
  - now rewrite length_map.
Qed.

Lemma linear_row_length nin nout l row :
  Linear_ok nin nout l -> length (linear_row l row) = nout.
Proof.
  intros (Hi & Ho & Hw & Hb). unfold linear_row.
  rewrite zip_with_length, chunks_length, Ho, Hb. lia.
Qed.

(** A linear layer on a batch of rows. *)
Lemma Linear_forward_rows nin nout l lead (d : list F32.t) :
  Linear_ok nin nout l ->
  Linear_forward l (mk_nd (lead ++ [nin]) d) =
  Ok (mk_nd (lead ++ [nout]) (flat_map (linear_row l) (chunks nin (numel lead) d))).
Proof.
  intros (Hi & Ho & _). unfold Linear_forward. cbn [shape data].
  rewrite rev_app_distr. cbn [rev app]. rewrite Hi, Nat.eqb_refl, Ho.
  now rewrite rev_involutive, numel_rev.
Qed.

(** Adding two tensors of the same shape. *)
Lemma tadd_same_shape s (a b : list F32.t) :
  length a = numel s -> length b = numel s ->
  tadd (mk_nd s a) (mk_nd s b) = Ok (mk_nd s (zip_with F32.add a b)).
Proof.
  intros Ha Hb. unfold tadd, broadcast2. cbn [shape data].
  rewrite broadcast_shapes_refl, pad_same. now rewrite !expand_id.
Qed.

Section NetworkFacts.

Variable activation : F32.t -> F32.t.

Lemma zip_with_rows {A B : Type} (g : A -> A -> B) (f : list A -> list A) n (rows : list (list A)) :
  Forall (fun r => length r = n) rows ->
  (forall r, In r rows -> length (f r) = n) ->
  zip_with g (flat_map f rows) (concat rows) = flat_map (fun r => zip_with g (f r) r) rows.
Proof.
  intros Hr Hf. rewrite (flat_map_concat_map f).
  rewrite (concat_zip_with_uniform g (n := n)).
  - rewrite zip_with_map_l, zip_with_same, flat_map_concat_map. reflexivity.
  - apply Forall_map, Forall_forall. exact Hf.
  - exact Hr.
Qed.

(** Every layer that fits rows of [d] entries acts on each row of a batch
    on its own. *)
Lemma ResidLinear_forward_rows n l lead (d : list F32.t) :
  Linear_ok n n l -> length d = numel lead * n ->
  ResidLinear_forward l (mk_nd (lead ++ [n]) d) =
  Ok (mk_nd (lead ++ [n])
            (flat_map (fun r => zip_with F32.add (linear_row l r) r)
                      (chunks n (numel lead) d))).
Proof.
  intros Hl Hd. unfold ResidLinear_forward.
  rewrite (Linear_forward_rows lead d Hl). cbn [rbind].
  assert (Hrows : forall r, In r (chunks n (numel lead) d) -> length (linear_row l r) = n)
    by (intros r _; now apply linear_row_length with (nin := n)).
  rewrite tadd_same_shape.
  - f_equal. f_equal.
    rewrite <- (concat_chunks n (numel lead) d Hd) at 2.
    apply zip_with_rows with (n := n); [now apply chunks_Forall | exact Hrows].
  - rewrite (flat_map_length_uniform _ (n := n)) by exact Hrows.
    rewrite chunks_length, numel_app. cbn [numel fold_right]. lia.
  - rewrite numel_app. cbn [numel fold_right]. lia.
Qed.

Lemma Activation_rows n k (d : list F32.t) :
  length d = k * n ->
  map activation d = flat_map (map activation) (chunks n k d).
Proof.
  intros Hd. rewrite <- (concat_chunks n k d Hd) at 1.
  now rewrite concat_map, flat_map_concat_map.
Qed.

Lemma net_row_length din layers dout :
  fits din layers dout ->
  forall row, length row = din -> length (net_row activation layers row) = dout.
Proof.
  induction 1 as [d|d d' l rest e Hl _ IH|d l rest e Hl _ IH|d rest e _ IH];
    intros row Hrow; cbn [net_row fold_left layer_row].
  - exact Hrow.
  - apply IH. now apply linear_row_length with (nin := d).
  - apply IH. rewrite zip_with_length, (linear_row_length row Hl). lia.
  - apply IH. now rewrite length_map.
Qed.

(** A stack of layers that fit one another never raises on a batch of rows
    of the right length, and treats every row of the batch on its own. *)
Lemma Sequential_forward_rows din layers dout :
  fits din layers dout ->
  forall lead (d : list F32.t), length d = numel lead * din ->
  Sequential_forward activation layers (mk_nd (lead ++ [din]) d) =
  Ok (mk_nd (lead ++ [dout])
            (flat_map (net_row activation layers) (chunks din (numel lead) d))).
Proof.
  induction 1 as [n|n n' l rest e Hl _ IH|n l rest e Hl _ IH|n rest e _ IH];
    intros lead d Hd; cbn [Sequential_forward layer_forward].
  - f_equal. f_equal. cbn [net_row fold_left].
    rewrite flat_map_concat_map, map_id. symmetry. now apply concat_chunks.
  - rewrite (Linear_forward_rows lead d Hl). cbn [rbind].
    assert (Hrows : forall r, In r (chunks n (numel lead) d) -> length (linear_row l r) = n')
      by (intros r _; now apply linear_row_length with (nin := n)).
    rewrite IH.
    + f_equal. f_equal.
      rewrite <- (chunks_length n (numel lead) d) at 1.
      now rewrite flat_map_chunks_flat_map by exact Hrows.
    + rewrite (flat_map_length_uniform _ (n := n')) by exact Hrows.
      now rewrite chunks_length.
  - rewrite (@ResidLinear_forward_rows n l lead d Hl Hd). cbn [rbind].
    assert (Hrows : forall r, In r (chunks n (numel lead) d) ->
                              length (zip_with F32.add (linear_row l r) r) = n).
    { intros r Hr. rewrite zip_with_length, (linear_row_length r Hl).
      pose proof (chunks_Forall n (numel lead) d Hd) as HF.
      rewrite Forall_forall in HF. rewrite (HF r Hr). lia. }
    rewrite IH.
    + f_equal. f_equal.
      rewrite <- (chunks_length n (numel lead) d) at 1.
      now rewrite flat_map_chunks_flat_map by exact Hrows.
    + rewrite (flat_map_length_uniform _ (n := n)) by exact Hrows.
      now rewrite chunks_length.
  - cbn [rbind]. unfold nd_map. cbn [shape data].
    rewrite (Activation_rows n (numel lead) d Hd).
    assert (Hrows : forall r, In r (chunks n (numel lead) d) ->
                              length (map activation r) = n).
    { intros r Hr. rewrite length_map.
      pose proof (chunks_Forall n (numel lead) d Hd) as HF.
      rewrite Forall_forall in HF. exact (HF r Hr). }
    rewrite IH.
    + f_equal. f_equal.
      rewrite <- (chunks_length n (numel lead) d) at 1.
      now rewrite flat_map_chunks_flat_map by exact Hrows.
    + rewrite (flat_map_length_uniform _ (n := n)) by exact Hrows.
      now rewrite chunks_length.
Qed.

End NetworkFacts.

Lemma flat_map_singletons {A B : Type} (f : A -> list B) (g : A -> B) (l : list A) :
  (forall a, In a l -> f a = [g a]) -> flat_map f l = map g l.
Proof.
  induction l as [|a l IH]; intros H; cbn [flat_map map]; [reflexivity|].
  rewrite (H a) by now left. cbn [app]. f_equal. apply IH. intros b Hb. apply H. now right.
Qed.

Section ConstructorFacts.

Variable activation : F32.t -> F32.t.
Variable G : Type.
Variable nn_Linear : nat -> nat -> G -> Linear * G.
Hypothesis Hsizes : nn_Linear_sizes nn_Linear.

Lemma fits_app d1 l1 d2 l2 d3 : fits d1 l1 d2 -> fits d2 l2 d3 -> fits d1 (l1 ++ l2) d3.
Proof.
  induction 1; intros H2; cbn [app]; [exact H2| | |].
  - eapply fits_linear; eauto.
  - eapply fits_resid; eauto.
  - eapply fits_activation; eauto.
Qed.

Lemma hidden_layers_fits (mk : Linear -> layer) h k :
  mk = Linear_layer \/ mk = ResidLinear_layer ->
  forall g, fits h (fst (hidden_layers nn_Linear mk h k g)) h.
Proof.
  intros Hmk. induction k as [|k IH]; intros g; cbn [hidden_layers].
  - constructor.
  - pose proof (Hsizes h h g) as Hl.
    destruct (nn_Linear h h g) as [l g1]. cbn [fst] in Hl.
    specialize (IH g1). destruct (hidden_layers nn_Linear mk h k g1) as [rest g2].
    cbn [fst] in *.
    destruct Hmk as [-> | ->].
    + apply fits_linear with (d' := h); [exact Hl|]. now apply fits_activation.
    + apply fits_resid; [exact Hl|]. now apply fits_activation.
Qed.

Lemma ResidLinearDecoder_fits nlayers hidden_dim g :
  fits 3 (fst (ResidLinearDecoder_init nn_Linear nlayers hidden_dim g)) 1.
Proof.
  unfold ResidLinearDecoder_init.
  pose proof (Hsizes 3 hidden_dim g) as H0.
  destruct (nn_Linear 3 hidden_dim g) as [first g0]. cbn [fst] in H0.
  pose proof (hidden_layers_fits hidden_dim (Z.to_nat nlayers)
                (or_intror eq_refl) g0) as H1.
  destruct (hidden_layers nn_Linear ResidLinear_layer hidden_dim (Z.to_nat nlayers) g0)
    as [hidden g1]. cbn [fst] in H1.
  pose proof (Hsizes hidden_dim 1 g1) as H2.
  destruct (nn_Linear hidden_dim 1 g1) as [last g2]. cbn [fst] in *.
  cbn [app]. apply fits_linear with (d' := hidden_dim); [exact H0|].
  apply fits_activation. apply fits_app with (d2 := hidden_dim); [exact H1|].
  apply fits_linear with (d' := 1); [exact H2 | constructor].
Qed.

Lemma MLPEncoder_fits nin nlayers nhid nout g :
  let enc := fst (MLPEncoder_init nn_Linear nin nlayers nhid nout g) in
  in_dim enc = nin /\ fits nin (main enc) nout.
Proof.
  unfold MLPEncoder_init.
  pose proof (Hsizes nin nhid g) as H0.
  destruct (nn_Linear nin nhid g) as [first g0]. cbn [fst] in H0.
  pose proof (hidden_layers_fits nhid (Z.to_nat (nlayers - 1))
                (or_introl eq_refl) g0) as H1.
  destruct (hidden_layers nn_Linear Linear_layer nhid (Z.to_nat (nlayers - 1)) g0)
    as [hidden g1]. cbn [fst] in H1.
  pose proof (Hsizes nhid nout g1) as H2.
  destruct (nn_Linear nhid nout g1) as [last g2]. cbn [fst] in *.
  cbn [in_dim main]. split; [reflexivity|].
  cbn [app]. apply fits_linear with (d' := nhid); [exact H0|].
  apply fits_activation. apply fits_app with (d2 := nhid); [exact H1|].
  apply fits_linear with (d' := nout); [exact H2|]. apply fits_activation. constructor.
Qed.

(** The layers of a [ResidLinearEncoder] before its last [ResidLinear]. *)
Lemma ResidLinearEncoder_layers nin nlayers nhid nout g :
  let enc := fst (ResidLinearEncoder_init nn_Linear nin nlayers nhid nout g) in
  in_dim enc = nin
  /\ exists front last,
       main enc = front ++ [ResidLinear_layer last; Activation_layer]
       /\ fits nin front nhid /\ Linear_ok nhid nout last.
Proof.
  unfold ResidLinearEncoder_init.
  pose proof (Hsizes nin nhid g) as H0.
  destruct (nn_Linear nin nhid g) as [first g0]. cbn [fst] in H0.
  pose proof (hidden_layers_fits nhid (Z.to_nat (nlayers - 1))
                (or_intror eq_refl) g0) as H1.
  destruct (hidden_layers nn_Linear ResidLinear_layer nhid (Z.to_nat (nlayers - 1)) g0)
    as [hidden g1]. cbn [fst] in H1.
  pose proof (Hsizes nhid nout g1) as H2.
  destruct (nn_Linear nhid nout g1) as [last g2]. cbn [fst] in *.
  cbn [in_dim main]. split; [reflexivity|].
  exists ([Linear_layer first; Activation_layer] ++ hidden), last.
  split; [now rewrite <- app_assoc|]. split; [|exact H2].
  cbn [app]. apply fits_linear with (d' := nhid); [exact H0|].
  now apply fits_activation.
Qed.

Lemma Sequential_forward_app l1 l2 x :
  Sequential_forward activation (l1 ++ l2) x =
  rbind (Sequential_forward activation l1 x) (Sequential_forward activation l2).
Proof.
  revert x; induction l1 as [|ly l1 IH]; intros x; cbn [app Sequential_forward rbind].
  - reflexivity.
  - destruct (layer_forward activation ly x) as [y|e]; cbn [rbind]; [apply IH | reflexivity].
Qed.

(** On a single row, a fitting stack returns the row [net_row] gives. *)
Lemma Sequential_forward_row din layers dout (v : list F32.t) :
  fits din layers dout -> length v = din ->
  Sequential_forward activation layers (mk_nd [din] v) =
  Ok (mk_nd [dout] (net_row activation layers v)).
Proof.
  intros Hf Hv.
  change (mk_nd [din] v) with (mk_nd ([] ++ [din]) v).
  rewrite (Sequential_forward_rows activation Hf [] v) by (cbn; lia).
  cbn [app numel fold_right]. rewrite chunks_single by exact Hv.
  cbn [flat_map]. now rewrite app_nil_r.
Qed.

Lemma decoder_value_row main (v : list F32.t) :
  fits 3 main 1 -> length v = 3 ->
  net_row activation main v = [decoder_value activation main v].
Proof.
  intros Hf Hv. unfold decoder_value, ResidLinearDecoder_forward.
  rewrite (Sequential_forward_row v Hf Hv). cbn [data].
  pose proof (net_row_length activation Hf v Hv) as Hl.
  destruct (net_row activation main v) as [|y [|? ?]]; try discriminate. reflexivity.
Qed.

End ConstructorFacts.

Lemma broadcast_shapes_last_mismatch s1 s2 a b :
  a <> b -> a <> 1 -> b <> 1 -> broadcast_shapes (s1 ++ [a]) (s2 ++ [b]) = None.
Proof.
  intros Hab Ha Hb. unfold broadcast_shapes. rewrite !rev_app_distr. cbn [rev app].
  rewrite broadcast_rev_cons.
  destruct (broadcast_rev (rev s1) (rev s2)); [|reflexivity].
  unfold bcompat. apply Nat.eqb_neq in Hab, Ha, Hb. now rewrite Hab, Ha, Hb.
Qed.

Lemma Nets_sizes : nn_Linear_sizes Nets.nn_Linear.
Proof.
  intros nin nout g. unfold Linear_ok, Nets.nn_Linear.
  cbn [fst in_features out_features weight bias].
  now rewrite !length_map, !length_seq.
Qed.

(** X1. The decoder built by [ResidLinearDecoder.__init__], whatever the
    number of layers, the hidden width and the initial parameters, never
    raises on a batch of coordinates (last dimension 3): it returns one
    intensity per coordinate, and the intensity of a coordinate is the one
    the decoder gives that coordinate alone.  It is a coordinate-wise
    render model. *)
Theorem decoder_coordinate_wise (G : Type) (activation : F32.t -> F32.t)
    (nn_Linear : nat -> nat -> G -> Linear * G) (nlayers : Z) (hidden_dim : nat) (g : G)
    (mode : bool) (lead : list nat) (x : tensor) :
  nn_Linear_sizes nn_Linear ->
  shape x = lead ++ [3] -> length (data x) = numel lead * 3 ->
  let main := fst (ResidLinearDecoder_init nn_Linear nlayers hidden_dim g) in
  ResidLinearDecoder_forward activation main x =
  Ok (fst (pointwise (decoder_value activation) (mk_module mode main) x)).
Proof.
  intros Hsizes Hs Hd main.
  pose proof (ResidLinearDecoder_fits Hsizes nlayers hidden_dim g) as Hf. fold main in Hf.
  assert (Hx : x = mk_nd (lead ++ [3]) (data x)) by (rewrite <- Hs; now destruct x).
  unfold ResidLinearDecoder_forward. rewrite Hx at 1.
  rewrite (Sequential_forward_rows activation Hf lead (data x) Hd).
  unfold pointwise. cbn [fst weights]. rewrite Hs, removelast_snoc.
  f_equal. f_equal. apply flat_map_singletons.
  intros v Hv. apply decoder_value_row; [exact Hf|].
  pose proof (chunks_Forall 3 (numel lead) (data x) Hd) as HF.
  rewrite Forall_forall in HF. exact (HF v Hv).
Qed.

Lemma decoder_coordinate_wise_witness :
  let main := fst (ResidLinearDecoder_init Nets.nn_Linear 2 4 0) in
  ResidLinearDecoder_forward Nets.relu main Nets.coords =
  Ok (fst (pointwise (decoder_value Nets.relu) (mk_module false main) Nets.coords)).
Proof.
  apply decoder_coordinate_wise with (lead := [1; 3]).
  - exact Nets_sizes.
  - reflexivity.
  - reflexivity.
Defined.

(** X2. [MLPEncoder.forward] flattens its input to rows of [in_dim] pixels
    and encodes every row on its own: on [N] images it returns [N] codes of
    [out_dim] numbers, the code of an image depending on that image only,
    for any depth and hidden width.  It raises, in [view], whenever the
    number of pixels is not a multiple of [in_dim]; and every
    [nlayers <= 1] builds the network of [nlayers = 1]. *)
Theorem MLPEncoder_rows (G : Type) (activation : F32.t -> F32.t)
    (nn_Linear : nat -> nat -> G -> Linear * G)
    (nin : nat) (nlayers : Z) (nhid nout : nat) (g : G) (img : tensor) :
  nn_Linear_sizes nn_Linear ->
  length (data img) = numel (shape img) ->
  let enc := fst (MLPEncoder_init nn_Linear nin nlayers nhid nout g) in
  (forall N, 1 <= nin -> numel (shape img) = N * nin ->
     MLPEncoder_forward activation enc img =
     Ok (mk_nd [N; nout] (flat_map (net_row activation (main enc))
                                   (chunks nin N (data img))))
     /\ Forall (fun row => length (net_row activation (main enc) row) = nout)
               (chunks nin N (data img)))
  /\ (numel (shape img) mod nin <> 0 ->
      MLPEncoder_forward activation enc img = Raise ViewError)
  /\ ((nlayers <= 1)%Z ->
      MLPEncoder_init nn_Linear nin nlayers nhid nout g =
      MLPEncoder_init nn_Linear nin 1 nhid nout g).
Proof.
  intros Hsizes Hwf enc.
  destruct (MLPEncoder_fits Hsizes nin nlayers nhid nout g) as [Hin Hf].
  fold enc in Hin, Hf.
  split; [|split].
  - intros N Hnin HN. unfold MLPEncoder_forward. rewrite Hin.
    rewrite (view_infer_ok N [nin] img) by (cbn [numel fold_right]; lia).
    cbn [rbind].
    assert (Hd : length (data img) = numel [N] * nin)
      by (rewrite Hwf, HN; cbn [numel fold_right]; lia).
    change (mk_nd [N; nin] (data img)) with (mk_nd ([N] ++ [nin]) (data img)).
    rewrite (Sequential_forward_rows activation Hf [N] (data img) Hd).
    cbn [app]. replace (numel [N]) with N by (cbn [numel fold_right]; lia).
    split; [reflexivity|].
    replace (numel [N]) with N in Hd by (cbn [numel fold_right]; lia).
    eapply Forall_impl; [|apply (chunks_Forall nin N (data img) Hd)].
    intros row Hrow. now apply (net_row_length activation Hf).
  - intros Hmod. unfold MLPEncoder_forward. rewrite Hin.
    rewrite view_infer_fail; [reflexivity|].
    cbn [numel fold_right]. now rewrite Nat.mul_1_r.
  - intros Hn. unfold MLPEncoder_init.
    replace (Z.to_nat (nlayers - 1)) with (Z.to_nat (1 - 1)) by lia. reflexivity.
Qed.

Lemma MLPEncoder_rows_witness :
  let enc := fst (MLPEncoder_init Nets.nn_Linear 4 2 3 2 0) in
  MLPEncoder_forward Nets.relu enc Example.images =
  Ok (mk_nd [2; 2] (flat_map (net_row Nets.relu (main enc))
                             (chunks 4 2 (data Example.images)))).
Proof.
  refine (proj1 (proj1 (@MLPEncoder_rows nat Nets.relu Nets.nn_Linear 4 2 3 2 0
                          Example.images Nets_sizes _) 2 _ _)).
  - reflexivity.
  - lia.
  - reflexivity.
Defined.

Lemma broadcast_shapes_2 a b a' b' :
  broadcast_shapes [a; b] [a'; b'] =
  if bcompat a a' && bcompat b b' then Some [bdim a a'; bdim b b'] else None.
Proof.
  unfold broadcast_shapes. cbn [rev app].
  rewrite !broadcast_rev_cons. cbn [broadcast_rev].
  destruct (bcompat a a'), (bcompat b b'); reflexivity.
Qed.

(** X3. [ResidLinearEncoder] ends with [ResidLinear(hidden_dim, out_dim)],
    whose [linear(x) + x] adds rows of [out_dim] and of [hidden_dim]
    numbers.  On [N] images: when the two widths are equal the encoder
    returns [N] codes of [out_dim] numbers; when they differ and neither is
    1, every call of [forward] raises in that sum, whatever the images; and
    when [out_dim] is 1 and [hidden_dim] is not, the sum broadcasts and the
    encoder returns codes of [hidden_dim] numbers instead of one. *)
Theorem ResidLinearEncoder_widths (G : Type) (activation : F32.t -> F32.t)
    (nn_Linear : nat -> nat -> G -> Linear * G)
    (nin : nat) (nlayers : Z) (nhid nout : nat) (g : G) (img : tensor) (N : nat) :
  nn_Linear_sizes nn_Linear ->
  length (data img) = numel (shape img) ->
  1 <= nin -> numel (shape img) = N * nin ->
  let enc := fst (ResidLinearEncoder_init nn_Linear nin nlayers nhid nout g) in
  (nhid = nout ->
   exists d, ResidLinearEncoder_forward activation enc img = Ok (mk_nd [N; nout] d)
             /\ length d = N * nout)
  /\ (nhid <> nout -> nhid <> 1 -> nout <> 1 ->
      ResidLinearEncoder_forward activation enc img = Raise BroadcastError)
  /\ (nout = 1 -> nhid <> 1 ->
      exists d, ResidLinearEncoder_forward activation enc img = Ok (mk_nd [N; nhid] d)).
Proof.
  intros Hsizes Hwf Hnin HN enc.
  destruct (ResidLinearEncoder_layers Hsizes nin nlayers nhid nout g)
    as (Hin & front & last & Hmain & Hfront & Hlast).
  fold enc in Hin, Hmain.
  assert (Hd : length (data img) = numel [N] * nin)
    by (rewrite Hwf, HN; cbn [numel fold_right]; lia).
  assert (Hview : view_infer [nin] img = Ok (mk_nd ([N] ++ [nin]) (data img))).
  { rewrite (view_infer_ok N [nin] img) by (cbn [numel fold_right]; lia). reflexivity. }
  unfold ResidLinearEncoder_forward. rewrite Hin, Hview, Hmain. cbn [rbind].
  split; [|split].
  - intros <-.
    assert (Hf : fits nin (front ++ [ResidLinear_layer last; Activation_layer]) nhid).
    { apply fits_app with (d2 := nhid); [exact Hfront|].
      apply fits_resid; [exact Hlast|]. apply fits_activation. constructor. }
    rewrite (Sequential_forward_rows activation Hf [N] (data img) Hd).
    eexists. split; [reflexivity|].
    rewrite (flat_map_length_uniform _ (n := nhid)).
    + rewrite chunks_length. cbn [numel fold_right]. lia.
    + intros row Hrow. apply (net_row_length activation Hf).
      pose proof (chunks_Forall nin (numel [N]) (data img) Hd) as HF.
      rewrite Forall_forall in HF. exact (HF row Hrow).
  - intros Hne Hh Ho.
    rewrite Sequential_forward_app.
    rewrite (Sequential_forward_rows activation Hfront [N] (data img) Hd).
    cbn [rbind Sequential_forward layer_forward]. unfold ResidLinear_forward.
    rewrite (Linear_forward_rows [N] _ Hlast). cbn [rbind].
    unfold tadd, broadcast2. cbn [shape].
    rewrite broadcast_shapes_last_mismatch by auto. reflexivity.
  - intros -> Hh.
    rewrite Sequential_forward_app.
    rewrite (Sequential_forward_rows activation Hfront [N] (data img) Hd).
    cbn [rbind Sequential_forward layer_forward]. unfold ResidLinear_forward.
    rewrite (Linear_forward_rows [N] _ Hlast). cbn [rbind].
    unfold tadd, broadcast2. cbn [shape app].
    rewrite broadcast_shapes_2, bcompat_refl, bcompat_1_l, bdim_refl, bdim_1_l.
    cbn [andb rbind]. unfold nd_map. cbn [shape]. eexists. reflexivity.
Qed.

Lemma ResidLinearEncoder_widths_witness :
  ResidLinearEncoder_forward Nets.relu
    (fst (ResidLinearEncoder_init Nets.nn_Linear 4 2 3 2 0)) Example.images
  = Raise BroadcastError.
Proof.
  refine (proj1 (proj2 (@ResidLinearEncoder_widths nat Nets.relu Nets.nn_Linear 4 2 3 2 0
                          Example.images 2 Nets_sizes _ _ _)) _ _ _).
  - reflexivity.
  - lia.
  - reflexivity.
  - lia.
  - lia.
  - lia.
Defined.

(** ** Pose storage *)

Lemma to_f32_one : F64.to_f32 (F64.of_Z 1) = F32.one.
Proof. vm_compute. reflexivity. Qed.

Lemma mul_one_l_canonical x : canonical32 x -> F32.mul F32.one x = x.
Proof.
  unfold canonical32. intros H. destruct x as [s|s| |s m e].
  - now destruct s.
  - now destruct s.
  - reflexivity.
  - rewrite mul_comm. apply mul_one_r. unfold F32.valid. now rewrite H.
Qed.

Lemma scale_by_one (t : tensor) :
  Forall canonical32 (data t) ->
  np_scale (F64.of_Z 1) (to_numpy t) = to_numpy t.
Proof.
  intros H. unfold np_scale, to_numpy. cbn [np_dtype np_array]. f_equal.
  unfold nd_map. destruct t as [s d]. cbn [shape data] in *. f_equal.
  rewrite to_f32_one. induction H as [|x d Hx _ IH]; cbn [map]; [reflexivity|].
  now rewrite IH, mul_one_l_canonical.
Qed.

Lemma to_float32_shape a : shape (to_float32 a) = shape (np_array a).
Proof. unfold to_float32. now destruct (np_dtype a). Qed.

Lemma to_float32_numpy t : to_float32 (to_numpy t) = t.
Proof. reflexivity. Qed.

(** X4. Saving and loading are inverse for a tracker without embedding.
    A tracker built by [PoseTracker(rots, trans)] from [N] rotations (and
    [N] translations, or none) and saved to a file is read back by
    [PoseTracker.load] of that file, with [tscale = 1.0] and no filter, as
    an equal tracker; the load leaves the generator and the files as they
    are and prints the warning exactly when there are no translations. *)
Theorem save_load_round_trip (G FS : Type) (randn : G -> nat -> list F32.t * G)
    (load_pkl : String.string -> FS -> outcome pyobj)
    (pickle_dump : pyobj -> String.string -> FS -> outcome FS)
    (rot_to_s2s2 s2s2_to_rot rot_to_quat quat_to_rot : list F32.t -> list F32.t)
    (rots_np : nparray) (trans_np : option nparray) (N : nat)
    (path : String.string) (s s1 : io_state G FS) :
  (forall obj fs fs', pickle_dump obj path fs = Return fs' -> load_pkl path fs' = Return obj) ->
  shape (np_array rots_np) = [N; 3; 3] ->
  (forall t, trans_np = Some t ->
     shape (np_array t) = [N; 2] /\ Forall canonical32 (data (to_float32 t))) ->
  exists self,
    PoseTracker_init randn rot_to_s2s2 rot_to_quat rots_np trans_np None s = (Return self, s)
    /\ (PoseTracker_save pickle_dump s2s2_to_rot quat_to_rot self path s = (Return tt, s1) ->
        PoseTracker_load randn load_pkl rot_to_s2s2 rot_to_quat
                         [path] N None (F64.of_Z 1) None s1
        = (Return self,
           mk_io (io_rng s1) (io_files s1)
                 (io_log s1 ++ match trans_np with
                               | Some _ => []
                               | None => ["WARNING: No translations provided"%string]
                               end))).
Proof.
  intros Hfile Hrots Htrans.
  eexists. split; [reflexivity|].
  unfold PoseTracker_save, write_pkl, io_bind, io_lift.
  cbn [emb_type use_trans rots trans].
  destruct trans_np as [t|]; cbn [option_map need obind].
  - destruct (Htrans t eq_refl) as [Hts Htv].
    destruct (pickle_dump _ path (io_files s)) as [fs'|e] eqn:Hdump; [|discriminate].
    intros E. injection E as <-.
    specialize (Hfile _ _ _ Hdump).
    unfold PoseTracker_load, io_bind, io_assert, io_lift, read_pkl, io_ret.
    cbn [length Nat.eqb orb io_files]. rewrite Hfile.
    cbn [map filter_poses assert_shape np_array to_numpy].
    rewrite to_float32_shape, Hrots. cbn [shape_eqb Nat.eqb andb].
    rewrite !Nat.eqb_refl. cbn [andb py_scale].
    rewrite (scale_by_one _ Htv).
    cbn [filter_poses assert_shape np_array to_numpy].
    rewrite to_float32_shape, Hts. cbn [shape_eqb]. rewrite !Nat.eqb_refl. cbn [andb].
    unfold PoseTracker_init, io_ret. cbn [option_map]. rewrite !to_float32_numpy.
    now rewrite app_nil_r.
  - destruct (pickle_dump _ path (io_files s)) as [fs'|e] eqn:Hdump; [|discriminate].
    intros E. injection E as <-.
    specialize (Hfile _ _ _ Hdump).
    unfold PoseTracker_load, io_bind, io_assert, io_lift, read_pkl, io_ret.
    cbn [length Nat.eqb orb io_files]. rewrite Hfile.
    cbn [map filter_poses assert_shape np_array to_numpy].
    rewrite to_float32_shape, Hrots. cbn [shape_eqb Nat.eqb andb].
    rewrite !Nat.eqb_refl. cbn [andb log io_rng io_files io_log].
    unfold PoseTracker_init, io_ret. cbn [option_map]. now rewrite !to_float32_numpy.
Qed.

Lemma save_load_round_trip_witness :
  exists self,
    PoseTracker_init Example.randn Poses.rot_to_s2s2 Poses.rot_to_quat
                     Poses.rots_np (Some Poses.trans_np) None Poses.s0 = (Return self, Poses.s0)
    /\ (PoseTracker_save Poses.pickle_dump Poses.s2s2_to_rot Example.quat_to_rot
                         self "poses.pkl"%string Poses.s0
        = (Return tt,
           mk_io 0 [("poses.pkl"%string,
                     PyTuple (pose_items (to_float32 Poses.rots_np)
                                         (Some (to_float32 Poses.trans_np))))] []) ->
        PoseTracker_load Example.randn Poses.load_pkl Poses.rot_to_s2s2 Poses.rot_to_quat
                         ["poses.pkl"%string] 2 None (F64.of_Z 1) None
                         (mk_io 0 [("poses.pkl"%string,
                                    PyTuple (pose_items (to_float32 Poses.rots_np)
                                                        (Some (to_float32 Poses.trans_np))))] [])
        = (Return self,
           mk_io 0 [("poses.pkl"%string,
                     PyTuple (pose_items (to_float32 Poses.rots_np)
                                         (Some (to_float32 Poses.trans_np))))] ([] ++ []))).
Proof.
  apply (@save_load_round_trip nat Poses.FS Example.randn Poses.load_pkl Poses.pickle_dump
           Poses.rot_to_s2s2 Poses.s2s2_to_rot Poses.rot_to_quat Example.quat_to_rot
           Poses.rots_np (Some Poses.trans_np) 2 "poses.pkl"%string Poses.s0
           (mk_io 0 [("poses.pkl"%string,
                      PyTuple (pose_items (to_float32 Poses.rots_np)
                                          (Some (to_float32 Poses.trans_np))))] [])).
  - intros obj fs fs' H. injection H as <-. reflexivity.
  - reflexivity.
  - intros t H. injection H as <-. split; [reflexivity|].
    repeat constructor.
Defined.

(** A pickled array of the asserted shape, whose first dimension is
    [Nimg], is not filtered. *)
Lemma filter_poses_exact o Nimg rest a ind :
  assert_shape o (Nimg :: rest) = Return a -> filter_poses o Nimg ind = Return o.
Proof.
  intros H. destruct ind as [i|]; [|reflexivity].
  unfold filter_poses. destruct o as [b|items]; [|discriminate].
  cbn [assert_shape] in H. cbn [py_len].
  destruct (shape (np_array b)) as [|d sh] eqn:Hs; [discriminate|].
  cbn [shape_eqb] in H. destruct (d =? Nimg) eqn:Hd; [|discriminate].
  apply Nat.eqb_eq in Hd. subst d. cbn [obind]. now rewrite Nat.ltb_irrefl.
Qed.

(** X5. The filter of [PoseTracker.load] is applied only to a file that
    holds more than [Nimg] poses: whenever a load without filter
    succeeds, the same load with any index array [ind] ignores it and
    returns the same tracker, with the same effects. *)
Theorem load_ignores_filter (G FS : Type) (randn : G -> nat -> list F32.t * G)
    (load_pkl : String.string -> FS -> outcome pyobj)
    (rot_to_s2s2 rot_to_quat : list F32.t -> list F32.t)
    (infile : list String.string) (Nimg : nat) (emb_type : option String.string)
    (tscale : F64.t) (ind : ndarray Z) (s s' : io_state G FS) (self : PoseTracker) :
  PoseTracker_load randn load_pkl rot_to_s2s2 rot_to_quat infile Nimg emb_type tscale None s
  = (Return self, s') ->
  PoseTracker_load randn load_pkl rot_to_s2s2 rot_to_quat infile Nimg emb_type tscale
                   (Some ind) s
  = (Return self, s').
Proof.
  unfold PoseTracker_load, io_bind.
  destruct (io_assert _ s) as [[[]|e] s0]; [|discriminate].
  match goal with |- context [match ?m s0 with _ => _ end] => destruct (m s0) as [[poses|e] s2] end;
    [|discriminate].
  unfold io_lift.
  destruct poses as [|p0 poses]; [discriminate|].
  change (filter_poses p0 Nimg None) with (Return p0).
  cbv beta iota.
  destruct (assert_shape p0 [Nimg; 3; 3]) as [r|e] eqn:Hr; [|intros H; discriminate H].
  rewrite (@filter_poses_exact p0 Nimg [3; 3] r (Some ind) Hr). rewrite Hr.
  destruct poses as [|p1 [|p2 poses]]; try (intros H; exact H).
  unfold io_ret.
  destruct (py_scale tscale p1) as [t|e]; [|intros H; discriminate H].
  change (filter_poses t Nimg None) with (Return t). cbv beta iota.
  destruct (assert_shape t [Nimg; 2]) as [ta|e] eqn:Ht; [|intros H; discriminate H].
  rewrite (@filter_poses_exact t Nimg [2] ta (Some ind) Ht). rewrite Ht.
  intros H; exact H.
Qed.

Lemma load_ignores_filter_witness :
  exists self s',
    PoseTracker_load Example.randn Poses.load_pkl Poses.rot_to_s2s2 Poses.rot_to_quat
                     ["poses.pkl"%string] 2 (Some "quat"%string) (F64.of_Z 2)
                     (Some (mk_nd [2] [1; 0]%Z)) Poses.stored
    = (Return self, s').
Proof.
  eexists. eexists. apply load_ignores_filter. vm_compute. reflexivity.
Defined.

Lemma copy_shape (dst src r : tensor) : copy_ dst src = Ok r -> shape r = shape dst.
Proof.
  unfold copy_. destruct (broadcast_shapes (shape src) (shape dst)) as [sh|]; [|discriminate].
  destruct (shape_eqb sh (shape dst)) eqn:E; [|discriminate].
  intros H. injection H as <-. cbn [shape]. now apply shape_eqb_eq.
Qed.

Lemma size0_hd {A : Type} (t : ndarray A) n : size0 t = Ok n -> exists rest, shape t = n :: rest.
Proof.
  unfold size0. destruct (shape t) as [|d rest]; [discriminate|].
  intros H. injection H as <-. now exists rest.
Qed.

Section PoseFacts.

Variables (G FS : Type).
Variable randn : G -> nat -> list F32.t * G.
Variable load_pkl : String.string -> FS -> outcome pyobj.
Variables rot_to_s2s2 rot_to_quat : list F32.t -> list F32.t.

(** An embedding built to hold [src] has the shape asked for. *)
Lemma Embedding_of_shape n d src (s s' : io_state G FS) w :
  Embedding_of randn n d src s = (Return w, s') -> shape w = [n; d].
Proof.
  unfold Embedding_of, io_bind, Embedding, io_lift.
  destruct (randn (io_rng s) (n * d)) as [l g'].
  destruct src as [x|e]; cbn [rbind of_result]; [|discriminate].
  destruct (copy_ _ x) as [r|e] eqn:Hc; cbn [of_result]; [|discriminate].
  intros H. injection H as <- _. now rewrite (copy_shape _ _ Hc).
Qed.

(** The constructor, given [N] rotations and [N] translations (or none),
    returns a tracker of [N] poses of the embedding type asked for. *)
Lemma PoseTracker_init_shapes N rots_np trans_np emb (s s' : io_state G FS) self :
  shape (np_array rots_np) = [N; 3; 3] ->
  (forall t, trans_np = Some t -> shape (np_array t) = [N; 2]) ->
  PoseTracker_init randn rot_to_s2s2 rot_to_quat rots_np trans_np emb s = (Return self, s') ->
  tracker_shapes N self /\ emb_type self = emb.
Proof.
  intros Hr Ht. unfold PoseTracker_init, tracker_shapes. destruct emb as [e|].
  2:{ unfold io_ret. intros H. injection H as <- _. cbn [rots trans use_trans emb_type
        rots_emb trans_emb]. rewrite to_float32_shape, Hr.
      destruct trans_np as [t|]; cbn [option_map].
      - rewrite to_float32_shape, (Ht t eq_refl). repeat split; reflexivity.
      - repeat split; reflexivity. }
  assert (Hsz : size0 (to_float32 rots_np) = Ok N)
    by (unfold size0; now rewrite to_float32_shape, Hr).
  unfold io_bind at 1.
  destruct trans_np as [t|]; cbn [option_map].
  - assert (Hst : size0 (to_float32 t) = Ok N)
      by (unfold size0; now rewrite to_float32_shape, (Ht t eq_refl)).
    unfold io_bind at 1. unfold io_lift at 1. rewrite Hst. cbn [of_result].
    unfold io_bind at 1.
    destruct (Embedding_of randn N 2 (Ok (to_float32 t)) s) as [[wt|err] s1] eqn:Hwt;
      [|discriminate].
    apply Embedding_of_shape in Hwt.
    unfold io_ret at 1. unfold io_bind at 1.
    destruct (String.eqb e "s2s2") eqn:E1; [|destruct (String.eqb e "quat") eqn:E2].
    + unfold io_bind at 1. unfold io_lift at 1. rewrite Hsz. cbn [of_result].
      destruct (Embedding_of randn N 6 _ s1) as [[w|err] s2] eqn:Hw; [|discriminate].
      apply Embedding_of_shape in Hw. apply String.eqb_eq in E1.
      unfold io_ret. intros H. injection H as <- _.
      cbn [rots trans use_trans emb_type rots_emb trans_emb].
      rewrite !to_float32_shape, Hr, (Ht t eq_refl).
      repeat split; eauto 6.
    + unfold io_bind at 1. unfold io_lift at 1. rewrite Hsz. cbn [of_result].
      destruct (Embedding_of randn N 4 _ s1) as [[w|err] s2] eqn:Hw; [|discriminate].
      apply Embedding_of_shape in Hw. apply String.eqb_eq in E2.
      unfold io_ret. intros H. injection H as <- _.
      cbn [rots trans use_trans emb_type rots_emb trans_emb].
      rewrite !to_float32_shape, Hr, (Ht t eq_refl).
      repeat split; eauto 6.
    + unfold io_lift. discriminate.
  - unfold io_ret at 1. unfold io_bind at 1.
    destruct (String.eqb e "s2s2") eqn:E1; [|destruct (String.eqb e "quat") eqn:E2].
    + unfold io_bind at 1. unfold io_lift at 1. rewrite Hsz. cbn [of_result].
      destruct (Embedding_of randn N 6 _ s) as [[w|err] s2] eqn:Hw; [|discriminate].
      apply Embedding_of_shape in Hw. apply String.eqb_eq in E1.
      unfold io_ret. intros H. injection H as <- _.
      cbn [rots trans use_trans emb_type rots_emb trans_emb].
      rewrite !to_float32_shape, Hr.
      repeat split; eauto 6.
    + unfold io_bind at 1. unfold io_lift at 1. rewrite Hsz. cbn [of_result].
      destruct (Embedding_of randn N 4 _ s) as [[w|err] s2] eqn:Hw; [|discriminate].
      apply Embedding_of_shape in Hw. apply String.eqb_eq in E2.
      unfold io_ret. intros H. injection H as <- _.
      cbn [rots trans use_trans emb_type rots_emb trans_emb].
      rewrite !to_float32_shape, Hr.
      repeat split; eauto 6.
    + unfold io_lift. discriminate.
Qed.

Lemma assert_shape_inv o sh a :
  assert_shape o sh = Return a -> o = PyArray a /\ shape (np_array a) = sh.
Proof.
  destruct o as [b|items]; cbn [assert_shape]; [|discriminate].
  destruct (shape_eqb (shape (np_array b)) sh) eqn:E; [|discriminate].
  intros H. injection H as <-. split; [reflexivity | now apply shape_eqb_eq].
Qed.

End PoseFacts.

(** X6. Every tracker [PoseTracker.load] returns holds exactly [Nimg]
    poses: [Nimg] rotation matrices of 3 x 3 numbers, [Nimg]
    translations of 2 numbers when the files hold translations, and
    embeddings of [Nimg] rows for the embedding type asked for, which can
    only be [s2s2] or [quat].  It was read from one or two files. *)
Theorem load_shapes (G FS : Type) (randn : G -> nat -> list F32.t * G)
    (load_pkl : String.string -> FS -> outcome pyobj)
    (rot_to_s2s2 rot_to_quat : list F32.t -> list F32.t)
    (infile : list String.string) (Nimg : nat) (emb : option String.string)
    (tscale : F64.t) (ind : option (ndarray Z)) (s s' : io_state G FS) (self : PoseTracker) :
  PoseTracker_load randn load_pkl rot_to_s2s2 rot_to_quat infile Nimg emb tscale ind s
  = (Return self, s') ->
  tracker_shapes Nimg self /\ emb_type self = emb
  /\ (length infile = 1 \/ length infile = 2).
Proof.
  unfold PoseTracker_load, io_bind.
  unfold io_assert at 1. unfold io_lift at 1.
  destruct ((length infile =? 1) || (length infile =? 2)) eqn:Hlen; [|discriminate].
  match goal with |- context [match ?m s with _ => _ end] => destruct (m s) as [[poses|e] s2] end;
    [|discriminate].
  unfold io_lift.
  destruct poses as [|p0 poses]; [discriminate|].
  destruct (filter_poses p0 Nimg ind) as [r0|e]; [|discriminate].
  destruct (assert_shape r0 [Nimg; 3; 3]) as [r|e] eqn:Hr; [|intros H; discriminate H].
  apply assert_shape_inv in Hr as [_ Hr].
  assert (Hfiles : length infile = 1 \/ length infile = 2).
  { apply orb_prop in Hlen as [H|H]; apply Nat.eqb_eq in H; auto. }
  destruct poses as [|p1 [|p2 poses]].
  - unfold log, io_ret. intros H.
    apply PoseTracker_init_shapes with (N := Nimg) in H; [|exact Hr|discriminate].
    destruct H as [H1 H2]. auto.
  - unfold io_ret.
    destruct (py_scale tscale p1) as [t0|e]; [|intros H; discriminate H].
    destruct (filter_poses t0 Nimg ind) as [t1|e]; [|intros H; discriminate H].
    destruct (assert_shape t1 [Nimg; 2]) as [t|e] eqn:Ht; [|intros H; discriminate H].
    apply assert_shape_inv in Ht as [_ Ht]. intros H.
    apply PoseTracker_init_shapes with (N := Nimg) in H; [|exact Hr|].
    + destruct H as [H1 H2]. auto.
    + intros t' E. injection E as <-. exact Ht.
  - unfold log, io_ret. intros H.
    apply PoseTracker_init_shapes with (N := Nimg) in H; [|exact Hr|discriminate].
    destruct H as [H1 H2]. auto.
Qed.

Lemma load_shapes_witness :
  exists self s',
    PoseTracker_load Example.randn Poses.load_pkl Poses.rot_to_s2s2 Poses.rot_to_quat
                     ["rot.pkl"%string; "trans.pkl"%string] 2 (Some "quat"%string)
                     (F64.of_Z 2) None Poses.stored2 = (Return self, s')
    /\ tracker_shapes 2 self /\ emb_type self = Some "quat"%string.
Proof.
  destruct (PoseTracker_load Example.randn Poses.load_pkl Poses.rot_to_s2s2 Poses.rot_to_quat
              ["rot.pkl"%string; "trans.pkl"%string] 2 (Some "quat"%string) (F64.of_Z 2)
              None Poses.stored2) as [o s'] eqn:E.
  destruct o as [self|e]; [|vm_compute in E; discriminate E].
  exists self, s'. split; [reflexivity|].
  destruct (@load_shapes nat Poses.FS Example.randn Poses.load_pkl Poses.rot_to_s2s2
              Poses.rot_to_quat ["rot.pkl"%string; "trans.pkl"%string] 2
              (Some "quat"%string) (F64.of_Z 2) None Poses.stored2 s' self E)
    as (H1 & H2 & _).
  split; assumption.
Defined.

Lemma wrap_indices_seq d n k :
  n + k <= d -> wrap_indices d (map Z.of_nat (seq n k)) = Some (seq n k).
Proof.
  revert n; induction k as [|k IH]; intros n H; cbn [seq map wrap_indices]; [reflexivity|].
  rewrite IH by lia. unfold wrap_index.
  replace ((0 <=? Z.of_nat n)%Z && (Z.of_nat n <? Z.of_nat d)%Z) with true.
  - now rewrite Nat2Z.id.
  - symmetry. apply andb_true_intro. split; [apply Z.leb_le | apply Z.ltb_lt]; lia.
Qed.

Lemma rows_in_order {A : Type} (rows : list (list A)) :
  flat_map (fun i => nth i rows []) (seq 0 (length rows)) = concat rows.
Proof.
  rewrite flat_map_concat_map. f_equal.
  rewrite (map_seq_nth (fun r => r) rows []). apply map_id.
Qed.

(** Taking all the rows of a tensor, in order, gives the tensor back. *)
Lemma take_rows_all {A : Type} (t : ndarray A) N rest :
  shape t = N :: rest -> wf t -> take_rows t (all_indices N) = Ok t.
Proof.
  intros Hs Hw. unfold take_rows, all_indices. rewrite Hs. cbn [data shape].
  rewrite wrap_indices_seq by lia.
  unfold wf in Hw. rewrite Hs, numel_cons in Hw.
  rewrite <- (chunks_length (numel rest) N (data t)) at 2.
  rewrite rows_in_order, concat_chunks by exact Hw.
  cbn [app]. rewrite <- Hs. now destruct t.
Qed.

Lemma Embedding_forward_all (w : tensor) N d :
  shape w = [N; d] -> wf w -> Embedding_forward w (all_indices N) = Ok w.
Proof.
  intros Hs Hw. unfold Embedding_forward, all_indices. rewrite Hs. cbn [data shape].
  replace (forallb _ (map Z.of_nat (seq 0 N))) with true.
  - unfold wf in Hw. rewrite Hs in Hw. cbn [numel fold_right] in Hw.
    rewrite flat_map_concat_map, map_map.
    erewrite map_ext by (intros i; now rewrite Nat2Z.id).
    rewrite <- flat_map_concat_map.
    rewrite <- (chunks_length d N (data w)) at 2.
    rewrite rows_in_order, concat_chunks by lia.
    cbn [app]. rewrite <- Hs. now destruct w.
  - symmetry. apply forallb_forall. intros i Hi. apply in_map_iff in Hi as (n & <- & Hn).
    apply in_seq in Hn. apply andb_true_intro.
    split; [apply Z.leb_le | apply Z.ltb_lt]; lia.
Qed.

(** X7. [PoseTracker.save] writes exactly the poses [get_pose] serves.
    For a tracker of [N] poses, of any embedding type, [get_pose] of the
    indices [0, ..., N-1] returns, and [save] pickles the tuple of the
    rotations it returns, followed by the translations it returns if the
    tracker has translations. *)
Theorem save_writes_served_poses (G FS : Type)
    (pickle_dump : pyobj -> String.string -> FS -> outcome FS)
    (s2s2_to_rot quat_to_rot : list F32.t -> list F32.t)
    (self : PoseTracker) (N : nat) (path : String.string) (s : io_state G FS) :
  tracker_shapes N self -> Forall (@wf F32.t) (tensors_of self) ->
  exists rot tran,
    PoseTracker_get_pose s2s2_to_rot quat_to_rot self (all_indices N) = Return (rot, tran)
    /\ PoseTracker_save pickle_dump s2s2_to_rot quat_to_rot self path s
       = write_pkl pickle_dump (PyTuple (pose_items rot tran)) path s.
Proof.
  destruct self as [r t u e re te]. unfold tracker_shapes, tensors_of.
  cbn [rots trans use_trans emb_type rots_emb trans_emb].
  intros (Hr & Ht & He) Hwf.
  apply Forall_cons_iff in Hwf as [Hwr Hwf].
  unfold PoseTracker_get_pose, PoseTracker_save, io_bind, io_lift, pose_items.
  cbn [rots trans use_trans emb_type rots_emb trans_emb].
  destruct e as [e|].
  - destruct He as ((w & -> & Hw) & Hte).
    assert (Hww : wf w).
    { destruct t; cbn [app] in Hwf; [apply Forall_cons_iff in Hwf as [_ Hwf]|];
        now apply Forall_cons_iff in Hwf as [Hww _]. }
    assert (Hconv : forall d, shape w = [N; d] -> Embedding_forward w (all_indices N) = Ok w)
      by (intros d Hd; now apply Embedding_forward_all with (d := d)).
    assert (Hrot : exists rot,
      (if String.eqb e "s2s2"
       then obind (need AttributeError (Some w)) (fun w0 =>
              of_result (rbind (Embedding_forward w0 (all_indices N))
                               (s2s2_to_SO3 s2s2_to_rot)))
       else if String.eqb e "quat"
       then obind (need AttributeError (Some w)) (fun w0 =>
              of_result (rbind (Embedding_forward w0 (all_indices N))
                               (quaternions_to_SO3 quat_to_rot)))
       else Throw RuntimeError) = Return rot
      /\ (if String.eqb e "quat"
          then obind (need AttributeError (Some w)) (fun w0 =>
                 of_result (quaternions_to_SO3 quat_to_rot w0))
          else if String.eqb e "s2s2"
          then obind (need AttributeError (Some w)) (fun w0 =>
                 of_result (s2s2_to_SO3 s2s2_to_rot w0))
          else Return r) = Return rot).
    { destruct Hw as [[-> Hw] | [-> Hw]]; cbn [String.eqb Ascii.eqb Bool.eqb need obind].
      - rewrite (Hconv 6 Hw). cbn [rbind]. unfold s2s2_to_SO3. rewrite Hw. cbn [rev app].
        eexists. split; reflexivity.
      - rewrite (Hconv 4 Hw). cbn [rbind]. unfold quaternions_to_SO3. rewrite Hw. cbn [rev app].
        eexists. split; reflexivity. }
    destruct Hrot as (rot & -> & ->). cbn [obind].
    destruct t as [t0|].
    + destruct Ht as [-> Hts]. destruct Hte as (wt & -> & Hwt).
      assert (Hwwt : wf wt).
      { cbn [app] in Hwf. apply Forall_cons_iff in Hwf as [_ Hwf].
        apply Forall_cons_iff in Hwf as [_ Hwf]. now apply Forall_cons_iff in Hwf as [H _]. }
      exists rot, (Some wt). cbn [need obind].
      rewrite (Embedding_forward_all Hwt Hwwt). cbn [of_result obind]. split; reflexivity.
    + rewrite Ht. exists rot, None. split; reflexivity.
  - rewrite (take_rows_all Hr Hwr). cbn [of_result obind].
    destruct t as [t0|].
    + destruct Ht as [-> Hts].
      assert (Hwt : wf t0) by (cbn [app] in Hwf; now apply Forall_cons_iff in Hwf as [H _]).
      cbn [need obind]. rewrite (take_rows_all Hts Hwt). cbn [of_result obind].
      exists r, (Some t0). split; reflexivity.
    + rewrite Ht. exists r, None. split; reflexivity.
Qed.

Lemma save_writes_served_poses_witness :
  let self := mk_PoseTracker (to_float32 Poses.rots_np) (Some (to_float32 Poses.trans_np))
                             true None None None in
  exists rot tran,
    PoseTracker_get_pose Poses.s2s2_to_rot Example.quat_to_rot self (all_indices 2)
    = Return (rot, tran)
    /\ PoseTracker_save Poses.pickle_dump Poses.s2s2_to_rot Example.quat_to_rot self
                        "out.pkl"%string Poses.s0
       = write_pkl Poses.pickle_dump (PyTuple (pose_items rot tran)) "out.pkl"%string Poses.s0.
Proof.
  apply save_writes_served_poses.
  - repeat split; reflexivity.
  - repeat constructor.
Defined.

(** X8. The storage layouts [PoseTracker.load] documents are read alike:
    two files holding the rotations and the translations give the same
    tracker, with the same effects, as one file holding the tuple of both;
    and a file holding the rotations alone is read as a file holding the
    tuple of the rotations only. *)
Theorem load_layouts (G FS : Type) (randn : G -> nat -> list F32.t * G)
    (load_pkl : String.string -> FS -> outcome pyobj)
    (rot_to_s2s2 rot_to_quat : list F32.t -> list F32.t)
    (f f0 f1 : String.string) (R T : nparray) (Nimg : nat) (emb : option String.string)
    (tscale : F64.t) (ind : option (ndarray Z)) (s : io_state G FS) :
  load_pkl f0 (io_files s) = Return (PyArray R) ->
  let load := PoseTracker_load randn load_pkl rot_to_s2s2 rot_to_quat in
  (load_pkl f1 (io_files s) = Return (PyArray T) ->
   load_pkl f (io_files s) = Return (PyTuple [R; T]) ->
   load [f0; f1] Nimg emb tscale ind s = load [f] Nimg emb tscale ind s)
  /\ (load_pkl f (io_files s) = Return (PyTuple [R]) ->
      load [f0] Nimg emb tscale ind s = load [f] Nimg emb tscale ind s).
Proof.
  intros H0 load. unfold load, PoseTracker_load, io_bind, io_assert, io_lift, read_pkl, io_ret.
  cbn [length Nat.eqb orb].
  split.
  - intros H1 Hf. now rewrite H0, H1, Hf.
  - intros Hf. now rewrite H0, Hf.
Qed.

Lemma load_layouts_witness :
  let load := PoseTracker_load Example.randn Poses.load_pkl Poses.rot_to_s2s2 Poses.rot_to_quat in
  load ["rot.pkl"%string; "trans.pkl"%string] 2 None (F64.of_Z 2) None Poses.layouts
  = load ["poses.pkl"%string] 2 None (F64.of_Z 2) None Poses.layouts.
Proof.
  refine (proj1 (@load_layouts nat Poses.FS Example.randn Poses.load_pkl Poses.rot_to_s2s2
                   Poses.rot_to_quat "poses.pkl"%string "rot.pkl"%string "trans.pkl"%string
                   Poses.rots_np Poses.trans_np 2 None (F64.of_Z 2) None Poses.layouts _) _ _).
  - reflexivity.
  - reflexivity.
  - reflexivity.
Defined.

(** ** The error of a candidate *)

Lemma round_aux_unsigned m e l :
  unsigned32 (binary_round_aux F32.prec F32.emax false m e l) = true.
Proof.
  unfold binary_round_aux.
  destruct (shr_fexp F32.prec F32.emax m e l) as [mrs e1].
  destruct (shr_fexp F32.prec F32.emax _ e1 loc_Exact) as [mrs2 e2].
  destruct (shr_m mrs2); [reflexivity| |reflexivity].
  destruct (e2 <=? F32.emax - F32.prec)%Z; reflexivity.
Qed.

Lemma round_unsigned m e : unsigned32 (binary_round F32.prec F32.emax false m e) = true.
Proof.
  unfold binary_round. destruct (shl_align m e _) as [mz ez]. apply round_aux_unsigned.
Qed.

Lemma pow2_unsigned x : unsigned32 (F32.pow2 x) = true.
Proof.
  unfold F32.pow2, F32.mul. destruct x as [s|s| |s m e]; cbn [SFmul unsigned32].
  - now destruct s.
  - now destruct s.
  - reflexivity.
  - replace (xorb s s) with false by now destruct s. apply round_aux_unsigned.
Qed.

Lemma add_unsigned x y :
  unsigned32 x = true -> unsigned32 y = true -> unsigned32 (F32.add x y) = true.
Proof.
  unfold F32.add.
  destruct x as [sx|sx| |sx mx ex], y as [sy|sy| |sy my ey]; cbn [unsigned32];
    intros Hx Hy; try apply negb_true_iff in Hx; try apply negb_true_iff in Hy; subst;
    try reflexivity.
  cbn [SFadd cond_Zopp]. cbn [Z.add binary_normalize]. apply round_unsigned.
Qed.

Lemma sum_unsigned l : forall acc,
  unsigned32 acc = true -> Forall (fun x => unsigned32 x = true) l ->
  unsigned32 (fold_left F32.add l acc) = true.
Proof.
  induction l as [|x l IH]; intros acc Ha Hl; cbn [fold_left]; [exact Ha|].
  apply Forall_cons_iff in Hl as [Hx Hl]. apply IH; [now apply add_unsigned | exact Hl].
Qed.

(** The error of a candidate is never negative. *)
Lemma sq_err_unsigned img rend : unsigned32 (sq_err img rend) = true.
Proof.
  unfold sq_err, F32.sum. apply sum_unsigned; [reflexivity|].
  apply Forall_map, Forall_forall. intros x _. apply pow2_unsigned.
Qed.

Lemma unsigned_not_negative x : unsigned32 x = true -> F32.ltb x F32.zero = false.
Proof.
  unfold F32.ltb, SFltb, F32.zero.
  destruct x as [s|s| |s m e]; cbn [unsigned32 SFcompare]; try reflexivity;
    intros H; apply negb_true_iff in H; now subst.
Qed.

Lemma sub_self x : F32.is_finite x = true -> F32.sub x x = F32.zero.
Proof.
  unfold F32.sub, F32.zero. destruct x as [s|s| |s m e]; cbn [F32.is_finite SFsub];
    try discriminate; intros _.
  - now destruct s.
  - now rewrite Z.sub_diag.
Qed.

(** The error of an image against itself is zero. *)
Lemma sq_err_self img :
  Forall (fun x => F32.is_finite x = true) img -> sq_err img img = F32.zero.
Proof.
  intros H. unfold sq_err. rewrite zip_with_same, map_map.
  unfold F32.sum.
  assert (E : forall l, Forall (fun x => F32.is_finite x = true) l ->
              fold_left F32.add (map (fun x => F32.pow2 (F32.sub x x)) l) F32.zero = F32.zero).
  { induction 1 as [|x l Hx _ IH]; cbn [map fold_left]; [reflexivity|].
    rewrite (sub_self x Hx). exact IH. }
  now apply E.
Qed.

Lemma below_zero_is_zero x :
  unsigned32 x = true -> tle x F32.zero = true -> zero_or_nan x.
Proof.
  unfold tle, zero_or_nan, F32.leb, F32.eqb, SFleb, SFeqb, F32.zero.
  destruct x as [s|s| |s m e]; cbn [unsigned32 F32.is_nan SFcompare orb]; auto;
    intros Hs; apply negb_true_iff in Hs; subst; try discriminate; auto.
Qed.

(** When a candidate renders exactly the image, the candidate selected
    has an error of zero, unless it has a NaN error. *)
Lemma exact_match_selected img rends i :
  first_min (scores img rends) i ->
  In img rends -> Forall (fun x => F32.is_finite x = true) img ->
  exists e, nth_error (scores img rends) i = Some e /\ zero_or_nan e.
Proof.
  intros (x & Hx & Hmin & _) Hin Hfin. exists x. split; [exact Hx|].
  apply In_nth_error in Hin as [j Hj].
  assert (Hz : nth_error (scores img rends) j = Some F32.zero).
  { unfold scores. rewrite nth_error_map, Hj. cbn [option_map].
    now rewrite sq_err_self. }
  apply below_zero_is_zero; [|exact (Hmin j _ Hz)].
  unfold scores in Hx. rewrite nth_error_map in Hx.
  destruct (nth_error rends i) as [r|]; [|discriminate].
  cbn [option_map] in Hx. injection Hx as <-. apply sq_err_unsigned.
Qed.

Lemma scores_not_negative img rends :
  Forall (fun e => F32.ltb e F32.zero = false) (scores img rends).
Proof.
  unfold scores. apply Forall_map, Forall_forall. intros r _.
  apply unsigned_not_negative, sq_err_unsigned.
Qed.

(** X9. In both stages of the search no candidate has a negative error,
    and an exact match wins: when one of the candidates of an image renders
    exactly that image (of finite intensities), the candidate selected for
    the image has an error of zero, or a NaN error. *)
Theorem exact_match_wins (P G : Type)
    (forward : module P -> tensor -> tensor * module P)
    (quat_to_rot : list F32.t -> list F32.t)
    (get_neighbor : tensor -> ndarray Z -> ndarray Z -> nat -> tensor * ndarray Z)
    (grid : tensor) (Q Y X : nat) (self : BNBOpt)
    (images : tensor) (B : nat) (quats : list tensor) (w : W P G) :
  search_env forward quat_to_rot get_neighbor grid Q Y X ->
  BNBOpt_init quat_to_rot grid Y X = Ok self ->
  shape images = [B; Y; X] -> length (data images) = B * (Y * X) ->
  1 <= B -> length quats = B ->
  Forall (fun q => shape q = [8; 4] /\ length (data q) = 8 * 4) quats ->
  let imgs := chunks (Y * X) B (data images) in
  let wins (img : list F32.t) (rends : list (list F32.t)) (i : nat) :=
    Forall (fun e => F32.ltb e F32.zero = false) (scores img rends)
    /\ (In img rends -> Forall (fun x => F32.is_finite x = true) img ->
        exists e, nth_error (scores img rends) i = Some e /\ zero_or_nan e) in
  (exists mini w',
     eval_base_grid forward self images w = (Ok (mk_nd [B] mini), w')
     /\ Forall2 (fun img i =>
                   wins img (render_batch forward self (model w) (base_rots self)) i)
                imgs mini)
  /\
  (exists mini w',
     eval_incremental_grid forward quat_to_rot self images quats w = (Ok (mk_nd [B] mini), w')
     /\ Forall2 (fun img_rends i => wins (fst img_rends) (snd img_rends) i)
                (combine imgs
                   (chunks 8 B (render_batch forward self (model w)
                                             (map quat_to_rot (candidates_of 8 quats)))))
                mini).
Proof.
  intros Henv Hself Hs Hd HB Hl HF imgs wins. split.
  - destruct (@base_stage_selection _ _ _ _ _ _ _ _ _ Henv _ Hself _ _ Hs Hd w)
      as (mini & H1 & H2).
    exists mini. eexists. split; [exact H1|].
    eapply Forall2_impl; [|exact H2]. intros img i H. unfold wins.
    split; [apply scores_not_negative | now apply exact_match_selected].
  - destruct (@refine_stage_selection _ _ _ _ _ _ _ _ _ Henv _ Hself _ _ Hs Hd quats w HB Hl HF)
      as (mini & H1 & H2).
    exists mini. eexists. split; [exact H1|].
    eapply Forall2_impl; [|exact H2]. intros img i H. unfold wins.
    split; [apply scores_not_negative | now apply exact_match_selected].
Qed.

Lemma exact_match_wins_witness :
  let imgs := chunks (2 * 2) 2 (data Example.images) in
  let wins (img : list F32.t) (rends : list (list F32.t)) (i : nat) :=
    Forall (fun e => F32.ltb e F32.zero = false) (scores img rends)
    /\ (In img rends -> Forall (fun x => F32.is_finite x = true) img ->
        exists e, nth_error (scores img rends) i = Some e /\ zero_or_nan e) in
  exists mini w',
    eval_base_grid Example.forward Example.self Example.images Example.w0 =
    (Ok (mk_nd [2] mini), w')
    /\ Forall2 (fun img i =>
                  wins img (render_batch Example.forward Example.self (model Example.w0)
                                         (base_rots Example.self)) i)
               imgs mini.
Proof.
  refine (proj1 (@exact_match_wins unit nat Example.forward Example.quat_to_rot
                   Example.get_neighbor Example.base_SO3_grid 4 2 2 Example.self
                   Example.images 2 Example.candidates Example.w0 _ _ _ _ _ _ _)).
  - exact example_env.
  - reflexivity.
  - reflexivity.
  - reflexivity.
  - lia.
  - reflexivity.
  - repeat constructor.
Defined.

Lemma first_min_lt_length l i : first_min l i -> i < length l.
Proof.
  intros (x & Hx & _). apply nth_error_Some. now rewrite Hx.
Qed.

(** X10. The indices the stages return are valid: the base stage returns
    for every image an index below the number [Q] of base-grid
    quaternions, and a refinement stage an index below 8, so that the
    look-ups [base_quat[min_i]] and [np.stack(quat)[np.arange(B), min_i]]
    of [opt_theta] are within bounds. *)
Theorem selected_indices_in_range (P G : Type)
    (forward : module P -> tensor -> tensor * module P)
    (quat_to_rot : list F32.t -> list F32.t)
    (get_neighbor : tensor -> ndarray Z -> ndarray Z -> nat -> tensor * ndarray Z)
    (grid : tensor) (Q Y X : nat) (self : BNBOpt)
    (images : tensor) (B : nat) (quats : list tensor) (w : W P G) :
  search_env forward quat_to_rot get_neighbor grid Q Y X ->
  BNBOpt_init quat_to_rot grid Y X = Ok self ->
  shape images = [B; Y; X] -> length (data images) = B * (Y * X) ->
  1 <= B -> length quats = B ->
  Forall (fun q => shape q = [8; 4] /\ length (data q) = 8 * 4) quats ->
  (exists mini,
     fst (eval_base_grid forward self images w) = Ok (mk_nd [B] mini)
     /\ length mini = B /\ Forall (fun i => i < Q) mini
     /\ exists q, np_take (base_quat self) (mk_nd [B] mini) = Ok q /\ shape q = [B; 4])
  /\
  (exists mini,
     fst (eval_incremental_grid forward quat_to_rot self images quats w) = Ok (mk_nd [B] mini)
     /\ length mini = B /\ Forall (fun i => i < 8) mini
     /\ exists q, rbind (np_stack quats) (fun a => np_index2 a (np_arange B) (mk_nd [B] mini))
                  = Ok q /\ shape q = [B; 4]).
Proof.
  intros Henv Hself Hs Hd HB Hl HF. split.
  - destruct (@base_stage_selection _ _ _ _ _ _ _ _ _ Henv _ Hself _ _ Hs Hd w)
      as (mini & H1 & H2).
    exists mini. rewrite H1. cbn [fst]. split; [reflexivity|].
    assert (Hlen : length mini = B).
    { apply Forall2_length in H2. now rewrite chunks_length in H2. }
    assert (Hlt : Forall (fun i => i < Q) mini).
    { clear H1 Hlen. induction H2 as [|img i imgs0 mini0 Hi _ IH]; constructor; [|exact IH].
      apply first_min_lt_length in Hi. unfold scores, render_batch in Hi.
      now rewrite length_map, chunks_length, (base_rots_length Henv Hself) in Hi. }
    split; [exact Hlen|]. split; [exact Hlt|].
    destruct (base_quats_length Henv Hself) as [Hq4 HqQ].
    rewrite (base_quat_rows Henv Hself).
    rewrite (np_take_rows (N := Q) (m := 4)) by auto.
    eexists. split; reflexivity.
  - destruct (@refine_stage_selection _ _ _ _ _ _ _ _ _ Henv _ Hself _ _ Hs Hd quats w HB Hl HF)
      as (mini & H1 & H2).
    exists mini. rewrite H1. cbn [fst]. split; [reflexivity|].
    set (renders := render_batch forward self (model w)
                      (map quat_to_rot (candidates_of 8 quats))) in *.
    assert (Hlr : length renders = B * 8).
    { unfold renders, render_batch. rewrite chunks_length, length_map.
      destruct (candidates_of_spec HF) as (_ & _ & Hc). rewrite Hc. lia. }
    assert (Hlen : length mini = B).
    { apply Forall2_length in H2.
      rewrite length_combine, !chunks_length in H2. lia. }
    assert (Hlt : Forall (fun i => i < 8) mini).
    { pose proof (chunks_Forall 8 B renders Hlr) as Hch.
      assert (Hall : Forall (fun p : list F32.t * list (list F32.t) => length (snd p) = 8)
                            (combine (chunks (Y * X) B (data images)) (chunks 8 B renders))).
      { apply Forall_forall. intros [img rends] Hin. cbn [snd].
        apply in_combine_r in Hin. rewrite Forall_forall in Hch. now apply Hch. }
      clear H1 Hlen. induction H2 as [|p i ps mini0 Hi _ IH]; constructor.
      - apply first_min_lt_length in Hi. unfold scores in Hi. rewrite length_map in Hi.
        apply Forall_cons_iff in Hall as [Hp _]. now rewrite Hp in Hi.
      - apply IH. now apply Forall_cons_iff in Hall as [_ Hps]. }
    split; [exact Hlen|]. split; [exact Hlt|].
    assert (Hne : quats <> []) by (intros E; rewrite E in Hl; simpl in Hl; lia).
    assert (Hsh : Forall (fun q : tensor => shape q = [8; 4]) quats)
      by (eapply Forall_impl; [|exact HF]; now intros q [Hq _]).
    rewrite (np_stack_rows Hne Hsh). unfold tensor in *. rewrite Hl.
    cbn [rbind].
    rewrite (@np_index2_rows F32.t B 8 4 quats mini); auto.
    + eexists. split; reflexivity.
    + eapply Forall_impl; [|exact HF]. now intros q [_ Hq].
Qed.

Lemma selected_indices_in_range_witness :
  exists mini,
    fst (eval_base_grid Example.forward Example.self Example.images Example.w0)
    = Ok (mk_nd [2] mini)
    /\ length mini = 2 /\ Forall (fun i => i < 4) mini
    /\ exists q, np_take (base_quat Example.self) (mk_nd [2] mini) = Ok q /\ shape q = [2; 4].
Proof.
  refine (proj1 (@selected_indices_in_range unit nat Example.forward Example.quat_to_rot
                   Example.get_neighbor Example.base_SO3_grid 4 2 2 Example.self
                   Example.images 2 Example.candidates Example.w0 _ _ _ _ _ _ _)).
  - exact example_env.
  - reflexivity.
  - reflexivity.
  - reflexivity.
  - lia.
  - reflexivity.
  - repeat constructor.
Defined.

(** ** The forward pass of the autoencoder *)

(** X11. [VAE.forward] on a batch whose latent encoding is [B] mean
    rotations and [B] standard deviations returns [B] reconstructed
    images of [ny] by [nx] pixels, the encoding unchanged and [B] tangent
    noises; it draws [3 B] normal variates and queries the decoder once, at
    the [B * ny * nx] coordinates of the rotated lattices. *)
Theorem VAE_forward_shapes (P G : Type)
    (forward : module P -> tensor -> tensor * module P)
    (randn : G -> nat -> list F32.t * G) (expmap_row : list F32.t -> list F32.t)
    (latent_encoder : tensor -> tensor * tensor)
    (nx ny : nat) (img : tensor) (B : nat) (w : W P G) :
  let z_mu := fst (latent_encoder img) in
  let z_std := snd (latent_encoder img) in
  1 <= ny -> 1 <= nx ->
  shape z_mu = [B; 3; 3] -> length (data z_mu) = B * 9 ->
  shape z_std = [B; 3] -> length (data z_std) = B * 3 ->
  length (fst (randn (rng w) (B * 3))) = B * 3 ->
  (forall v, length v = 3 -> length (expmap_row v) = 9) ->
  (forall m lead d, length d = numel lead * 3 ->
     numel (shape (fst (forward m (mk_nd (lead ++ [3]) d)))) = numel lead) ->
  exists y_hat w_eps x,
    VAE_forward forward randn expmap_row latent_encoder (VAE_init nx ny) img w
    = (Ok (y_hat, z_mu, z_std, w_eps),
       mk_world (snd (forward (model w) x)) (grad_enabled w)
                (snd (randn (rng w) (B * 3)))
                (calls w ++ [mk_call (training (model w)) (grad_enabled w) x]))
    /\ shape y_hat = [B; ny; nx] /\ shape w_eps = [B; 3] /\ shape x = [B; ny * nx; 3].
Proof.
  intros z_mu z_std Hny Hnx Hms Hmd Hss Hsd Hr Hexp Hrender.
  set (eps := fst (randn (rng w) (B * 3))).
  set (w_eps := mk_nd [B; 3] (zip_with F32.mul eps (data z_std))).
  set (rot_eps := map expmap_row (chunks 3 B (data w_eps))).
  assert (Hlw : length (data w_eps) = B * 3).
  { unfold w_eps. cbn [data]. rewrite zip_with_length. unfold eps. lia. }
  assert (Hrot : Forall (fun r => length r = 9) rot_eps).
  { unfold rot_eps. apply Forall_map.
    eapply Forall_impl; [|apply (chunks_Forall 3 B (data w_eps) Hlw)].
    intros v Hv. now apply Hexp. }
  pose proof (@sampleSO3_value P G randn expmap_row z_mu z_std B Hms Hmd Hss Hsd w Hr Hrot)
    as Hsample.
  set (rot := mk_nd [B; 3; 3]
                (concat (zip_with (mm 3 3 3) (chunks 9 B (data z_mu)) rot_eps))) in *.
  assert (Hrd : length (data rot) = B * 9).
  { unfold rot. cbn [data]. rewrite (concat_length_uniform (n := 9)).
    - rewrite zip_with_length, chunks_length. unfold rot_eps.
      rewrite length_map, chunks_length. lia.
    - clear. generalize (chunks 9 B (data z_mu)). induction rot_eps as [|r rs IH];
        intros [|c cs]; cbn [zip_with]; constructor; [apply mm_length | apply IH]. }
  pose proof (matmul_rotated_lattice ny nx rot eq_refl Hrd) as Hx.
  set (x := rotated_lattice ny nx B (data rot)) in *.
  assert (Hxd : length (data x) = numel [B; ny * nx] * 3).
  { unfold x, rotated_lattice. cbn [data].
    rewrite (flat_map_length_uniform _ (n := ny * nx * 3)).
    - rewrite chunks_length. cbn [numel fold_right]. lia.
    - intros R _. rewrite (flat_map_length_uniform _ (n := 3)).
      + unfold lattice_points. now rewrite chunks_length.
      + intros v _. unfold matvec. now rewrite length_map, chunks_length. }
  pose proof (Hrender (model w) [B; ny * nx] (data x) Hxd) as Hy.
  change (mk_nd ([B; ny * nx] ++ [3]) (data x)) with x in Hy.
  exists (mk_nd [B; ny; nx] (data (fst (forward (model w) x)))), w_eps, x.
  split; [|repeat split].
  unfold VAE_forward. fold z_mu z_std.
  rewrite (surjective_pairing (latent_encoder img)). fold z_mu z_std.
  unfold bind at 1. rewrite Hsample.
  fold eps. fold w_eps. fold rot_eps. fold rot.
  cbn [vae_lattice vae_ny vae_nx VAE_init].
  unfold bind at 1. unfold lift at 1. rewrite Hx.
  rewrite bind_call_model. cbn [model grad_enabled rng calls].
  unfold bind, lift, ret.
  rewrite (view_infer_ok B [ny; nx]).
  - reflexivity.
  - cbn [numel fold_right]. nia.
  - rewrite Hy. cbn [numel fold_right]. lia.
Qed.

Lemma VAE_forward_shapes_witness :
  exists y_hat w_eps x,
    VAE_forward Example.forward Example.randn Example.expmap_row
                (fun _ => (Example.z_mu, Example.z_std0)) (VAE_init 2 2)
                Example.image1 Example.w0
    = (Ok (y_hat, Example.z_mu, Example.z_std0, w_eps),
       mk_world (snd (Example.forward (model Example.w0) x)) (grad_enabled Example.w0)
                (snd (Example.randn (rng Example.w0) (1 * 3)))
                (calls Example.w0
                 ++ [mk_call (training (model Example.w0)) (grad_enabled Example.w0) x]))
    /\ shape y_hat = [1; 2; 2] /\ shape w_eps = [1; 3] /\ shape x = [1; 2 * 2; 3].
Proof.
  apply (@VAE_forward_shapes unit nat Example.forward Example.randn Example.expmap_row
           (fun _ => (Example.z_mu, Example.z_std0)) 2 2 Example.image1 1 Example.w0).
  - lia.
  - lia.
  - reflexivity.
  - reflexivity.
  - reflexivity.
  - reflexivity.
  - reflexivity.
  - intros v _. unfold Example.expmap_row. destruct (_ && _); reflexivity.
  - intros m lead d Hd. exact (proj1 (pointwise_render Example.decoder m lead d Hd)).
Defined.

(** ** The latent encoder *)

Lemma slice_cols_rows {A : Type} a b (B d : nat) (z : ndarray A) :
  shape z = [B; d] ->
  let hi := match b with Some n => Nat.min n d | None => d end in
  slice_cols a b z =
  Ok (mk_nd [B; hi - a] (flat_map (fun row => skipn a (firstn hi row)) (chunks d B (data z)))).
Proof.
  intros Hz hi. unfold slice_cols. rewrite Hz. cbn [numel fold_right].
  fold hi. rewrite !Nat.mul_1_r. reflexivity.
Qed.

Lemma slice_length {A : Type} a hi d (row : list A) :
  length row = d -> hi <= d -> length (skipn a (firstn hi row)) = hi - a.
Proof. intros Hr Hh. rewrite length_skipn, length_firstn. lia. Qed.

Lemma zip_with_Forall {A B C : Type} (f : A -> B -> C) (Pa : A -> Prop) (Pb : B -> Prop)
    (Pc : C -> Prop) (la : list A) (lb : list B) :
  (forall a b, Pa a -> Pb b -> Pc (f a b)) ->
  Forall Pa la -> Forall Pb lb -> Forall Pc (zip_with f la lb).
Proof.
  intros H Ha; revert lb; induction Ha as [|a la Hpa _ IH]; intros lb Hb; cbn [zip_with].
  - constructor.
  - destruct Hb as [|b lb Hpb Hb]; constructor; auto.
Qed.

Section LatentEncoderFacts.

Variable G : Type.
Variable nn_Linear : nat -> nat -> G -> Linear * G.
Hypothesis Hsizes : nn_Linear_sizes nn_Linear.
Variable s2s2_rot : list F64.t -> list F64.t -> list F64.t.
Hypothesis Hrot : forall u v, length u = 3 -> length v = 3 -> length (s2s2_rot u v) = 9.
Variable exp32 : F32.t -> F32.t.

(** The latent encoder on [N] codes of the width it was built for. *)
Lemma SO3reparameterize_forward_rows input_dims g N (d : list F32.t) :
  length d = N * input_dims ->
  let self := fst (SO3reparameterize_init nn_Linear input_dims g) in
  exists z_mu z_std,
    SO3reparameterize_forward s2s2_rot exp32 self (mk_nd [N; input_dims] d) = Ok (z_mu, z_std)
    /\ shape z_mu = [N; 3; 3] /\ length (data z_mu) = N * 9
    /\ shape z_std = [N; 3] /\ length (data z_std) = N * 3.
Proof.
  intros Hd self. unfold self, SO3reparameterize_init.
  pose proof (Hsizes input_dims 6 g) as Hm.
  destruct (nn_Linear input_dims 6 g) as [m g1]. cbn [fst] in Hm.
  pose proof (Hsizes input_dims 3 g1) as Hv.
  destruct (nn_Linear input_dims 3 g1) as [v g2]. cbn [fst] in Hv |- *.
  unfold SO3reparameterize_forward. cbn [s2s2map so3var].
  change (mk_nd [N; input_dims] d) with (mk_nd ([N] ++ [input_dims]) d).
  rewrite (Linear_forward_rows [N] d Hm), (Linear_forward_rows [N] d Hv).
  cbn [rbind app].
  replace (numel [N]) with N by (cbn [numel fold_right]; lia).
  set (rows := chunks input_dims N d).
  assert (Hlr : length rows = N) by (unfold rows; apply chunks_length).
  set (z := flat_map (linear_row m) rows).
  assert (Hz : length z = N * 6).
  { unfold z. rewrite (flat_map_length_uniform _ (n := 6)); [now rewrite Hlr|].
    intros r _. now apply linear_row_length with (nin := input_dims). }
  assert (Hrows6 : forall r, In r (chunks 6 N z) -> length r = 6).
  { apply Forall_forall. now apply chunks_Forall. }
  eexists. eexists. split.
  { rewrite (@slice_cols_rows F64.t 0 (Some 3) N 6 (to_double (mk_nd [N; 6] z)) eq_refl).
    rewrite (@slice_cols_rows F64.t 3 None N 6 (to_double (mk_nd [N; 6] z)) eq_refl).
    unfold to_double. cbn [rbind Nat.min Nat.sub data].
    unfold s2s2_to_SO3_pair. cbn [shape data rev app]. rewrite shape_eqb_refl.
    replace (numel [N]) with N by (cbn [numel fold_right]; lia).
    cbn [rbind]. reflexivity. }
  unfold nd_map. cbn [shape data].
  repeat split.
  - rewrite length_map, (concat_length_uniform (n := 9)).
    + now rewrite zip_with_length, !chunks_length, Nat.min_id.
    + apply zip_with_Forall with (Pa := fun u => length u = 3) (Pb := fun u => length u = 3).
      * exact Hrot.
      * apply chunks_Forall. rewrite (flat_map_length_uniform _ (n := 3)).
        -- now rewrite chunks_length.
        -- intros r Hr. rewrite (slice_length 0 r (Hrows6 r Hr)); lia.
      * apply chunks_Forall. rewrite (flat_map_length_uniform _ (n := 3)).
        -- now rewrite chunks_length.
        -- intros r Hr. rewrite (slice_length 3 r (Hrows6 r Hr)); lia.
  - rewrite length_map, (flat_map_length_uniform _ (n := 3)); [now rewrite Hlr|].
    intros r _. now apply linear_row_length with (nin := input_dims).
Qed.

End LatentEncoderFacts.

(** X12. The encoding step of [VAE.forward] in [mlp] mode,
    [self.latent_encoder(self.encoder(img))], never raises on a batch of
    [B] images of [ny] by [nx] pixels, whatever the depth and the width
    [encode_dim] of the encoder: it returns [B] mean matrices of 3 x 3
    numbers and [B] standard deviations of 3 numbers, the shapes
    [sampleSO3] expects. *)
Theorem encoding_shapes (G : Type) (activation : F32.t -> F32.t)
    (nn_Linear : nat -> nat -> G -> Linear * G)
    (s2s2_rot : list F64.t -> list F64.t -> list F64.t) (exp32 : F32.t -> F32.t)
    (nx ny : nat) (nlayers : Z) (encode_dim : nat) (g : G) (img : tensor) (B : nat) :
  nn_Linear_sizes nn_Linear ->
  (forall u v, length u = 3 -> length v = 3 -> length (s2s2_rot u v) = 9) ->
  1 <= nx * ny ->
  shape img = [B; ny; nx] -> length (data img) = B * (ny * nx) ->
  let enc := MLPEncoder_init nn_Linear (nx * ny) nlayers encode_dim encode_dim g in
  let lat := fst (SO3reparameterize_init nn_Linear encode_dim (snd enc)) in
  exists z_mu z_std,
    rbind (MLPEncoder_forward activation (fst enc) img)
          (SO3reparameterize_forward s2s2_rot exp32 lat) = Ok (z_mu, z_std)
    /\ shape z_mu = [B; 3; 3] /\ length (data z_mu) = B * 9
    /\ shape z_std = [B; 3] /\ length (data z_std) = B * 3.
Proof.
  intros Hsizes Hrot Hpix Hs Hd enc lat.
  destruct (MLPEncoder_fits Hsizes (nx * ny) nlayers encode_dim encode_dim g) as [Hin Hf].
  fold enc in Hin, Hf.
  unfold MLPEncoder_forward. rewrite Hin.
  rewrite (view_infer_ok B [nx * ny] img).
  2:{ cbn [numel fold_right]. lia. }
  2:{ rewrite Hs. cbn [numel fold_right]. nia. }
  cbn [rbind].
  assert (Hd' : length (data img) = numel [B] * (nx * ny))
    by (rewrite Hd; cbn [numel fold_right]; nia).
  change (mk_nd [B; nx * ny] (data img)) with (mk_nd ([B] ++ [nx * ny]) (data img)).
  rewrite (Sequential_forward_rows activation Hf [B] (data img) Hd').
  cbn [rbind app].
  apply (@SO3reparameterize_forward_rows G nn_Linear Hsizes s2s2_rot Hrot exp32).
  rewrite (flat_map_length_uniform _ (n := encode_dim)).
  - rewrite chunks_length. cbn [numel fold_right]. lia.
  - intros row Hrow. apply (net_row_length activation Hf).
    pose proof (chunks_Forall (nx * ny) (numel [B]) (data img) Hd') as HF.
    rewrite Forall_forall in HF. exact (HF row Hrow).
Qed.

Lemma encoding_shapes_witness :
  let enc := MLPEncoder_init Nets.nn_Linear (2 * 2) 2 3 3 0 in
  let lat := fst (SO3reparameterize_init Nets.nn_Linear 3 (snd enc)) in
  exists z_mu z_std,
    rbind (MLPEncoder_forward Nets.relu (fst enc) Example.images)
          (SO3reparameterize_forward Nets.s2s2_rot Nets.exp32 lat) = Ok (z_mu, z_std)
    /\ shape z_mu = [2; 3; 3] /\ length (data z_mu) = 2 * 9
    /\ shape z_std = [2; 3] /\ length (data z_std) = 2 * 3.
Proof.
  apply (@encoding_shapes nat Nets.relu Nets.nn_Linear Nets.s2s2_rot Nets.exp32
           2 2 2 3 0 Example.images 2).
  - exact Nets_sizes.
  - intros u v Hu Hv. unfold Nets.s2s2_rot. rewrite !length_app, Hu, Hv. reflexivity.
  - lia.
  - reflexivity.
  - reflexivity.
Defined.

(** ** Serving poses *)

Lemma wrap_index_range d i :
  (exists n, wrap_index d i = Some n /\ n < d) <-> (- Z.of_nat d <= i < Z.of_nat d)%Z.
Proof.
  unfold wrap_index.
  destruct ((0 <=? i)%Z && (i <? Z.of_nat d)%Z) eqn:E1.
  - apply andb_prop in E1 as [H1 H2]. apply Z.leb_le in H1. apply Z.ltb_lt in H2.
    split; [lia|]. intros _. eexists. split; [reflexivity | lia].
  - destruct ((- Z.of_nat d <=? i)%Z && (i <? 0)%Z) eqn:E2.
    + apply andb_prop in E2 as [H1 H2]. apply Z.leb_le in H1. apply Z.ltb_lt in H2.
      split; [lia|]. intros _. eexists. split; [reflexivity | lia].
    + split; [intros (n & H & _); discriminate H|].
      intros H. exfalso.
      apply andb_false_iff in E1, E2.
      rewrite Z.leb_gt, Z.ltb_ge in E1. rewrite Z.leb_gt, Z.ltb_ge in E2. lia.
Qed.

Lemma wrap_indices_in_range d l :
  Forall (fun i => (- Z.of_nat d <= i < Z.of_nat d)%Z) l ->
  exists ns, wrap_indices d l = Some ns /\ length ns = length l.
Proof.
  induction 1 as [|i l Hi _ (ns & IH & Hl)]; cbn [wrap_indices].
  - now exists [].
  - apply wrap_index_range in Hi as (n & -> & _). rewrite IH.
    exists (n :: ns). cbn [length]. now rewrite Hl.
Qed.

Lemma wrap_indices_out_of_range d l :
  ~ Forall (fun i => (- Z.of_nat d <= i < Z.of_nat d)%Z) l -> wrap_indices d l = None.
Proof.
  induction l as [|i l IH]; intros H; cbn [wrap_indices].
  - exfalso. apply H. constructor.
  - destruct (wrap_index d i) as [n|] eqn:E; [|reflexivity].
    destruct (wrap_indices d l) as [ns|] eqn:E2; [|reflexivity].
    exfalso. apply H. constructor.
    + apply wrap_index_range. unfold wrap_index in E |- *.
      destruct ((0 <=? i)%Z && (i <? Z.of_nat d)%Z) eqn:E1.
      * apply andb_prop in E1 as [H1 H2]. apply Z.leb_le in H1. apply Z.ltb_lt in H2.
        eexists. split; [reflexivity|]. lia.
      * destruct ((- Z.of_nat d <=? i)%Z && (i <? 0)%Z) eqn:E3; [|discriminate].
        apply andb_prop in E3 as [H1 H2]. apply Z.leb_le in H1. apply Z.ltb_lt in H2.
        eexists. split; [reflexivity|]. lia.
    + assert (Hdec : forall x, {(- Z.of_nat d <= x < Z.of_nat d)%Z}
                                + {~ (- Z.of_nat d <= x < Z.of_nat d)%Z}).
      { intros x. destruct (Z_le_dec (- Z.of_nat d) x), (Z_lt_dec x (Z.of_nat d));
          [left; lia | right; lia | right; lia | right; lia]. }
      destruct (Forall_dec _ Hdec l) as [Hok|Hbad]; [exact Hok|].
      pose proof (IH Hbad) as E3. congruence.
Qed.

Lemma take_rows_in_range {A : Type} (t : ndarray A) N rest (ind : ndarray Z) :
  shape t = N :: rest ->
  Forall (fun i => (- Z.of_nat N <= i < Z.of_nat N)%Z) (data ind) ->
  exists r, take_rows t ind = Ok r /\ shape r = shape ind ++ rest.
Proof.
  intros Hs Hi. unfold take_rows. rewrite Hs.
  destruct (@wrap_indices_in_range N (data ind) Hi) as (ns & -> & _).
  eexists. split; reflexivity.
Qed.

Lemma take_rows_out_of_range {A : Type} (t : ndarray A) N rest (ind : ndarray Z) :
  shape t = N :: rest ->
  ~ Forall (fun i => (- Z.of_nat N <= i < Z.of_nat N)%Z) (data ind) ->
  take_rows t ind = Raise IndexError.
Proof.
  intros Hs Hi. unfold take_rows. rewrite Hs.
  now rewrite (@wrap_indices_out_of_range N (data ind) Hi).
Qed.

Lemma Embedding_forward_in_range (w : tensor) N d (ind : ndarray Z) :
  shape w = [N; d] ->
  Forall (fun i => (0 <= i < Z.of_nat N)%Z) (data ind) ->
  exists r, Embedding_forward w ind = Ok r /\ shape r = shape ind ++ [d].
Proof.
  intros Hs Hi. unfold Embedding_forward. rewrite Hs.
  replace (forallb _ (data ind)) with true.
  - eexists. split; reflexivity.
  - symmetry. apply forallb_forall. rewrite Forall_forall in Hi.
    intros i Hin. specialize (Hi i Hin). apply andb_true_intro.
    split; [apply Z.leb_le | apply Z.ltb_lt]; lia.
Qed.

Lemma Embedding_forward_out_of_range (w : tensor) N d (ind : ndarray Z) :
  shape w = [N; d] ->
  ~ Forall (fun i => (0 <= i < Z.of_nat N)%Z) (data ind) ->
  Embedding_forward w ind = Raise IndexError.
Proof.
  intros Hs Hi. unfold Embedding_forward. rewrite Hs.
  destruct (forallb _ (data ind)) eqn:E; [|reflexivity].
  exfalso. apply Hi. apply Forall_forall. intros i Hin.
  rewrite forallb_forall in E. specialize (E i Hin).
  apply andb_prop in E as [H1 H2]. apply Z.leb_le in H1. apply Z.ltb_lt in H2. lia.
Qed.

(** X13. [PoseTracker.get_pose] on a tracker of [N] poses and [k]
    indices.  Without embedding the poses are read by tensor indexing,
    which accepts the indices from [-N] to [N - 1]; with an embedding they
    are read through [nn.Embedding], which accepts [0] to [N - 1] only.
    When every index is accepted, [k] rotation matrices are returned, with
    [k] translations if and only if the tracker has translations; when
    some index is not, the call raises [IndexError]. *)
Theorem get_pose_bounds (s2s2_to_rot quat_to_rot : list F32.t -> list F32.t)
    (self : PoseTracker) (N k : nat) (ind : ndarray Z) :
  tracker_shapes N self -> shape ind = [k] ->
  let lowest := match emb_type self with
                | None => (- Z.of_nat N)%Z
                | Some _ => 0%Z
                end in
  let accepted (i : Z) := (lowest <= i < Z.of_nat N)%Z in
  (Forall accepted (data ind) ->
   exists rot tran,
     PoseTracker_get_pose s2s2_to_rot quat_to_rot self ind = Return (rot, tran)
     /\ shape rot = [k; 3; 3]
     /\ match tran with
        | Some t => use_trans self = true /\ shape t = [k; 2]
        | None => use_trans self = false
        end)
  /\ (~ Forall accepted (data ind) ->
      PoseTracker_get_pose s2s2_to_rot quat_to_rot self ind = Throw (Op IndexError)).
Proof.
  intros Hsh Hk lowest accepted.
  destruct self as [r t u e re te]. unfold tracker_shapes in Hsh.
  unfold PoseTracker_get_pose.
  cbn [rots trans use_trans emb_type rots_emb trans_emb] in *.
  destruct Hsh as (Hr & Ht & He).
  destruct e as [e|].
  - destruct He as ((w & -> & Hw) & Hte). cbn [need obind].
    assert (Hwd : exists d, shape w = [N; d] /\ (d = 6 \/ d = 4))
      by (destruct Hw as [[_ Hw]|[_ Hw]]; eauto).
    destruct Hwd as (d & Hwd & _).
    split.
    + intros Hok.
      destruct (@Embedding_forward_in_range w N d ind Hwd Hok) as (x & Hx & Hxs).
      rewrite Hx. cbn [rbind].
      assert (Hrot : exists rot,
        (if String.eqb e "s2s2" then of_result (s2s2_to_SO3 s2s2_to_rot x)
         else if String.eqb e "quat" then of_result (quaternions_to_SO3 quat_to_rot x)
         else Throw RuntimeError) = Return rot /\ shape rot = [k; 3; 3]).
      { rewrite Hk in Hxs. destruct Hw as [[-> Hw] | [-> Hw]];
          cbn [String.eqb Ascii.eqb Bool.eqb]; rewrite Hw in Hwd; injection Hwd as <-.
        - unfold s2s2_to_SO3. rewrite Hxs. cbn [rev app of_result].
          eexists. split; reflexivity.
        - unfold quaternions_to_SO3. rewrite Hxs. cbn [rev app of_result].
          eexists. split; reflexivity. }
      destruct Hrot as (rot & -> & Hrs). cbn [obind].
      destruct t as [t0|].
      * destruct Ht as [-> Hts]. destruct Hte as (wt & -> & Hwt). cbn [need obind].
        destruct (@Embedding_forward_in_range wt N 2 ind Hwt Hok) as (y & Hy & Hys).
        rewrite Hy. cbn [of_result obind].
        exists rot, (Some y). rewrite Hys, Hk. repeat split; auto.
      * rewrite Ht. cbn [obind]. exists rot, None. repeat split; auto.
    + intros Hbad. rewrite (@Embedding_forward_out_of_range w N d ind Hwd Hbad). cbn [rbind].
      destruct Hw as [[-> _] | [-> _]]; reflexivity.
  - split.
    + intros Hok.
      destruct (@take_rows_in_range F32.t r N [3; 3] ind Hr Hok) as (rot & -> & Hrs). cbn [of_result obind].
      destruct t as [t0|].
      * destruct Ht as [-> Hts]. cbn [need obind].
        destruct (@take_rows_in_range F32.t t0 N [2] ind Hts Hok) as (y & -> & Hys). cbn [of_result obind].
        exists rot, (Some y). rewrite Hrs, Hys, Hk. repeat split; auto.
      * rewrite Ht. exists rot, None. rewrite Hrs, Hk. repeat split; auto.
    + intros Hbad. now rewrite (@take_rows_out_of_range F32.t r N [3; 3] ind Hr Hbad).
Qed.

Lemma get_pose_bounds_witness :
  let self := mk_PoseTracker (to_float32 Poses.rots_np) (Some (to_float32 Poses.trans_np))
                             true None None None in
  exists rot tran,
    PoseTracker_get_pose Poses.s2s2_to_rot Example.quat_to_rot self (mk_nd [3] [1; -1; 0]%Z)
    = Return (rot, tran)
    /\ shape rot = [3; 3; 3]
    /\ match tran with
       | Some t => use_trans self = true /\ shape t = [3; 2]
       | None => use_trans self = false
       end.
Proof.
  refine (proj1 (@get_pose_bounds Poses.s2s2_to_rot Example.quat_to_rot
                   (mk_PoseTracker (to_float32 Poses.rots_np)
                                   (Some (to_float32 Poses.trans_np)) true None None None)
                   2 3 (mk_nd [3] [1; -1; 0]%Z) _ _) _).
  - repeat split; reflexivity.
  - reflexivity.
  - repeat constructor; cbn; lia.
Defined.

(** ** Trackers do not depend on the random generator *)

Section GeneratorFree.

Variables (G FS : Type).
Variable randn : G -> nat -> list F32.t * G.
Variable load_pkl : String.string -> FS -> outcome pyobj.
Variables rot_to_s2s2 rot_to_quat : list F32.t -> list F32.t.

Lemma free_ret {A : Type} (a : A) : generator_free (io_ret (G := G) (FS := FS) a).
Proof. intros s1 s2 H. split; reflexivity. Qed.

Lemma free_lift {A : Type} (o : outcome A) : generator_free (io_lift (G := G) (FS := FS) o).
Proof. intros s1 s2 H. split; reflexivity. Qed.

Lemma free_bind {A B : Type} (m : IO G FS A) (f : A -> IO G FS B) :
  generator_free m -> (forall a, generator_free (f a)) -> generator_free (io_bind m f).
Proof.
  intros Hm Hf s1 s2 H. unfold io_bind.
  destruct (Hm s1 s2 H) as [Ho Hf1].
  destruct (Hm s2 s1 (eq_sym H)) as [_ Hf2].
  destruct (m s1) as [o1 t1], (m s2) as [o2 t2]. cbn [fst snd] in Ho, Hf1, Hf2. subst o2.
  destruct o1 as [a|e]; [|split; [reflexivity | exact Hf1]].
  assert (Ht : io_files t1 = io_files t2) by congruence.
  destruct (Hf a t1 t2 Ht) as [H1 H2]. split; [exact H1 | congruence].
Qed.

Lemma free_log msg : generator_free (log (G := G) (FS := FS) msg).
Proof. intros s1 s2 H. split; reflexivity. Qed.

Lemma free_read path : generator_free (read_pkl (G := G) load_pkl path).
Proof. intros s1 s2 H. unfold read_pkl. cbn [fst snd]. now rewrite H. Qed.

(** The weights an embedding is created with are overwritten by [copy_]:
    only their shape matters. *)
Lemma free_Embedding_of n d src : generator_free (Embedding_of (FS := FS) randn n d src).
Proof.
  intros s1 s2 H. unfold Embedding_of, io_bind, Embedding, io_lift.
  destruct (randn (io_rng s1) (n * d)) as [l1 g1].
  destruct (randn (io_rng s2) (n * d)) as [l2 g2]. cbn [fst snd].
  split; [|reflexivity]. destruct src as [x|e]; reflexivity.
Qed.

Lemma free_init rots_np trans_np emb :
  generator_free (PoseTracker_init (FS := FS) randn rot_to_s2s2 rot_to_quat
                                   rots_np trans_np emb).
Proof.
  unfold PoseTracker_init. destruct emb as [e|]; [|apply free_ret].
  apply free_bind.
  - destruct (option_map to_float32 trans_np) as [t|]; [|apply free_ret].
    apply free_bind; [apply free_lift|]. intros n.
    apply free_bind; [apply free_Embedding_of|]. intros w. apply free_ret.
  - intros te. apply free_bind; [|intros w; apply free_ret].
    destruct (String.eqb e "s2s2"); [|destruct (String.eqb e "quat")].
    + apply free_bind; [apply free_lift|]. intros n. apply free_Embedding_of.
    + apply free_bind; [apply free_lift|]. intros n. apply free_Embedding_of.
    + apply free_lift.
Qed.

Lemma free_load infile Nimg emb tscale ind :
  generator_free (PoseTracker_load randn load_pkl rot_to_s2s2 rot_to_quat
                                   infile Nimg emb tscale ind).
Proof.
  unfold PoseTracker_load.
  apply free_bind; [apply free_lift|]. intros _.
  apply free_bind.
  { destruct infile as [|f0 [|f1 [|f2 rest]]].
    - apply free_lift.
    - apply free_bind; [apply free_read|]. intros p. apply free_ret.
    - apply free_bind; [apply free_read|]. intros p0.
      apply free_bind; [apply free_read|]. intros p1. apply free_ret.
    - apply free_bind; [apply free_read|]. intros p. apply free_ret. }
  intros poses.
  apply free_bind; [apply free_lift|]. intros r0.
  apply free_bind; [apply free_lift|]. intros r1.
  apply free_bind; [apply free_lift|]. intros r.
  apply free_bind; [|intros t; apply free_init].
  destruct poses as [|p0 [|p1 [|p2 rest]]].
  - apply free_bind; [apply free_log|]. intros _. apply free_ret.
  - apply free_bind; [apply free_log|]. intros _. apply free_ret.
  - apply free_bind; [apply free_lift|]. intros t0.
    apply free_bind; [apply free_lift|]. intros t1.
    apply free_bind; [apply free_lift|]. intros t. apply free_ret.
  - apply free_bind; [apply free_log|]. intros _. apply free_ret.
Qed.

End GeneratorFree.

(** X14. The embeddings of a tracker are filled from the poses: although
    [nn.Embedding] draws initial weights, and so advances the random
    generator, [copy_] overwrites all of them.  The tracker that
    [PoseTracker(...)] and [PoseTracker.load] return, or the exception
    they raise, depends on the arguments and on the files only, never on
    the state of the generator; and neither of them changes a file. *)
Theorem tracker_independent_of_generator (G FS : Type) (randn : G -> nat -> list F32.t * G)
    (load_pkl : String.string -> FS -> outcome pyobj)
    (rot_to_s2s2 rot_to_quat : list F32.t -> list F32.t)
    (rots_np : nparray) (trans_np : option nparray)
    (infile : list String.string) (Nimg : nat) (emb : option String.string)
    (tscale : F64.t) (ind : option (ndarray Z)) :
  generator_free (PoseTracker_init (FS := FS) randn rot_to_s2s2 rot_to_quat
                                   rots_np trans_np emb)
  /\ generator_free (PoseTracker_load randn load_pkl rot_to_s2s2 rot_to_quat
                                      infile Nimg emb tscale ind).
Proof.
  split; [apply free_init | apply free_load].
Qed.

Lemma tracker_independent_of_generator_witness :
  fst (PoseTracker_init Example.randn Poses.rot_to_s2s2 Poses.rot_to_quat
                        Poses.rots_np (Some Poses.trans_np) (Some "quat"%string)
                        (mk_io 0 ([] : Poses.FS) []))
  = fst (PoseTracker_init Example.randn Poses.rot_to_s2s2 Poses.rot_to_quat
                          Poses.rots_np (Some Poses.trans_np) (Some "quat"%string)
                          (mk_io 7 ([] : Poses.FS) ["started"%string])).
Proof.
  apply (proj1 (@tracker_independent_of_generator nat Poses.FS Example.randn Poses.load_pkl
                  Poses.rot_to_s2s2 Poses.rot_to_quat Poses.rots_np (Some Poses.trans_np)
                  [] 2 (Some "quat"%string) (F64.of_Z 1) None)).
  reflexivity.
Defined.
